(** * gnu_elpa_mirror.py: a shallow embedding and its properties

    The script mirrors the packages of GNU ELPA into one Git repository
    per package.  It is a sequential program over three kinds of state:
    the files below its working directory, the external programs it
    starts ([git], [make]) and the GitHub API.  The embedding keeps the
    files concrete (a tree of files, symbolic links and directories),
    takes the external programs and the API as parameters acting on the
    files and on an abstract outside world, and records every process the
    script starts in a trace. *)

From Stdlib Require Import List String Ascii Bool ZArith Lia Permutation.
Import ListNotations.
Open Scope string_scope.
Open Scope list_scope.

Set Implicit Arguments.

(** ** Strings *)

Module Str.

(** [string[len(prefix):]] *)
Fixpoint drop (n : nat) (s : string) : string :=
  match n, s with
  | O, _ => s
  | S _, EmptyString => EmptyString
  | S n', String _ s' => drop n' s'
  end.

(** Text is kept as its bytes in UTF-8, the encoding [bytes.decode()] and
    the script's files use.  [utf8_valid] tells whether the strict decoder
    accepts the bytes: every character in its shortest form, no surrogate,
    nothing past U+10FFFF. *)
Inductive utf8_state : Type :=
| U_start          (* between two characters *)
| U_one            (* one continuation byte to come *)
| U_two            (* two to come *)
| U_three          (* three to come *)
| U_after_E0       (* A0..BF, then one *)
| U_after_ED       (* 80..9F, then one *)
| U_after_F0       (* 90..BF, then two *)
| U_after_F4.      (* 80..8F, then two *)

Definition between (lo hi x : nat) : bool := (Nat.leb lo x && Nat.leb x hi)%bool.

Definition utf8_step (st : utf8_state) (c : ascii) : option utf8_state :=
  let x := nat_of_ascii c in
  match st with
  | U_start =>
      if Nat.leb x 127 then Some U_start
      else if between 194 223 x then Some U_one
      else if Nat.eqb x 224 then Some U_after_E0
      else if Nat.eqb x 237 then Some U_after_ED
      else if between 225 239 x then Some U_two
      else if Nat.eqb x 240 then Some U_after_F0
      else if between 241 243 x then Some U_three
      else if Nat.eqb x 244 then Some U_after_F4
      else None
  | U_one => if between 128 191 x then Some U_start else None
  | U_two => if between 128 191 x then Some U_one else None
  | U_three => if between 128 191 x then Some U_two else None
  | U_after_E0 => if between 160 191 x then Some U_one else None
  | U_after_ED => if between 128 159 x then Some U_one else None
  | U_after_F0 => if between 144 191 x then Some U_two else None
  | U_after_F4 => if between 128 143 x then Some U_two else None
  end.

Fixpoint utf8_from (st : utf8_state) (s : string) : bool :=
  match s with
  | EmptyString => match st with U_start => true | _ => false end
  | String c s' =>
      match utf8_step st c with
      | Some st' => utf8_from st' s'
      | None => false
      end
  end.

Definition utf8_valid (s : string) : bool := utf8_from U_start s.

(** The white space of [str.strip()] with no argument, that is of
    [str.isspace]: U+0009..U+000D, U+001C..U+0020, U+0085, U+00A0, U+1680,
    U+2000..U+200A, U+2028, U+2029, U+202F, U+205F and U+3000.
    [space_at s] is the number of bytes of the white space character [s]
    starts with, 0 when it starts with none. *)
Definition is_space (c : ascii) : bool :=
  let n := nat_of_ascii c in
  (Nat.eqb n 32 || between 9 13 n || between 28 31 n)%bool.

Definition space_at (s : string) : nat :=
  match s with
  | EmptyString => 0
  | String a r =>
      if is_space a then 1
      else
        match r with
        | EmptyString => 0
        | String b r' =>
            let x := nat_of_ascii a in
            let y := nat_of_ascii b in
            if (Nat.eqb x 194 && (Nat.eqb y 133 || Nat.eqb y 160))%bool then 2
            else
              match r' with
              | EmptyString => 0
              | String c _ =>
                  let z := nat_of_ascii c in
                  if ((Nat.eqb x 225 && Nat.eqb y 154 && Nat.eqb z 128)
                      || (Nat.eqb x 226 && Nat.eqb y 128
                          && (between 128 138 z || Nat.eqb z 168 || Nat.eqb z 169
                              || Nat.eqb z 175))
                      || (Nat.eqb x 226 && Nat.eqb y 129 && Nat.eqb z 159)
                      || (Nat.eqb x 227 && Nat.eqb y 128 && Nat.eqb z 128))%bool
                  then 3
                  else 0
              end
        end
  end.

(** [skip] counts the bytes of a white space character still to be
    passed over. *)
Fixpoint lstrip_from (skip : nat) (s : string) : string :=
  match s with
  | EmptyString => EmptyString
  | String _ s' =>
      match skip with
      | S k => lstrip_from k s'
      | O =>
          match space_at s with
          | O => s
          | S k => lstrip_from k s'
          end
      end
  end.

Definition lstrip (s : string) : string := lstrip_from 0 s.

(** From the end: what is left of the rest, with its first byte put
    back, goes as well when it is one white space character. *)
Fixpoint rstrip (s : string) : string :=
  match s with
  | EmptyString => EmptyString
  | String c s' =>
      let u := String c (rstrip s') in
      if Nat.eqb (space_at u) (String.length u) then EmptyString else u
  end.

Definition strip (s : string) : string := rstrip (lstrip s).

(** Universal newlines, as a file opened in text mode is read: CR LF and
    a lone CR become LF. *)
Fixpoint universal_newlines (s : string) : string :=
  match s with
  | EmptyString => EmptyString
  | String c s' =>
      if Nat.eqb (nat_of_ascii c) 13 then
        match s' with
        | String d s'' =>
            if Nat.eqb (nat_of_ascii d) 10
            then String d (universal_newlines s'')
            else String (ascii_of_nat 10) (universal_newlines s')
        | EmptyString => String (ascii_of_nat 10) EmptyString
        end
      else String c (universal_newlines s')
  end.

(** [s.replace(old, new)]: every non-overlapping occurrence of [old],
    leftmost first.  [skip] counts the characters of an occurrence that
    was just replaced and are still to be passed over. *)
Fixpoint replace_from (old new : string) (skip : nat) (s : string) : string :=
  match s with
  | EmptyString => EmptyString
  | String c s' =>
      match skip with
      | S k => replace_from old new k s'
      | O =>
          if String.prefix old s
          then new ++ replace_from old new (String.length old - 1) s'
          else String c (replace_from old new 0 s')
      end
  end.

Definition replace (old new s : string) : string :=
  match old with
  | EmptyString => s
  | _ => replace_from old new 0 s
  end.

(** The line feed, "\n" in the source. *)
Definition nl : string := String (ascii_of_nat 10) EmptyString.

(** The double quote. *)
Definition dquote : string := String (ascii_of_nat 34) EmptyString.

(** [x in args] for a list of strings *)
Definition mem (x : string) (l : list string) : bool :=
  existsb (String.eqb x) l.

End Str.

(** ** [remove_prefix] *)

Definition remove_prefix (prefix s : string) : string :=
  if String.prefix prefix s
  then Str.drop (String.length prefix) s
  else s.

(** ** Paths

    A [pathlib.Path] below the working directory is the list of its
    components; [p / name] appends one. *)

Definition path := list string.

Definition div (p : path) (name : string) : path := p ++ [name].
Infix "//" := div (at level 40, left associativity).

(** [entry.name] *)
Definition name (p : path) : string := last p "".

(** The text a path contributes to a command line. *)
Definition fspath (p : path) : string := String.concat "/" p.

(** Paths compare component by component, as [sorted] needs. *)
Fixpoint path_leb (p q : path) : bool :=
  match p, q with
  | [], _ => true
  | _ :: _, [] => false
  | a :: p', b :: q' =>
      if String.eqb a b then path_leb p' q' else String.leb a b
  end.

Fixpoint insert_sorted (p : path) (l : list path) : list path :=
  match l with
  | [] => [p]
  | q :: l' => if path_leb p q then p :: l else q :: insert_sorted p l'
  end.

Fixpoint sorted (l : list path) : list path :=
  match l with
  | [] => []
  | p :: l' => insert_sorted p (sorted l')
  end.

(** ** Files

    The tree below the working directory.  A directory is an association
    list from names to nodes; a lookup takes the first binding of a name
    and every update removes all of them.  A symbolic link holds its
    target as a path from the working directory. *)

#[warnings="-register-all"]
Inductive node : Type :=
| File (data : string)
| Symlink (target : path)
| Dir (entries : list (string * node)).

Definition entries_t := list (string * node).

Fixpoint assoc (k : string) (es : entries_t) : option node :=
  match es with
  | [] => None
  | (k', n) :: es' => if String.eqb k' k then Some n else assoc k es'
  end.

Definition remove_entry (k : string) (es : entries_t) : entries_t :=
  filter (fun e => negb (String.eqb (fst e) k)) es.

Definition set_entry (k : string) (v : option node) (es : entries_t) : entries_t :=
  match v with
  | Some n => (k, n) :: remove_entry k es
  | None => remove_entry k es
  end.

(** The node at a path, no link followed. *)
Fixpoint get (root : node) (p : path) : option node :=
  match p with
  | [] => Some root
  | c :: p' =>
      match root with
      | Dir es =>
          match assoc c es with
          | Some m => get m p'
          | None => None
          end
      | _ => None
      end
  end.

(** Bind the last component of [p] to [v] ([None] removes it) in the
    directory reached through real directories; nothing changes when
    that directory does not exist. *)
Fixpoint put (root : node) (p : path) (v : option node) : node :=
  match p with
  | [] => match v with Some n => n | None => root end
  | c :: p' =>
      match root with
      | Dir es =>
          match p' with
          | [] => Dir (set_entry c v es)
          | _ :: _ =>
              match assoc c es with
              | Some m => Dir (set_entry c (Some (put m p' v)) es)
              | None => root
              end
          end
      | _ => root
      end
  end.

Definition is_Dir (n : node) : bool :=
  match n with Dir _ => true | _ => false end.

Definition is_Symlink (n : node) : bool :=
  match n with Symlink _ => true | _ => false end.

Definition is_nil {A} (l : list A) : bool :=
  match l with [] => true | _ => false end.

(** Path resolution as the kernel does it: [pre] is the part already
    resolved (real directories only), [rest] is still to walk.  A link
    met on the way restarts the walk at its target and costs one unit of
    [fuel]; the last component is followed only when [follow] is set.
    The result is the resolved location with the node found there, or
    the location alone when only the last component is missing. *)
Fixpoint walk (fuel : nat) (root : node) (follow : bool) : path -> path -> option (path * option node) :=
  fix go (pre rest : path) {struct rest} : option (path * option node) :=
    match rest with
    | [] => Some (pre, get root pre)
    | c :: r =>
        match get root (pre // c) with
        | None =>
            match r, get root pre with
            | [], Some (Dir _) => Some (pre // c, None)
            | _, _ => None
            end
        | Some (Symlink t) =>
            if (is_nil r && negb follow)%bool
            then Some (pre // c, Some (Symlink t))
            else match fuel with
                 | O => None
                 | S fuel' => walk fuel' root follow [] (t ++ r)
                 end
        | Some _ => go (pre // c) r
        end
    end.

(** The kernel gives up after 40 links (ELOOP). *)
Definition MAXSYMLINKS : nat := 40.

Definition stat (root : node) (p : path) : option (path * option node) :=
  walk MAXSYMLINKS root true [] p.

Definition lstat (root : node) (p : path) : option (path * option node) :=
  walk MAXSYMLINKS root false [] p.

(** [Path.is_dir()] and [Path.is_symlink()]: false when the path does not
    resolve. *)
Definition fs_is_dir (root : node) (p : path) : bool :=
  match stat root p with
  | Some (_, Some (Dir _)) => true
  | _ => false
  end.

Definition fs_is_symlink (root : node) (p : path) : bool :=
  match lstat root p with
  | Some (_, Some (Symlink _)) => true
  | _ => false
  end.

(** A path that does not resolve fails with ENOTDIR when a component
    before its last is a regular file, and with ENOENT otherwise. *)
Fixpoint blocked_from (root : node) (pre rest : path) : bool :=
  match rest with
  | [] => false
  | c :: r =>
      (match stat root pre with
       | Some (_, Some (File _)) => true
       | _ => false
       end || blocked_from root (pre // c) r)%bool
  end.

Definition blocked (root : node) (p : path) : bool := blocked_from root [] p.

(** Copying the entries of a directory one by one with [cp]: an entry
    that could not be copied is left out and remembered as a failure. *)
Fixpoint copy_entries (cp : node -> option node * bool) (es : entries_t)
  : entries_t * bool :=
  match es with
  | [] => ([], true)
  | (k, m) :: es' =>
      let (r, ok1) := cp m in
      let (rs, ok2) := copy_entries cp es' in
      (match r with Some m' => (k, m') :: rs | None => rs end, (ok1 && ok2)%bool)
  end.

(** What [shutil.copytree(src, dst)] builds from a source node.  With the
    default [symlinks=False] a link is replaced by what it points to: the
    contents of a file, or a copy of a whole directory; a link that does
    not resolve is an error, recorded while the other entries are still
    copied.  The boolean tells whether every entry was copied.  Following
    a link into a directory costs one unit of [fuel]. *)
Fixpoint copy_image (fuel : nat) (root : node) : node -> option node * bool :=
  fix cp (n : node) : option node * bool :=
    match n with
    | File d => (Some (File d), true)
    | Dir es =>
        let (img, ok) := copy_entries cp es in (Some (Dir img), ok)
    | Symlink t =>
        match stat root t with
        | Some (_, Some (File d)) => (Some (File d), true)
        | Some (_, Some (Dir es)) =>
            match fuel with
            | O => (None, false)
            | S fuel' => copy_image fuel' root (Dir es)
            end
        | _ => (None, false)
        end
    end.

(** ** Exceptions *)

Inductive exn : Type :=
| SystemExit (code : Z)
| CalledProcessError (returncode : Z) (cmd : list string)
| FileNotFoundError (p : path)
| NotADirectoryError (p : path)
| IsADirectoryError (p : path)
| FileExistsError (p : path)
| SameFileError (p : path)
| OSError (p : path)
| ShutilError (p : path)
| UnicodeDecodeError
| GithubException (message : string).

Inductive result (A : Type) : Type :=
| Ok (a : A)
| Raise (e : exn).
Arguments Ok {A} a.
Arguments Raise {A} e.

(** What a call raises on a path that does not resolve. *)
Definition missing_error (root : node) (p : path) : exn :=
  if blocked root p then NotADirectoryError p else FileNotFoundError p.

(** What a call that needs a directory raises on a path that is none. *)
Definition no_directory_error (root : node) (p : path) : exn :=
  match stat root p with
  | Some (_, Some (File _)) => NotADirectoryError p
  | _ => missing_error root p
  end.

(** ** Processes and the GitHub API *)

(** One [subprocess.run] call that started a process: what was passed
    and how the process ended. *)
Record invocation : Type := Invocation {
  argv : list string;
  cwd : option path;
  check : bool;
  returncode : Z;
  stdout : string
}.

(** The requests the script sends through PyGithub. *)
Inductive gh_request : Type :=
| GetUserRepos (token user : string)
| GetOrganization (token org : string)
| CreateRepo (token org repo description homepage : string)
             (has_issues has_wiki has_projects auto_init : bool).

(** The values of [commit_data]. *)
Record commit_data : Type := CommitData {
  timestamp : string;
  gnu_elpa_commit : string;
  emacs_commit : string
}.

(** The Git subcommand of a command line: the first word after [git]
    and its [-c name=value] options. *)
Fixpoint after_options (l : list string) : option string :=
  match l with
  | [] => None
  | a :: l' =>
      if a =? "-c" then
        match l' with
        | [] => None
        | _ :: l'' => after_options l''
        end
      else Some a
  end.

Definition git_subcommand (cmd : list string) : option string :=
  match cmd with
  | g :: l => if g =? "git" then after_options l else None
  | [] => None
  end.

Definition is_push (i : invocation) : Prop := git_subcommand (argv i) = Some "push".

Definition is_commit (i : invocation) : Prop := git_subcommand (argv i) = Some "commit".

Definition is_clone (i : invocation) : Prop := git_subcommand (argv i) = Some "clone".

(** ** The program *)

Declare Scope prog_scope.
Delimit Scope prog_scope with prog.

(** What the script relies on outside itself, over an outside world [X]
    (the remote repositories, the object stores of the local ones,
    GitHub, the clock). *)
Class Outside (X : Type) : Type := {
  (** A started process sees its command line and working directory, and
      may change the files and the outside world; it ends with an exit
      status and the text it wrote to its standard output. *)
  spawn : list string -> option path -> node -> X -> Z * string * node * X;
  (** A request to GitHub answers with a list of repository names (empty
      for the requests that list nothing) or fails. *)
  github : gh_request -> X -> result (list string) * X;
  (** [datetime.datetime.now().strftime("%Y-%m-%d %H:%M:%S")] *)
  now : X -> string * X
}.

Section Program.

Variable X : Type.
Context {O : Outside X}.

(** The state the script runs on: the files, the outside world, what
    the script itself has written to its standard error, and the
    processes it has started, oldest first. *)
Record state : Type := State {
  fs : node;
  world : X;
  stderr : list string;
  trace : list invocation
}.

(** A statement: it ends normally with a value or raises, and in both
    cases leaves a state behind. *)
Definition M (A : Type) : Type := state -> result A * state.

Definition ret {A} (a : A) : M A := fun s => (Ok a, s).

Definition bind {A B} (m : M A) (k : A -> M B) : M B :=
  fun s =>
    match m s with
    | (Ok a, s') => k a s'
    | (Raise e, s') => (Raise e, s')
    end.

Definition raise {A} (e : exn) : M A := fun s => (Raise e, s).

(** [try: m  except: h] *)
Definition catch {A} (m : M A) (h : exn -> M A) : M A :=
  fun s =>
    match m s with
    | (Ok a, s') => (Ok a, s')
    | (Raise e, s') => h e s'
    end.

Notation "x <- m ;; k" := (bind m (fun x => k))
  (at level 61, m at next level, right associativity) : prog_scope.
Notation "m ;; k" := (bind m (fun _ => k))
  (at level 61, right associativity) : prog_scope.
Local Open Scope prog_scope.

(** [for a in l: body(a)] *)
Fixpoint for_each {A} (l : list A) (body : A -> M unit) : M unit :=
  match l with
  | [] => ret tt
  | a :: l' => body a ;; for_each l' body
  end.

(** A loop that grows a local variable. *)
Fixpoint for_fold {A B} (l : list A) (acc : B) (body : A -> B -> M B) : M B :=
  match l with
  | [] => ret acc
  | a :: l' => acc' <- body a acc ;; for_fold l' acc' body
  end.

Definition set_fs (s : state) (f : node) : state :=
  State f (world s) (stderr s) (trace s).

(** *** The library calls on files *)

Definition is_dir (p : path) : M bool := fun s => (Ok (fs_is_dir (fs s) p), s).

Definition is_symlink (p : path) : M bool := fun s => (Ok (fs_is_symlink (fs s) p), s).

(** [p.iterdir()], as a list *)
Definition iterdir (p : path) : M (list path) :=
  fun s =>
    match stat (fs s) p with
    | Some (_, Some (Dir es)) => (Ok (map (fun e => p // fst e) es), s)
    | Some (_, Some _) => (Raise (NotADirectoryError p), s)
    | _ => (Raise (missing_error (fs s) p), s)
    end.

(** [shutil.rmtree(p)]: refuses a link, removes a directory with all it
    holds, without looking through the links inside. *)
Definition rmtree (p : path) : M unit :=
  fun s =>
    match lstat (fs s) p with
    | Some (loc, Some (Dir _)) => (Ok tt, set_fs s (put (fs s) loc None))
    | Some (_, Some (Symlink _)) => (Raise (OSError p), s)
    | Some (_, Some (File _)) => (Raise (NotADirectoryError p), s)
    | _ => (Raise (missing_error (fs s) p), s)
    end.

(** [p.unlink()]: removes a file or a link, not what the link points to. *)
Definition unlink (p : path) : M unit :=
  fun s =>
    match lstat (fs s) p with
    | Some (_, Some (Dir _)) => (Raise (IsADirectoryError p), s)
    | Some (loc, Some _) => (Ok tt, set_fs s (put (fs s) loc None))
    | _ => (Raise (missing_error (fs s) p), s)
    end.

(** [p.mkdir(exist_ok=True)] *)
Definition mkdir_exist_ok (p : path) : M unit :=
  fun s =>
    match lstat (fs s) p with
    | Some (loc, None) => (Ok tt, set_fs s (put (fs s) loc (Some (Dir []))))
    | Some (_, Some _) =>
        if fs_is_dir (fs s) p then (Ok tt, s) else (Raise (FileExistsError p), s)
    | None => (Raise (missing_error (fs s) p), s)
    end.

(** Reading a file opened in text mode to its end: the bytes are
    decoded, strictly (the encoding of the locale is taken to be UTF-8),
    and every line end becomes LF. *)
Definition read_file (p : path) : M string :=
  fun s =>
    match stat (fs s) p with
    | Some (_, Some (File d)) =>
        if Str.utf8_valid d then (Ok (Str.universal_newlines d), s)
        else (Raise UnicodeDecodeError, s)
    | Some (_, Some (Dir _)) => (Raise (IsADirectoryError p), s)
    | _ => (Raise (missing_error (fs s) p), s)
    end.

(** Leaving the text [data] as the whole contents of [p]: its bytes
    are written as they are, LF staying LF as on every POSIX system.
    With [create] the file is made when missing (mode "w"); without, it
    has to exist (mode "r+"). *)
Definition write_file (create : bool) (p : path) (data : string) : M unit :=
  fun s =>
    match stat (fs s) p with
    | Some (loc, Some (File _)) => (Ok tt, set_fs s (put (fs s) loc (Some (File data))))
    | Some (loc, None) =>
        if create then (Ok tt, set_fs s (put (fs s) loc (Some (File data))))
        else (Raise (FileNotFoundError p), s)
    | Some (_, Some (Dir _)) => (Raise (IsADirectoryError p), s)
    | _ => (Raise (missing_error (fs s) p), s)
    end.

(** [shutil.copyfile(src, dst)]: with the default [follow_symlinks=True]
    the source is opened through any link, so the destination receives
    the contents of the file the link points to. *)
Definition copyfile (src dst : path) : M unit :=
  fun s =>
    match stat (fs s) src with
    | Some (from, Some (File d)) =>
        match stat (fs s) dst with
        | Some (loc, Some (File _)) =>
            if list_eq_dec string_dec from loc then (Raise (SameFileError src), s)
            else (Ok tt, set_fs s (put (fs s) loc (Some (File d))))
        | Some (loc, None) => (Ok tt, set_fs s (put (fs s) loc (Some (File d))))
        | Some (_, Some (Dir _)) => (Raise (IsADirectoryError dst), s)
        | _ => (Raise (missing_error (fs s) dst), s)
        end
    | Some (_, Some (Dir _)) => (Raise (IsADirectoryError src), s)
    | _ => (Raise (missing_error (fs s) src), s)
    end.

(** [shutil.copytree(src, dst)]: the destination must not exist; its
    parent does wherever the script calls it.  When some entry could not
    be copied the others still are, and the call raises at its end. *)
Definition copytree (src dst : path) : M unit :=
  fun s =>
    match stat (fs s) src with
    | Some (_, Some (Dir es)) =>
        match lstat (fs s) dst with
        | Some (loc, None) =>
            match copy_image MAXSYMLINKS (fs s) (Dir es) with
            | (Some img, true) => (Ok tt, set_fs s (put (fs s) loc (Some img)))
            | (Some img, false) =>
                (Raise (ShutilError src), set_fs s (put (fs s) loc (Some img)))
            | (None, _) => (Raise (ShutilError src), s)
            end
        | Some (_, Some _) => (Raise (FileExistsError dst), s)
        | None => (Raise (missing_error (fs s) dst), s)
        end
    | Some (_, Some _) => (Raise (NotADirectoryError src), s)
    | _ => (Raise (missing_error (fs s) src), s)
    end.

(** *** Processes, GitHub, the clock *)

(** [subprocess.run(cmd, cwd=cwd, check=check)].  The call raises before
    any process exists when [cwd] is not a directory.  The standard error
    of the process is its own; only its standard output comes back. *)
Definition subprocess_run (cmd : list string) (dir : option path) (chk : bool)
  : M invocation :=
  fun s =>
    let missing := match dir with
                   | Some d => negb (fs_is_dir (fs s) d)
                   | None => false
                   end in
    if missing
    then (Raise (no_directory_error (fs s) (match dir with Some d => d | None => [] end)), s)
    else
      let '(rc, out, f, w) := spawn cmd dir (fs s) (world s) in
      let inv := Invocation cmd dir chk rc out in
      let s' := State f w (stderr s) (trace s ++ [inv]) in
      if (chk && negb (rc =? 0)%Z)%bool
      then (Raise (CalledProcessError rc cmd), s')
      else (Ok inv, s').

Definition github_call (r : gh_request) : M (list string) :=
  fun s =>
    let (res, w) := github r (world s) in
    (res, State (fs s) w (stderr s) (trace s)).

Definition datetime_now : M string :=
  fun s =>
    let (t, w) := now (world s) in
    (Ok t, State (fs s) w (stderr s) (trace s)).

(** [bytes.decode()]: the text of bytes that are UTF-8. *)
Definition decode (b : string) : M string :=
  fun s => if Str.utf8_valid b then (Ok b, s) else (Raise UnicodeDecodeError, s).

(** *** [log] and [die] *)

Definition log (message : string) : M unit :=
  fun s => (Ok tt, State (fs s) (world s) (stderr s ++ [message]) (trace s)).

Definition die {A} (message : string) : M A :=
  log ("gnu_elpa_mirror: " ++ message) ;;
  raise (SystemExit 1).

(** *** [clone_git_repo] *)

Definition clone_cmd (git_url : string) (repo_dir : path) (shallow all_branches : bool)
  : list string :=
  let cmd := ["git"; "clone"] in
  let cmd :=
    if shallow then
      let cmd := cmd ++ ["--depth"; "1"] in
      if all_branches then cmd ++ ["--no-single-branch"] else cmd
    else cmd in
  cmd ++ [git_url; fspath repo_dir].

Definition clone_failed_message : string :=
  "cloning repository failed (details omitted for security)".

Definition clone_git_repo (git_url : string) (repo_dir : path)
    (shallow all_branches private_url : bool) : M unit :=
  d <- is_dir repo_dir ;;
  if negb d then
    let cmd := clone_cmd git_url repo_dir shallow all_branches in
    catch (subprocess_run cmd None true ;; ret tt)
          (fun e =>
             match e with
             | CalledProcessError _ _ =>
                 if private_url then die clone_failed_message else raise e
             | _ => raise e
             end)
  else
    result <- subprocess_run ["git"; "symbolic-ref"; "HEAD"] (Some repo_dir) true ;;
    text <- decode (stdout result) ;;
    let branch := remove_prefix "refs/heads/" (Str.strip text) in
    let ref := ("refs/remotes/origin/" ++ branch)%string in
    subprocess_run ["git"; "fetch"] (Some repo_dir) true ;;
    result <- subprocess_run ["git"; "show-ref"; ref] (Some repo_dir) false ;;
    if (returncode result =? 0)%Z then
      subprocess_run ["git"; "reset"; "--hard"; ref] (Some repo_dir) true ;;
      ret tt
    else ret tt.

(** *** [delete_contents] *)

(** The body of the loop. *)
Definition delete_entry (entry : path) : M unit :=
  if name entry =? ".git" then ret tt
  else
    d <- is_dir entry ;;
    l <- is_symlink entry ;;
    if (d && negb l)%bool then rmtree entry
    else
      catch (unlink entry)
            (fun e =>
               match e with
               | FileNotFoundError _ => ret tt
               | _ => raise e
               end).

Definition delete_contents (p : path) : M unit :=
  entries <- iterdir p ;;
  for_each (sorted entries) delete_entry.

(** *** [stage_and_commit] *)

Definition commit_message (message : string) (data : commit_data) : string :=
  message ++ Str.nl ++ Str.nl
  ++ "Timestamp: " ++ timestamp data ++ Str.nl
  ++ "GNU ELPA commit: " ++ gnu_elpa_commit data ++ Str.nl
  ++ "Emacs commit: " ++ emacs_commit data.

Definition commit_cmd (message : string) (data : commit_data) : list string :=
  ["git";
   "-c"; "user.name=GNU ELPA Mirror Bot";
   "-c"; "user.email=emacs-devel@gnu.org";
   "commit"; "-m";
   commit_message message data].

Definition staged_check_cmd : list string := ["git"; "diff"; "--cached"; "--quiet"].

Definition stage_and_commit (repo_dir : path) (message : string) (data : commit_data)
  : M unit :=
  subprocess_run ["git"; "add"; "--all"; "--force"] (Some repo_dir) true ;;
  r <- subprocess_run staged_check_cmd (Some repo_dir) false ;;
  let anything_staged := negb (returncode r =? 0)%Z in
  if anything_staged then
    subprocess_run (commit_cmd message data) (Some repo_dir) true ;;
    ret tt
  else log "(no changes)".

(** *** The constants *)

Definition GNU_ELPA_GIT_URL : string := "https://git.savannah.gnu.org/git/emacs/elpa.git".
Definition EMACS_GIT_URL : string := "https://git.savannah.gnu.org/git/emacs.git".

Definition GNU_ELPA_SUBDIR : path := ["gnu-elpa"].
Definition GNU_ELPA_PACKAGES_SUBDIR : path := GNU_ELPA_SUBDIR // "packages".
Definition EMACS_SUBDIR : path := GNU_ELPA_SUBDIR // "emacs".
Definition REPOS_SUBDIR : path := ["repos"].

Definition push_cmd : list string := ["git"; "push"; "origin"; "master"].

(** ["https://raxod502:{}@github.com/emacs-straight/{}.git".format(ACCESS_TOKEN, package)] *)
Definition mirror_url (ACCESS_TOKEN package : string) : string :=
  ("https://raxod502:" ++ ACCESS_TOKEN ++ "@github.com/emacs-straight/" ++ package ++ ".git")%string.

(** *** [mirror], block by block *)

(** The bug fix written into the build script of GNU ELPA. *)
Definition patch_build_script : M unit :=
  let f := GNU_ELPA_SUBDIR // "admin" // "archive-contents.el" in
  contents <- read_file f ;;
  let contents :=
    Str.replace ("(cons file-pattern " ++ Str.dquote ++ Str.dquote ++ ")")
                "(cons file-pattern (file-name-nondirectory file-pattern))"
                contents in
  write_file false f contents.

(** The list [packages]: the loop over the packages directory. *)
Definition enumerate_packages : M (list string) :=
  entries <- iterdir GNU_ELPA_PACKAGES_SUBDIR ;;
  for_fold (sorted entries) []
    (fun subdir packages =>
       d <- is_dir subdir ;;
       if negb d then ret packages
       else if name subdir =? "gnu-elpa-mirror" then ret packages
       else ret (packages ++ [name subdir])).

Definition create_repo (ACCESS_TOKEN repo description homepage : string) : M unit :=
  github_call (CreateRepo ACCESS_TOKEN "emacs-straight" repo description homepage
                          false false false false) ;;
  ret tt.

(** The body of the loop "clone/update mirror repositories". *)
Definition clone_mirror (ACCESS_TOKEN : string) (args existing_repos : list string)
    (package : string) : M unit :=
  let git_url := mirror_url ACCESS_TOKEN package in
  let repo_dir := REPOS_SUBDIR // package in
  (if negb (Str.mem package existing_repos) then
     log ("----> create mirror repository " ++ package) ;;
     create_repo ACCESS_TOKEN package
       ("Mirror of the " ++ package ++ " package from GNU ELPA")
       ("https://elpa.gnu.org/packages/" ++ package ++ ".html")
   else ret tt) ;;
  d <- is_dir repo_dir ;;
  if (Str.mem "--skip-mirror-pulls" args && d)%bool then ret tt
  else
    log ("----> clone/update mirror repository " ++ package) ;;
    clone_git_repo git_url repo_dir true false true.

(** The body of the loop over the entries of a package directory. *)
Definition copy_entry (repo_dir source : path) : M unit :=
  if name source =? ".git" then ret tt
  else
    let target := repo_dir // name source in
    d <- is_dir source ;;
    l <- is_symlink source ;;
    if (d && negb l)%bool then copytree source target
    else copyfile source target.

(** Replacing what a mirror holds by what the package holds. *)
Definition copy_package (package_dir repo_dir : path) : M unit :=
  delete_contents repo_dir ;;
  entries <- iterdir package_dir ;;
  for_each (sorted entries) (copy_entry repo_dir).

(** The body of the loop "update mirrored packages". *)
Definition update_package (data : commit_data) (package : string) : M unit :=
  log ("----> update package " ++ package) ;;
  let package_dir := GNU_ELPA_PACKAGES_SUBDIR // package in
  let repo_dir := REPOS_SUBDIR // package in
  copy_package package_dir repo_dir ;;
  stage_and_commit repo_dir ("Update " ++ package) data.

(** The body of the loop "push changes to mirrored packages". *)
Definition push_package (package : string) : M unit :=
  log ("----> push changes to package " ++ package) ;;
  let repo_dir := REPOS_SUBDIR // package in
  subprocess_run push_cmd (Some repo_dir) true ;;
  ret tt.

(** Replacing what the mirror list holds by one empty file per package. *)
Definition write_mirror_list (repo_dir : path) (packages : list string) : M unit :=
  delete_contents repo_dir ;;
  for_each packages (fun package => write_file true (repo_dir // package) "").

(** The first part of [mirror]: both upstream repositories are brought up
    to date and [commit_data] is computed. *)
Definition fetch_upstream : M commit_data :=
  log "--> clone/update GNU ELPA" ;;
  clone_git_repo GNU_ELPA_GIT_URL GNU_ELPA_SUBDIR false true false ;;
  log "--> clone/update Emacs" ;;
  clone_git_repo EMACS_GIT_URL EMACS_SUBDIR false false false ;;
  log "--> check timestamp and commit hashes" ;;
  timestamp <- datetime_now ;;
  r <- subprocess_run ["git"; "rev-parse"; "HEAD"] (Some GNU_ELPA_SUBDIR) true ;;
  text <- decode (stdout r) ;;
  let gnu_elpa_commit := Str.strip text in
  r <- subprocess_run ["git"; "rev-parse"; "HEAD"] (Some EMACS_SUBDIR) true ;;
  text <- decode (stdout r) ;;
  let emacs_commit := Str.strip text in
  ret (CommitData timestamp gnu_elpa_commit emacs_commit).

(** The mirror list: its repository is made sure of, brought up to
    date, filled with one file per package, committed and pushed. *)
Definition publish_list (ACCESS_TOKEN : string) (existing_repos packages : list string)
    (commit_data : commit_data) : M unit :=
  let git_url := mirror_url ACCESS_TOKEN "gnu-elpa-mirror" in
  let repo_dir := REPOS_SUBDIR // "gnu-elpa-mirror" in
  (if negb (Str.mem "gnu-elpa-mirror" existing_repos) then
     log "--> create mirror list repository" ;;
     create_repo ACCESS_TOKEN "gnu-elpa-mirror"
       "List packages mirrored from GNU ELPA"
       "https://elpa.gnu.org/packages/"
   else ret tt) ;;
  log "--> clone/update mirror list repository" ;;
  clone_git_repo git_url repo_dir true false true ;;
  log "--> update mirror list repository" ;;
  write_mirror_list repo_dir packages ;;
  stage_and_commit repo_dir "Update mirror list" commit_data ;;
  log "--> push changes to mirror list repository" ;;
  subprocess_run push_cmd (Some repo_dir) true ;;
  ret tt.

(** The last part of [mirror], once the packages are updated: pushing,
    then the mirror list. *)
Definition publish (ACCESS_TOKEN : string) (args existing_repos packages : list string)
    (commit_data : commit_data) : M unit :=
  (if negb (Str.mem "--skip-mirror-pushes" args) then
     log "--> push changes to mirrored packages" ;;
     for_each packages push_package
   else ret tt) ;;
  publish_list ACCESS_TOKEN existing_repos packages commit_data.

(** The second part of [mirror]: the bug fix and the external packages. *)
Definition prepare_upstream : M unit :=
  log "--> install bugfix in GNU ELPA build script" ;;
  subprocess_run ["git"; "checkout"; "admin/archive-contents.el"]
                 (Some GNU_ELPA_SUBDIR) false ;;
  patch_build_script ;;
  log "--> retrieve/update GNU ELPA external packages" ;;
  subprocess_run ["make"; "externals"] (Some GNU_ELPA_SUBDIR) true ;;
  ret tt.

(** The third part of [mirror], from the list of the packages on: the
    mirrors are brought up to date, filled, committed and pushed. *)
Definition sync_mirrors (ACCESS_TOKEN : string) (args : list string)
    (commit_data : commit_data) : M unit :=
  log "--> get list of mirror repositories" ;;
  existing_repos <- github_call (GetUserRepos ACCESS_TOKEN "emacs-straight") ;;
  packages <- enumerate_packages ;;
  log "--> clone/update mirror repositories" ;;
  github_call (GetOrganization ACCESS_TOKEN "emacs-straight") ;;
  mkdir_exist_ok REPOS_SUBDIR ;;
  for_each packages (clone_mirror ACCESS_TOKEN args existing_repos) ;;
  log "--> update mirrored packages" ;;
  for_each packages (update_package commit_data) ;;
  publish ACCESS_TOKEN args existing_repos packages commit_data.

(** The rest of [mirror] once [commit_data] is known. *)
Definition mirror_from (ACCESS_TOKEN : string) (args : list string)
    (commit_data : commit_data) : M unit :=
  prepare_upstream ;;
  sync_mirrors ACCESS_TOKEN args commit_data.

Definition mirror (ACCESS_TOKEN : string) (args : list string) : M unit :=
  commit_data <- fetch_upstream ;;
  mirror_from ACCESS_TOKEN args commit_data.

(** The module level: the token is read from the environment before
    anything else happens. *)
Definition main (environ : string -> option string) (args : list string) : M unit :=
  match environ "ACCESS_TOKEN" with
  | None => die "please export ACCESS_TOKEN to a valid GitHub API token"
  | Some ACCESS_TOKEN => mirror ACCESS_TOKEN args
  end.

End Program.

Notation "x <- m ;; k" := (bind m (fun x => k))
  (at level 61, m at next level, right associativity) : prog_scope.
Notation "m ;; k" := (bind m (fun _ => k))
  (at level 61, right associativity) : prog_scope.

Arguments State {X} fs world stderr trace.
Arguments fetch_upstream {X O}.
Arguments enumerate_packages {X}.
Arguments patch_build_script {X}.
Arguments datetime_now {X O}.
Arguments prepare_upstream {X O}.
Arguments delete_entry {X}.

(** ** What a run leaves behind *)

Section Runs.

Variable X : Type.
Context {O : Outside X}.

Definition outcome {A} (m : M X A) (s : state X) : result A := fst (m s).

Definition final {A} (m : M X A) (s : state X) : state X := snd (m s).

(** The processes started by [m] from [s], oldest first. *)
Definition started {A} (m : M X A) (s : state X) : list invocation :=
  skipn (List.length (trace s)) (trace (final m s)).

(** The messages written by [m] from [s]. *)
Definition written {A} (m : M X A) (s : state X) : list string :=
  skipn (List.length (stderr s)) (stderr (final m s)).

(** The [commit_data] of the run that starts in [s]. *)
Definition commit_data_of (s : state X) : commit_data :=
  match outcome fetch_upstream s with
  | Ok data => data
  | Raise _ => CommitData "" "" ""
  end.

Definition raised {A} (r : result A) : option exn :=
  match r with
  | Ok _ => None
  | Raise e => Some e
  end.

(** A property of what a statement adds to the trace and to the
    messages, and of how it ends. *)
Definition delta_spec : Type := list invocation -> list string -> option exn -> Prop.

Definition emits_at {A} (s : state X) (m : M X A) (P : delta_spec) : Prop :=
  exists dt dl,
    trace (final m s) = trace s ++ dt /\
    stderr (final m s) = stderr s ++ dl /\
    P dt dl (raised (outcome m s)).

(** [P] survives putting one statement after another that ended
    normally. *)
Definition sequential (P : delta_spec) : Prop :=
  forall d1 l1 d2 l2 r, P d1 l1 None -> P d2 l2 r -> P (d1 ++ d2) (l1 ++ l2) r.

(** [P] holds of every statement that starts no process. *)
Definition idle (P : delta_spec) : Prop := forall dl r, P [] dl r.

(** A statement that starts no process and writes no message. *)
Definition silent {A} (m : M X A) : Prop :=
  forall s, trace (final m s) = trace s /\ stderr (final m s) = stderr s.

(** The places where the script starts a process: a plain
    [subprocess.run], or the guarded one that clones. *)
Inductive site : Type :=
| Run (cmd : list string) (dir : option path) (chk : bool)
| Clone (git_url : string) (repo_dir : path) (shallow all_branches private_url : bool).

(** What a call site adds when its process ends with status [rc]. *)
Definition site_ok (P : delta_spec) (c : site) : Prop :=
  match c with
  | Run cmd dir chk =>
      forall rc out,
        P [Invocation cmd dir chk rc out] []
          (if (chk && negb (rc =? 0)%Z)%bool
           then Some (CalledProcessError rc cmd) else None)
  | Clone git_url repo_dir shallow all_branches private_url =>
      let cmd := clone_cmd git_url repo_dir shallow all_branches in
      forall rc out,
        if (rc =? 0)%Z then P [Invocation cmd None true rc out] [] None
        else if private_url
             then P [Invocation cmd None true rc out]
                    ["gnu_elpa_mirror: " ++ clone_failed_message]%string
                    (Some (SystemExit 1))
             else P [Invocation cmd None true rc out] []
                    (Some (CalledProcessError rc cmd))
  end.

(** ["refs/remotes/origin/{}".format(branch)] *)
Definition remote_ref (branch : string) : string :=
  ("refs/remotes/origin/" ++ branch)%string.

(** The calls of [clone_git_repo] in [mirror]. *)
Inductive cloned (ACCESS_TOKEN : string) : string -> path -> bool -> bool -> bool -> Prop :=
| cloned_gnu_elpa :
    cloned ACCESS_TOKEN GNU_ELPA_GIT_URL GNU_ELPA_SUBDIR false true false
| cloned_emacs :
    cloned ACCESS_TOKEN EMACS_GIT_URL EMACS_SUBDIR false false false
| cloned_mirror package :
    cloned ACCESS_TOKEN (mirror_url ACCESS_TOKEN package) (REPOS_SUBDIR // package)
           true false true.

(** The calls of [stage_and_commit] in [mirror]. *)
Inductive committed : path -> string -> Prop :=
| committed_package package :
    committed (REPOS_SUBDIR // package) ("Update " ++ package)
| committed_list :
    committed (REPOS_SUBDIR // "gnu-elpa-mirror") "Update mirror list".

(** Every place where [mirror] starts a process, for a token, the
    command-line arguments and the commit data of the run. *)
Inductive sites (ACCESS_TOKEN : string) (args : list string) (data : commit_data)
  : site -> Prop :=
| site_clone u d sh ab pr :
    cloned ACCESS_TOKEN u d sh ab pr -> sites ACCESS_TOKEN args data (Clone u d sh ab pr)
| site_symbolic_ref u d sh ab pr :
    cloned ACCESS_TOKEN u d sh ab pr ->
    sites ACCESS_TOKEN args data (Run ["git"; "symbolic-ref"; "HEAD"] (Some d) true)
| site_fetch u d sh ab pr :
    cloned ACCESS_TOKEN u d sh ab pr ->
    sites ACCESS_TOKEN args data (Run ["git"; "fetch"] (Some d) true)
| site_show_ref u d sh ab pr branch :
    cloned ACCESS_TOKEN u d sh ab pr ->
    sites ACCESS_TOKEN args data
          (Run ["git"; "show-ref"; remote_ref branch] (Some d) false)
| site_reset u d sh ab pr branch :
    cloned ACCESS_TOKEN u d sh ab pr ->
    sites ACCESS_TOKEN args data
          (Run ["git"; "reset"; "--hard"; remote_ref branch] (Some d) true)
| site_rev_parse_gnu_elpa :
    sites ACCESS_TOKEN args data (Run ["git"; "rev-parse"; "HEAD"] (Some GNU_ELPA_SUBDIR) true)
| site_rev_parse_emacs :
    sites ACCESS_TOKEN args data (Run ["git"; "rev-parse"; "HEAD"] (Some EMACS_SUBDIR) true)
| site_checkout :
    sites ACCESS_TOKEN args data
          (Run ["git"; "checkout"; "admin/archive-contents.el"] (Some GNU_ELPA_SUBDIR) false)
| site_make :
    sites ACCESS_TOKEN args data (Run ["make"; "externals"] (Some GNU_ELPA_SUBDIR) true)
| site_add d m :
    committed d m ->
    sites ACCESS_TOKEN args data (Run ["git"; "add"; "--all"; "--force"] (Some d) true)
| site_diff d m :
    committed d m ->
    sites ACCESS_TOKEN args data (Run staged_check_cmd (Some d) false)
| site_commit d m :
    committed d m ->
    sites ACCESS_TOKEN args data (Run (commit_cmd m data) (Some d) true)
| site_push_package package :
    Str.mem "--skip-mirror-pushes" args = false ->
    sites ACCESS_TOKEN args data (Run push_cmd (Some (REPOS_SUBDIR // package)) true)
| site_push_list :
    sites ACCESS_TOKEN args data
          (Run push_cmd (Some (REPOS_SUBDIR // "gnu-elpa-mirror")) true).

End Runs.

(** ** A reference model of the outside

    One instance of [Outside], used to run the script on concrete
    inputs and to state what depends on Git itself.  A repository is the
    history of its branch (a list of commits, newest first, each with its
    message and tree), its index, and the remote-tracking branch if it
    keeps one; the remotes are histories, found by URL.  What
    [git add] records of a working tree and what a hard reset leaves in
    a working directory are left to the world: they are functions it is
    given, and what is proved of the model holds for all of them. *)

Definition path_eqb (p q : path) : bool :=
  if list_eq_dec string_dec p q then true else false.

(** Equality of trees. *)
Fixpoint node_eqb (a b : node) : bool :=
  match a, b with
  | File x, File y => String.eqb x y
  | Symlink p, Symlink q => path_eqb p q
  | Dir es, Dir fs =>
      (fix all2 (es fs : entries_t) : bool :=
         match es, fs with
         | [], [] => true
         | (k, n) :: es', (k', m) :: fs' =>
             (String.eqb k k' && node_eqb n m && all2 es' fs')%bool
         | _, _ => false
         end) es fs
  | _, _ => false
  end.

Definition entries_eqb (es fs : entries_t) : bool := node_eqb (Dir es) (Dir fs).

(** The components of a path written with slashes. *)
Fixpoint split_path (s cur : string) : path :=
  match s with
  | EmptyString => [cur]
  | String c s' =>
      if Ascii.eqb c "/" then cur :: split_path s' ""
      else split_path s' (cur ++ String c "")
  end.

Definition parse_path (s : string) : path := split_path s "".

Fixpoint find_path {V} (k : path) (l : list (path * V)) : option V :=
  match l with
  | [] => None
  | (k', v) :: l' => if path_eqb k' k then Some v else find_path k l'
  end.

Definition store_path {V} (k : path) (v : V) (l : list (path * V)) : list (path * V) :=
  (k, v) :: filter (fun e => negb (path_eqb (fst e) k)) l.

Fixpoint find_string {V} (k : string) (l : list (string * V)) : option V :=
  match l with
  | [] => None
  | (k', v) :: l' => if String.eqb k' k then Some v else find_string k l'
  end.

Definition store_string {V} (k : string) (v : V) (l : list (string * V))
  : list (string * V) :=
  (k, v) :: filter (fun e => negb (String.eqb (fst e) k)) l.

Module Git.

Local Open Scope string_scope.

Record commit : Type := Commit {
  message : string;
  tree : entries_t
}.

(** [origin] is the remote-tracking branch, [refs/remotes/origin/master]:
    [None] in a repository that follows no branch of its remote (it has
    no fetch refspec), [Some []] as long as no commit was found at the
    remote. *)
Record repository : Type := Repository {
  branch : string;
  history : list commit;
  index : entries_t;
  origin : option (list commit);
  url : string
}.

(** What the Git at hand does where this model does not say.  [stage t]
    is the tree [git add --all --force] records when the working
    directory holds [t] next to its [.git]; [checkout old new work] is
    what [git reset --hard] leaves in a working directory that held
    [work] next to its [.git], with [old] in the index, when it resets
    to the tree [new]; [initial] is the branch the clone of a
    repository without commits starts on ([init.defaultBranch], or the
    default branch of the remote). *)
Record tool : Type := Tool {
  stage : entries_t -> entries_t;
  checkout : entries_t -> entries_t -> entries_t -> entries_t;
  initial : string
}.

Record world : Type := World {
  locals : list (path * repository);
  remotes : list (string * list commit);
  hub : list string;
  externals : entries_t;
  clock : list string;
  git : tool
}.

(** The tree of the newest commit; the empty tree before the first. *)
Definition tip (h : list commit) : entries_t :=
  match h with
  | c :: _ => tree c
  | [] => []
  end.

(** What the script asks of Git and Make. *)
Inductive command : Type :=
| CmdClone (single_branch : bool) (git_url dir : string)
| CmdSymbolicRef
| CmdFetch
| CmdShowRef (ref : string)
| CmdReset (ref : string)
| CmdRevParse
| CmdCheckout (file : string)
| CmdAdd
| CmdDiff
| CmdCommit (msg : string)
| CmdPush
| CmdMake
| CmdUnknown.

Definition parse (cmd : list string) : command :=
  match cmd with
  | [a; b] =>
      if (a =? "git") && (b =? "fetch") then CmdFetch
      else if (a =? "make") && (b =? "externals") then CmdMake
      else CmdUnknown
  | [a; b; c] =>
      if (a =? "git") && (b =? "symbolic-ref") && (c =? "HEAD") then CmdSymbolicRef
      else if (a =? "git") && (b =? "show-ref") then CmdShowRef c
      else if (a =? "git") && (b =? "rev-parse") && (c =? "HEAD") then CmdRevParse
      else if (a =? "git") && (b =? "checkout") then CmdCheckout c
      else CmdUnknown
  | [a; b; c; d] =>
      if (a =? "git") && (b =? "clone") then CmdClone false c d
      else if (a =? "git") && (b =? "reset") && (c =? "--hard") then CmdReset d
      else if (a =? "git") && (b =? "add") && (c =? "--all") && (d =? "--force")
           then CmdAdd
      else if (a =? "git") && (b =? "diff") && (c =? "--cached") && (d =? "--quiet")
           then CmdDiff
      else if (a =? "git") && (b =? "push") && (c =? "origin") && (d =? "master")
           then CmdPush
      else CmdUnknown
  | [a; b; c; d; e; f] =>
      if (a =? "git") && (b =? "clone") && (c =? "--depth") && (d =? "1")
      then CmdClone true e f
      else CmdUnknown
  | [a; b; c; d; e; f; g] =>
      if (a =? "git") && (b =? "clone") && (c =? "--depth") && (d =? "1")
         && (e =? "--no-single-branch")
      then CmdClone false f g
      else CmdUnknown
  | [a; b; c; d; e; f; g; h] =>
      if (a =? "git") && (b =? "-c") && (d =? "-c") && (f =? "commit") && (g =? "-m")
      then CmdCommit h
      else CmdUnknown
  | _ => CmdUnknown
  end.

Definition commit_eqb (c c' : commit) : bool :=
  (message c =? message c') && entries_eqb (tree c) (tree c').

Fixpoint history_eqb (h h' : list commit) : bool :=
  match h, h' with
  | [], [] => true
  | c :: t, c' :: t' => commit_eqb c c' && history_eqb t t'
  | _, _ => false
  end.

(** The history [h] is [h0] with commits added: a push of [h] over
    [h0] is a fast-forward. *)
Definition extends (h h0 : list commit) : bool :=
  history_eqb (skipn (List.length h - List.length h0) h) h0.

(** What [ref] names in the repository: the remote-tracking branch, of
    the one branch of the remote, when it is there and has a commit. *)
Definition on_remote (r : repository) (ref : string) : option (list commit) :=
  match origin r with
  | Some (c :: o) =>
      if ref =? "refs/remotes/origin/master" then Some (c :: o) else None
  | _ => None
  end.

(** A fake commit hash: the messages of the history, oldest last, would
    do as well; the number of commits is enough to tell states apart. *)
Fixpoint digits (n : nat) : string :=
  match n with
  | O => ""
  | S n' => "c" ++ digits n'
  end.

Definition hash (h : list commit) : string := digits (List.length h).

Definition set_local (w : world) (d : path) (r : repository) : world :=
  World (store_path d r (locals w)) (remotes w) (hub w) (externals w) (clock w) (git w).

Definition set_remote (w : world) (u : string) (h : list commit) : world :=
  World (locals w) (store_string u h (remotes w)) (hub w) (externals w) (clock w) (git w).

Definition fail (rc : Z) (f : node) (w : world) : Z * string * node * world :=
  (rc, "", f, w).

Definition work_of (f : node) (d : path) : option entries_t :=
  match get f d with
  | Some (Dir es) => Some es
  | _ => None
  end.

(** The remote-tracking branch of a new clone.  The clone of one
    branch of a repository that has none yet is given no fetch refspec:
    it follows nothing, whatever is pushed or fetched later. *)
Definition followed (single_branch : bool) (h : list commit) : option (list commit) :=
  if single_branch && is_nil h then None else Some h.

(** [git clone]: the remote must be known and the target must not be in
    the way.  A remote with commits has them on its one branch,
    [master], which is the branch of the clone. *)
Definition clone (single_branch : bool) (git_url : string) (d : path) (f : node) (w : world)
  : Z * string * node * world :=
  match find_string git_url (remotes w) with
  | None => fail 128 f w
  | Some h =>
      match get f d with
      | None | Some (Dir []) =>
          let b := if is_nil h then initial (git w) else "master" in
          let r := Repository b h (tip h) (followed single_branch h) git_url in
          (0%Z, "", put f d (Some (Dir ((".git", Dir []) :: tip h))), set_local w d r)
      | Some _ => fail 128 f w
      end
  end.

(** A command run inside the repository [r] of the working directory [d]. *)
Definition inside (c : command) (d : path) (r : repository) (f : node) (w : world)
  : Z * string * node * world :=
  match c with
  | CmdSymbolicRef => (0%Z, "refs/heads/" ++ branch r ++ Str.nl, f, w)
  | CmdFetch =>
      match find_string (url r) (remotes w) with
      | Some h =>
          (0%Z, "", f,
           set_local w d (Repository (branch r) (history r) (index r)
                                     (option_map (fun _ => h) (origin r)) (url r)))
      | None => fail 128 f w
      end
  | CmdShowRef ref =>
      match on_remote r ref with
      | Some o => (0%Z, hash o ++ " " ++ ref ++ Str.nl, f, w)
      | None => fail 1 f w
      end
  | CmdReset ref =>
      match on_remote r ref, work_of f d with
      | Some o, Some es =>
          let t := tip o in
          let kept := filter (fun e => fst e =? ".git") es in
          let work := checkout (git w) (index r) t (remove_entry ".git" es) in
          (0%Z, "", put f d (Some (Dir (kept ++ work)%list)),
           set_local w d (Repository (branch r) o t (origin r) (url r)))
      | _, _ => fail 128 f w
      end
  | CmdRevParse =>
      if is_nil (history r) then (128%Z, "HEAD" ++ Str.nl, f, w)
      else (0%Z, hash (history r) ++ Str.nl, f, w)
  | CmdCheckout file =>
      match get (Dir (index r)) (parse_path file) with
      | Some n => (0%Z, "", put f (d ++ parse_path file)%list (Some n), w)
      | None => fail 1 f w
      end
  | CmdAdd =>
      match work_of f d with
      | Some es =>
          (0%Z, "", f,
           set_local w d (Repository (branch r) (history r)
                                     (stage (git w) (remove_entry ".git" es))
                                     (origin r) (url r)))
      | None => fail 128 f w
      end
  | CmdDiff =>
      if entries_eqb (index r) (tip (history r)) then (0%Z, "", f, w)
      else fail 1 f w
  | CmdCommit msg =>
      if entries_eqb (index r) (tip (history r)) then fail 1 f w
      else
        (0%Z, "", f,
         set_local w d (Repository (branch r) (Commit msg (index r) :: history r)
                                   (index r) (origin r) (url r)))
  | CmdPush =>
      match find_string (url r) (remotes w) with
      | Some h =>
          if (branch r =? "master") && negb (is_nil (history r)) && extends (history r) h
          then
            (0%Z, "", f,
             set_remote
               (set_local w d (Repository (branch r) (history r) (index r)
                                          (option_map (fun _ => history r) (origin r))
                                          (url r)))
               (url r) (history r))
          else fail 1 f w
      | None => fail 128 f w
      end
  | _ => fail 129 f w
  end.

(** [make externals]: the external packages appear below [packages]. *)
Definition make_externals (d : path) (f : node) (w : world) : node :=
  fold_left (fun g e => put g (d // "packages" // fst e) (Some (snd e))) (externals w) f.

Definition run (cmd : list string) (dir : option path) (f : node) (w : world)
  : Z * string * node * world :=
  match parse cmd, dir with
  | CmdClone single_branch git_url d, None => clone single_branch git_url (parse_path d) f w
  | CmdMake, Some d => (0%Z, "", make_externals d f w, w)
  | CmdUnknown, _ => fail 127 f w
  | c, Some d =>
      match find_path d (locals w) with
      | Some r => inside c d r f w
      | None => fail 128 f w
      end
  | _, None => fail 128 f w
  end.

(** GitHub: the organisation's repositories; a new one starts empty and
    is found at the URL that carries the token. *)
Definition api (r : gh_request) (w : world) : result (list string) * world :=
  match r with
  | GetUserRepos _ _ => (Ok (hub w), w)
  | GetOrganization _ _ => (Ok [], w)
  | CreateRepo token _ repo _ _ _ _ _ _ =>
      if Str.mem repo (hub w)
      then (Raise (GithubException "name already exists on this account"), w)
      else
        (Ok [],
         World (locals w) (store_string (mirror_url token repo) [] (remotes w))
               (hub w ++ [repo])%list (externals w) (clock w) (git w))
  end.

(** The clock is the list of its readings to come. *)
Definition tick (w : world) : string * world :=
  match clock w with
  | t :: ts => (t, World (locals w) (remotes w) (hub w) (externals w) ts (git w))
  | [] => ("", w)
  end.

#[global] Instance outside : Outside world := {|
  spawn := run;
  github := api;
  now := tick
|}.

End Git.

(** ** A small world to run the script on *)

Module Sample.

Local Open Scope string_scope.

Definition TOKEN : string := "s3cr3t".

(** What [git add] records of a node: a file or a link as it is, a
    directory for what it holds; a directory that holds nothing
    recorded leaves no trace. *)
Fixpoint recorded (n : node) : option node :=
  match n with
  | Dir es =>
      match (fix each (l : entries_t) : entries_t :=
               match l with
               | [] => []
               | (k, m) :: l' =>
                   match recorded m with
                   | Some m' => (k, m') :: each l'
                   | None => each l'
                   end
               end) es with
      | [] => None
      | es' => Some (Dir es')
      end
  | _ => Some n
  end.

Definition stage (t : entries_t) : entries_t :=
  match recorded (Dir t) with
  | Some (Dir t') => t'
  | _ => []
  end.

Definition has_name (k : string) (es : entries_t) : bool :=
  match assoc k es with
  | Some _ => true
  | None => false
  end.

(** What a hard reset leaves of the node [work], tracked as [old], when
    the tree reset to has [new] in its place: the file or link of the
    tree; a directory of the tree merged with the one that is there;
    nothing of what was tracked and is no longer, a directory going
    with its last entry; and what was not tracked as it is. *)
Fixpoint restored (old new : option node) (work : node) {struct work} : option node :=
  match new with
  | Some (Dir nt) =>
      match work with
      | Dir wes =>
          let ot := match old with Some (Dir ot) => ot | _ => [] end in
          Some (Dir ((fix each (l : entries_t) : entries_t :=
                        match l with
                        | [] => []
                        | (k, m) :: l' =>
                            match restored (assoc k ot) (assoc k nt) m with
                            | Some m' => (k, m') :: each l'
                            | None => each l'
                            end
                        end) wes
                     ++ filter (fun e => negb (has_name (fst e) wes)) nt))
      | _ => new
      end
  | Some _ => new
  | None =>
      match old, work with
      | None, _ => Some work
      | Some (Dir ot), Dir wes =>
          match (fix each (l : entries_t) : entries_t :=
                   match l with
                   | [] => []
                   | (k, m) :: l' =>
                       match restored (assoc k ot) None m with
                       | Some m' => (k, m') :: each l'
                       | None => each l'
                       end
                   end) wes with
          | [] => None
          | es' => Some (Dir es')
          end
      | Some (Dir _), _ | Some _, Dir _ => Some work
      | Some _, _ => None
      end
  end.

Definition checkout (old new work : entries_t) : entries_t :=
  match restored (Some (Dir old)) (Some (Dir new)) (Dir work) with
  | Some (Dir es) => es
  | _ => []
  end.

(** The Git of the sample; its new repositories start on [master]. *)
Definition git : Git.tool := Git.Tool stage checkout "master".

(** The build script before the bug fix. *)
Definition archive_contents : string :=
  "(defun f () (cons file-pattern " ++ Str.dquote ++ Str.dquote ++ "))".

Definition foo : entries_t :=
  [("foo.el", File "(provide 'foo)"); ("README", File "Foo")].

Definition bar : entries_t :=
  [("bar.el", File "(provide 'bar)");
   ("doc", Dir [("bar.texi", File "@node Bar")])].

(** What GNU ELPA holds: two packages, a directory with the reserved
    name, and a plain file next to them. *)
Definition elpa : entries_t :=
  [("admin", Dir [("archive-contents.el", File archive_contents)]);
   ("packages",
    Dir [("foo", Dir foo);
         ("bar", Dir bar);
         ("gnu-elpa-mirror", Dir [("x", File "x")]);
         ("notes.txt", File "not a package")])].

Definition emacs : entries_t := [("README", File "GNU Emacs")].

(** An external package, checked out by [make externals]; its [.git] is
    a file, as in a linked working tree, and it has a directory that
    holds nothing. *)
Definition ext : entries_t :=
  [(".git", File "gitdir: ../../.git/worktrees/ext"); ("ext.el", File "(provide 'ext)");
   ("build", Dir [])].

(** The mirror of [foo] exists already and holds a stale file. *)
Definition world0 : Git.world :=
  Git.World
    []
    [(GNU_ELPA_GIT_URL, [Git.Commit "upstream" elpa]);
     (EMACS_GIT_URL, [Git.Commit "upstream" emacs]);
     (mirror_url TOKEN "foo", [Git.Commit "Update foo" [("old.el", File "stale")]])]
    ["foo"]
    [("ext", Dir ext)]
    ["2020-01-01 00:00:00"; "2020-01-02 00:00:00"; "2020-01-03 00:00:00"]
    git.

(** The script starts in an empty directory. *)
Definition state0 : state Git.world := State (Dir []) world0 [] [].

Definition run1 : result unit * state Git.world :=
  Eval vm_compute in mirror TOKEN [] state0.

(** The second run starts where the first stopped, with an empty trace. *)
Definition state1 : state Git.world :=
  State (fs (snd run1)) (world (snd run1)) [] [].

Definition run2 : result unit * state Git.world :=
  Eval vm_compute in mirror TOKEN [] state1.

(** A dry run, and the run after it. *)
Definition dry1 : result unit * state Git.world :=
  Eval vm_compute in mirror TOKEN ["--skip-mirror-pushes"] state0.

Definition state_dry : state Git.world :=
  State (fs (snd dry1)) (world (snd dry1)) [] [].

Definition dry2 : result unit * state Git.world :=
  Eval vm_compute in mirror TOKEN [] state_dry.

(** A world in which GitHub lists the mirror of [foo] but the
    repository cannot be reached. *)
Definition world_unreachable : Git.world :=
  Git.World
    []
    [(GNU_ELPA_GIT_URL, [Git.Commit "upstream" elpa]);
     (EMACS_GIT_URL, [Git.Commit "upstream" emacs])]
    ["bar"; "ext"; "foo"]
    []
    ["2020-01-01 00:00:00"]
    git.

Definition state_unreachable : state Git.world := State (Dir []) world_unreachable [] [].

(** A world in which the package [bar] has a link, [peek], to the
    README in the mirror of [foo], and the mirror of [foo] exists with
    an older README. *)
Definition bar_peeking : entries_t :=
  [("bar.el", File "(provide 'bar)"); ("peek", Symlink ["repos"; "foo"; "README"])].

Definition world_peeking : Git.world :=
  Git.World
    []
    [(GNU_ELPA_GIT_URL,
      [Git.Commit "upstream"
         [("admin", Dir [("archive-contents.el", File archive_contents)]);
          ("packages", Dir [("foo", Dir foo); ("bar", Dir bar_peeking)])]]);
     (EMACS_GIT_URL, [Git.Commit "upstream" emacs]);
     (mirror_url TOKEN "foo", [Git.Commit "Update foo" [("README", File "Old Foo")]])]
    ["foo"]
    []
    ["2020-01-01 00:00:00"; "2020-01-02 00:00:00"]
    git.

Definition state_peeking : state Git.world := State (Dir []) world_peeking [] [].

Definition peeking1 : result unit * state Git.world :=
  Eval vm_compute in mirror TOKEN [] state_peeking.

(** The second run starts where the first stopped. *)
Definition state_peeking1 : state Git.world :=
  State (fs (snd peeking1)) (world (snd peeking1)) [] [].

Definition peeking2 : result unit * state Git.world :=
  Eval vm_compute in mirror TOKEN [] state_peeking1.

(** A directory in which the mirrors are to be, and a GitHub without
    repositories. *)
Definition state_unlisted : state Git.world :=
  State (Dir [("repos", Dir [])]) (Git.World [] [] [] [] [] git) [] [].

(** What the packages directory holds after the first run. *)
Definition packages_dir : entries_t :=
  Eval vm_compute in
    match get (fs state1) GNU_ELPA_PACKAGES_SUBDIR with
    | Some (Dir es) => es
    | _ => []
    end.

(** A mirror directory with things to delete: a stale file, a
    directory, and a link to a directory that lies elsewhere. *)
Definition cluttered_mirror : entries_t :=
  [(".git", Dir [("HEAD", File "ref: refs/heads/master")]);
   ("old.el", File "stale");
   ("doc", Dir [("old.texi", File "@node Old")]);
   ("shared", Symlink ["shared"])].

Definition cluttered : state unit :=
  State (Dir [("repos", Dir [("foo", Dir cluttered_mirror)]);
              ("shared", Dir [("keep.txt", File "kept")])])
        tt [] [].

(** The package [bar] next to a mirror that is out of date. *)
Definition unsynced : state unit :=
  State (Dir [("gnu-elpa", Dir [("packages", Dir [("bar", Dir bar)])]);
              ("repos", Dir [("bar", Dir cluttered_mirror)]);
              ("shared", Dir [("keep.txt", File "kept")])])
        tt [] [].

(** A package in which [alias.el] is a link to [foo.el]. *)
Definition foo_with_link : entries_t :=
  [("foo.el", File "(provide 'foo)");
   ("alias.el", Symlink ["gnu-elpa"; "packages"; "foo"; "foo.el"])].

Definition linked : state unit :=
  State (Dir [("gnu-elpa", Dir [("packages", Dir [("foo", Dir foo_with_link)])]);
              ("repos", Dir [("foo", Dir [(".git", Dir [])])])])
        tt [] [].

End Sample.

(** ** Properties of runs, as the claims state them *)

(** No process is given [--no-single-branch]. *)
Definition never_all_branches : delta_spec :=
  fun dt _ _ => forall i, In i dt -> ~ In "--no-single-branch" (argv i).

(** A clone from a mirror URL, which carries the token. *)
Definition credential_clone (ACCESS_TOKEN : string) (i : invocation) : Prop :=
  exists package dir shallow all_branches,
    argv i = clone_cmd (mirror_url ACCESS_TOKEN package) dir shallow all_branches.

(** What the script writes when such a clone fails. *)
Definition clone_failure_diagnostic : string :=
  "gnu_elpa_mirror: cloning repository failed (details omitted for security)".

Definition hides_credential (ACCESS_TOKEN : string) : delta_spec :=
  fun dt dl r =>
    forall i, In i dt -> credential_clone ACCESS_TOKEN i -> returncode i <> 0%Z ->
      r = Some (SystemExit 1) /\
      exists earlier, dl = earlier ++ [clone_failure_diagnostic].

(** The directory of the mirror list. *)
Definition MIRROR_LIST_DIR : path := REPOS_SUBDIR // "gnu-elpa-mirror".

(** The progress lines of the script: the fixed ones, and the four that
    name a package. *)
Definition fixed_lines : list string :=
  ["--> clone/update GNU ELPA";
   "--> clone/update Emacs";
   "--> check timestamp and commit hashes";
   "--> install bugfix in GNU ELPA build script";
   "--> retrieve/update GNU ELPA external packages";
   "--> get list of mirror repositories";
   "--> clone/update mirror repositories";
   "--> update mirrored packages";
   "--> push changes to mirrored packages";
   "--> create mirror list repository";
   "--> clone/update mirror list repository";
   "--> update mirror list repository";
   "--> push changes to mirror list repository";
   "(no changes)"].

Definition package_lines (package : string) : list string :=
  ["----> create mirror repository " ++ package;
   "----> clone/update mirror repository " ++ package;
   "----> update package " ++ package;
   "----> push changes to package " ++ package]%string.

Definition progress_line (packages : list string) (m : string) : Prop :=
  In m fixed_lines \/ exists package, In package packages /\ In m (package_lines package).

(** The list [packages] of the run that starts in [s]: what the loop
    over the packages directory finds once both upstream repositories
    are up to date and the external packages are there.  Nothing here
    is given the token. *)
Definition packages_of_run {X} {O : Outside X} (s : state X) : list string :=
  match bind fetch_upstream
             (fun _ => bind prepare_upstream (fun _ => enumerate_packages)) s with
  | (Ok packages, _) => packages
  | (Raise _, _) => []
  end.

Definition pushes_only_list : delta_spec :=
  fun dt _ _ => forall i, In i dt -> is_push i -> cwd i = Some MIRROR_LIST_DIR.

(** No process at all is a push. *)
Definition no_push (l : list invocation) : Prop :=
  forall i, In i l -> ~ is_push i.

(** A failing process that is not [exempt] is the last one started, and
    the statement raises. *)
Definition fails_fast (exempt : list string -> Prop) : delta_spec :=
  fun dt _ r =>
    forall before i after,
      dt = before ++ i :: after ->
      returncode i <> 0%Z -> ~ exempt (argv i) ->
      after = [] /\ r <> None.

(** The one exception the specification names. *)
Definition staged_check_only (cmd : list string) : Prop := cmd = staged_check_cmd.

(** The commands whose exit status the script does not check: it reads
    the first two as answers and ignores the third. *)
Definition unchecked (cmd : list string) : Prop :=
  cmd = staged_check_cmd \/
  (exists branch, cmd = ["git"; "show-ref"; remote_ref branch]) \/
  cmd = ["git"; "checkout"; "admin/archive-contents.el"].

Definition summary_of_run (summary : string) : Prop :=
  (exists package, summary = ("Update " ++ package)%string) \/
  summary = "Update mirror list".

Definition commits_shaped (data : commit_data) : delta_spec :=
  fun dt _ _ =>
    forall i, In i dt -> is_commit i ->
      exists summary, summary_of_run summary /\ argv i = commit_cmd summary data.

(** ** Whose commits they are

    The script starts Git without [env=], so the process has the
    environment of the script, and Git reads the configuration of the
    user who runs it.  This is how Git picks the names and the addresses
    it records in a commit (git-commit(1), git-config(1)): the variables
    [GIT_AUTHOR_NAME], [GIT_AUTHOR_EMAIL], [GIT_COMMITTER_NAME] and
    [GIT_COMMITTER_EMAIL] of the environment come first, then the
    settings [author.name], [author.email], [committer.name] and
    [committer.email], then [user.name] and [user.email]; a setting given
    with [-c] on the command line goes before the same setting of any
    other source. *)

Record git_user : Type := GitUser {
  environment : string -> option string;
  configuration : string -> option string
}.

(** The value a command line gives to [key] with [-c key=value] before
    its subcommand; the last such option counts. *)
Fixpoint c_option (key : string) (l : list string) : option string :=
  match l with
  | a :: l' =>
      if a =? "-c" then
        match l' with
        | setting :: l'' =>
            match c_option key l'' with
            | Some v => Some v
            | None =>
                if String.prefix (key ++ "=") setting
                then Some (Str.drop (String.length key + 1) setting)
                else None
            end
        | [] => None
        end
      else None
  | [] => None
  end.

Definition setting (u : git_user) (cmd : list string) (key : string) : option string :=
  match c_option key (tl cmd) with
  | Some v => Some v
  | None => configuration u key
  end.

Definition first_of (a b c : option string) : option string :=
  match a with
  | Some v => Some v
  | None => match b with Some v => Some v | None => c end
  end.

Record identity : Type := Identity {
  author_name : option string;
  author_email : option string;
  committer_name : option string;
  committer_email : option string
}.

Definition commit_identity (u : git_user) (cmd : list string) : identity :=
  Identity
    (first_of (environment u "GIT_AUTHOR_NAME") (setting u cmd "author.name")
              (setting u cmd "user.name"))
    (first_of (environment u "GIT_AUTHOR_EMAIL") (setting u cmd "author.email")
              (setting u cmd "user.email"))
    (first_of (environment u "GIT_COMMITTER_NAME") (setting u cmd "committer.name")
              (setting u cmd "user.name"))
    (first_of (environment u "GIT_COMMITTER_EMAIL") (setting u cmd "committer.email")
              (setting u cmd "user.email")).

Definition bot_identity : identity :=
  Identity (Some "GNU ELPA Mirror Bot") (Some "emacs-devel@gnu.org")
           (Some "GNU ELPA Mirror Bot") (Some "emacs-devel@gnu.org").

(** The user sets none of the eight things that go before [user.name]
    and [user.email]. *)
Definition leaves_identity_alone (u : git_user) : Prop :=
  Forall (fun v => environment u v = None)
         ["GIT_AUTHOR_NAME"; "GIT_AUTHOR_EMAIL"; "GIT_COMMITTER_NAME"; "GIT_COMMITTER_EMAIL"] /\
  Forall (fun k => configuration u k = None)
         ["author.name"; "author.email"; "committer.name"; "committer.email"].

(** ** Properties of the files *)

(** Two paths are apart when they part at some component: neither lies
    on the way to the other. *)
Fixpoint apart (p q : path) : bool :=
  match p, q with
  | a :: p', b :: q' => if String.eqb a b then apart p' q' else true
  | _, _ => false
  end.

(** What lies apart from [d] is as it was. *)
Definition untouched_outside (d : path) (f f' : node) : Prop :=
  forall q, apart d q = true -> get f' q = get f q.

(** Nothing but the files changed. *)
Definition only_files_changed {X} (s s' : state X) : Prop :=
  world s' = world s /\ stderr s' = stderr s /\ trace s' = trace s.

(** The entry is the metadata directory of Git. *)
Definition is_dot_git (e : string * node) : bool := fst e =? ".git".

(** The directory [d] holds [cur'] after the step and nothing else
    changed. *)
Definition dir_step {X} (d : path) (cur' : entries_t) (s s' : state X) : Prop :=
  get (fs s') d = Some (Dir cur') /\
  untouched_outside d (fs s) (fs s') /\
  only_files_changed s s'.

(** Entries that survive the deletion of [names]. *)
Definition survives (names : list string) (e : string * node) : bool :=
  (is_dot_git e || negb (Str.mem (fst e) names))%bool.

(** No symbolic link anywhere in the tree. *)
Fixpoint links_free (n : node) : bool :=
  match n with
  | File _ => true
  | Symlink _ => false
  | Dir es =>
      (fix all (l : entries_t) : bool :=
         match l with
         | [] => true
         | (_, m) :: l' => (links_free m && all l')%bool
         end) es
  end.

(** The reserved name of the package enumeration. *)
Definition reserved (k : string) : bool := k =? "gnu-elpa-mirror".

(** ** Two runs in a row *)

(** The names of the entries of [d] in the order of [sorted(d.iterdir())]. *)
Definition listing (d : path) (es : entries_t) : list string :=
  map name (sorted (map (div d) (map fst es))).

(** What Git tracks in a mirror after the entries [names] of a package
    were copied into it one after the other. *)
Fixpoint copied (src_es : entries_t) (names : list string) (t : entries_t) : entries_t :=
  match names with
  | [] => t
  | k :: names' =>
      copied src_es names'
        (if k =? ".git" then t
         else match assoc k src_es with
              | Some n => (k, n) :: remove_entry k t
              | None => t
              end)
  end.

Definition package_tree (src : path) (src_es : entries_t) : entries_t :=
  copied src_es (listing src src_es) [].

(** What Git tracks in the mirror list after one empty file per package
    was written. *)
Fixpoint listed (packages : list string) (t : entries_t) : entries_t :=
  match packages with
  | [] => t
  | p :: packages' => listed packages' ((p, File "") :: remove_entry p t)
  end.

(** A name that can be an entry of a directory: no slash in it. *)
Fixpoint valid_name (k : string) : bool :=
  match k with
  | EmptyString => true
  | String c k' => (negb (Ascii.eqb c "/") && valid_name k')%bool
  end.

Fixpoint distinct (l : list string) : bool :=
  match l with
  | [] => true
  | k :: l' => (negb (Str.mem k l') && distinct l')%bool
  end.

(** A package directory the copy handles without surprise: a real
    directory, each name once, no link outside its [.git]. *)
Definition tidy_package (n : node) : bool :=
  match n with
  | Dir src => (distinct (map fst src) && links_free (Dir (remove_entry ".git" src)))%bool
  | File _ => true
  | Symlink _ => false
  end.

(** The packages directory: each name once, none of them [.git] or with
    a slash in it, every package tidy. *)
Definition tidy_packages (pk : entries_t) : bool :=
  (distinct (map fst pk) &&
   forallb (fun e => valid_name (fst e) && negb (fst e =? ".git") &&
                     tidy_package (snd e))%bool pk)%bool.

(** The list [packages] when the packages directory holds [pk]. *)
Definition packages_of (pk : entries_t) : list string :=
  filter (fun k => match assoc k pk with
                   | Some (Dir _) => negb (reserved k)
                   | _ => false
                   end)
         (listing GNU_ELPA_PACKAGES_SUBDIR pk).

(** The mirrors of a run: one per package, and the mirror list. *)
Definition mirrors_of (pk : entries_t) : list string :=
  packages_of pk ++ ["gnu-elpa-mirror"].

(** What the mirror of [p] tracks once it is in step with [pk]. *)
Definition expected (pk : entries_t) (p : string) : entries_t :=
  if p =? "gnu-elpa-mirror" then listed (packages_of pk) []
  else match assoc p pk with
       | Some (Dir src) => package_tree (GNU_ELPA_PACKAGES_SUBDIR // p) src
       | _ => []
       end.

(** [repos] is a real directory none of whose entries is a link, or is
    not there yet. *)
Definition repos_ok (f : node) : bool :=
  match get f REPOS_SUBDIR with
  | Some (Dir rs) => forallb (fun e => negb (is_Symlink (snd e))) rs
  | Some _ => false
  | None => true
  end.

(** The working directory of a mirror: [repos/<name>]. *)
Definition under_repos (d : path) : bool :=
  match d with
  | [a; _] => a =? "repos"
  | _ => false
  end.

(** Every repository below [repos] was cloned from the URL of its name. *)
Definition urls_ok (ACCESS_TOKEN : string) (w : Git.world) : bool :=
  forallb (fun e =>
             match fst e with
             | [a; p] =>
                 if a =? "repos"
                 then Git.url (snd e) =? mirror_url ACCESS_TOKEN p
                 else true
             | _ => true
             end)
          (Git.locals w).

Definition is_mirror_url (ACCESS_TOKEN u : string) : bool :=
  String.prefix ("https://raxod502:" ++ ACCESS_TOKEN ++ "@github.com/emacs-straight/") u.

(** Between [s] and [s'] nothing happened to the mirrors: the same
    files below [repos], the same repositories there, the same remotes
    behind them, the same repositories on GitHub, the same Git. *)
Definition mirrors_agree (ACCESS_TOKEN : string) (s s' : state Git.world) : Prop :=
  get (fs s') REPOS_SUBDIR = get (fs s) REPOS_SUBDIR /\
  filter (fun e => under_repos (fst e)) (Git.locals (world s')) =
  filter (fun e => under_repos (fst e)) (Git.locals (world s)) /\
  filter (fun e => is_mirror_url ACCESS_TOKEN (fst e)) (Git.remotes (world s')) =
  filter (fun e => is_mirror_url ACCESS_TOKEN (fst e)) (Git.remotes (world s)) /\
  Git.hub (world s') = Git.hub (world s) /\
  Git.git (world s') = Git.git (world s).

(** The part of a run before the mirrors are looked at. *)
Definition upstream_part : M Git.world commit_data :=
  bind fetch_upstream (fun data => bind prepare_upstream (fun _ => ret data)).

(** A process that commits nothing: it is no commit, and if it is the
    staged-changes check it found nothing staged. *)
Definition commits_nothing (i : invocation) : Prop :=
  ~ is_commit i /\ (argv i = staged_check_cmd -> returncode i = 0%Z).

(** * Properties *)

Unset Implicit Arguments.

(** ** Lists of strings *)

Lemma mem_In x l : Str.mem x l = true <-> In x l.
Proof.
  unfold Str.mem. rewrite existsb_exists. split.
  - intros [y [Hy E]]. apply String.eqb_eq in E. now subst.
  - intros H. exists x. split; [assumption | apply String.eqb_refl].
Qed.

(** ** Sequencing *)

Section RunFacts.

Variable X : Type.
Context {O : Outside X}.

Local Open Scope prog_scope.

Lemma bind_ok A B (m : M X A) (k : A -> M X B) s a s' :
  m s = (Ok a, s') -> bind m k s = k a s'.
Proof. unfold bind. now intros ->. Qed.

Lemma bind_raise A B (m : M X A) (k : A -> M X B) s e s' :
  m s = (Raise e, s') -> bind m k s = (Raise e, s').
Proof. unfold bind. now intros ->. Qed.

Lemma started_app A (m : M X A) s dt :
  trace (final m s) = trace s ++ dt -> started m s = dt.
Proof.
  unfold started. intros ->.
  rewrite skipn_app, skipn_all, Nat.sub_diag. reflexivity.
Qed.

Lemma written_app A (m : M X A) s dl :
  stderr (final m s) = stderr s ++ dl -> written m s = dl.
Proof.
  unfold written. intros ->.
  rewrite skipn_app, skipn_all, Nat.sub_diag. reflexivity.
Qed.

Lemma emits_started A (m : M X A) s P :
  emits_at s m P -> P (started m s) (written m s) (raised (outcome m s)).
Proof.
  intros (dt & dl & Ht & Hl & HP).
  now rewrite (started_app _ m s dt Ht), (written_app _ m s dl Hl).
Qed.

Lemma emits_bind A B (m : M X A) (k : A -> M X B) P s :
  sequential P ->
  emits_at s m P ->
  (forall a s', m s = (Ok a, s') -> emits_at s' (k a) P) ->
  emits_at s (bind m k) P.
Proof.
  intros Hseq (d1 & l1 & Ht & Hl & HP) Hk.
  unfold emits_at, final, outcome in *.
  destruct (m s) as [[a | e] s1] eqn:E; simpl in *.
  - destruct (Hk a s1 eq_refl) as (d2 & l2 & Ht2 & Hl2 & HP2).
    rewrite (bind_ok _ _ m k _ _ _ E).
    exists (d1 ++ d2), (l1 ++ l2).
    rewrite Ht2, Hl2, Ht, Hl, <- !app_assoc. auto.
  - rewrite (bind_raise _ _ m k _ _ _ E). simpl. eauto.
Qed.

Lemma emits_silent A (m : M X A) P s :
  idle P -> silent m -> emits_at s m P.
Proof.
  intros Hidle Hm. destruct (Hm s) as [Ht Hl].
  exists [], []. rewrite !app_nil_r. auto.
Qed.

Lemma emits_log msg P s : idle P -> emits_at s (log (X:=X) msg) P.
Proof.
  intros Hidle. exists [], [msg]. simpl. rewrite app_nil_r. auto.
Qed.

Lemma emits_for_each A (body : A -> M X unit) P l :
  sequential P -> idle P ->
  (forall a s, In a l -> emits_at s (body a) P) ->
  forall s, emits_at s (for_each l body) P.
Proof.
  intros Hseq Hidle. induction l as [| a l IH]; intros Hb s.
  - exists [], []. simpl. rewrite !app_nil_r. auto.
  - simpl. apply emits_bind; [assumption | apply Hb; now left |].
    intros _ s' _. apply IH. intros b t Hin. apply Hb. now right.
Qed.

Lemma emits_if A (b : bool) (m1 m2 : M X A) P s :
  emits_at s m1 P -> emits_at s m2 P -> emits_at s (if b then m1 else m2) P.
Proof. now destruct b. Qed.

(** *** Statements that start no process *)

Lemma silent_ret A (a : A) : silent (ret (X:=X) a).
Proof. intros s. auto. Qed.

Lemma silent_raise A e : silent (raise (X:=X) (A:=A) e).
Proof. intros s. auto. Qed.

Lemma silent_bind A B (m : M X A) (k : A -> M X B) :
  silent m -> (forall a, silent (k a)) -> silent (bind m k).
Proof.
  intros Hm Hk s. unfold final, bind.
  specialize (Hm s). unfold final in Hm.
  destruct (m s) as [[a | e] s1]; simpl in *; [| assumption].
  destruct (Hk a s1) as [H1 H2]. unfold final in *.
  rewrite H1, H2. exact Hm.
Qed.

Lemma silent_catch A (m : M X A) (h : exn -> M X A) :
  silent m -> (forall e, silent (h e)) -> silent (catch m h).
Proof.
  intros Hm Hh s. unfold final, catch.
  specialize (Hm s). unfold final in Hm.
  destruct (m s) as [[a | e] s1]; simpl in *; [assumption |].
  destruct (Hh e s1) as [H1 H2]. unfold final in *.
  rewrite H1, H2. exact Hm.
Qed.

Lemma silent_for_each A (body : A -> M X unit) l :
  (forall a, silent (body a)) -> silent (for_each l body).
Proof.
  intros Hb. induction l; simpl.
  - apply silent_ret.
  - apply silent_bind; auto.
Qed.

Lemma silent_for_fold A B (body : A -> B -> M X B) l :
  (forall a acc, silent (body a acc)) -> forall acc, silent (for_fold l acc body).
Proof.
  intros Hb. induction l; simpl; intros acc.
  - apply silent_ret.
  - apply silent_bind; auto.
Qed.

Ltac silent_prim :=
  let s := fresh "s" in
  intros s; unfold final; simpl;
  repeat match goal with
         | |- context [match ?x with _ => _ end] => destruct x; simpl
         end; auto.

Lemma silent_is_dir p : silent (is_dir (X:=X) p).
Proof. silent_prim. Qed.

Lemma silent_is_symlink p : silent (is_symlink (X:=X) p).
Proof. silent_prim. Qed.

Lemma silent_iterdir p : silent (iterdir (X:=X) p).
Proof. unfold iterdir. silent_prim. Qed.

Lemma silent_rmtree p : silent (rmtree (X:=X) p).
Proof. unfold rmtree. silent_prim. Qed.

Lemma silent_unlink p : silent (unlink (X:=X) p).
Proof. unfold unlink. silent_prim. Qed.

Lemma silent_mkdir_exist_ok p : silent (mkdir_exist_ok (X:=X) p).
Proof. unfold mkdir_exist_ok. silent_prim. Qed.

Lemma silent_read_file p : silent (read_file (X:=X) p).
Proof. unfold read_file. silent_prim. Qed.

Lemma silent_write_file c p d : silent (write_file (X:=X) c p d).
Proof. unfold write_file. silent_prim. Qed.

Lemma silent_copyfile p q : silent (copyfile (X:=X) p q).
Proof. unfold copyfile. silent_prim. Qed.

Lemma silent_copytree p q : silent (copytree (X:=X) p q).
Proof. unfold copytree. silent_prim. Qed.

Lemma silent_github_call r : silent (github_call r).
Proof. unfold github_call. silent_prim. Qed.

Lemma silent_decode b : silent (decode (X:=X) b).
Proof. unfold decode. silent_prim. Qed.

Lemma silent_datetime_now : silent (datetime_now (X:=X)).
Proof. unfold datetime_now. silent_prim. Qed.

Lemma silent_delete_entry p : silent (delete_entry (X:=X) p).
Proof.
  unfold delete_entry. destruct (name p =? ".git")%string; [apply silent_ret |].
  apply silent_bind; [apply silent_is_dir | intros d].
  apply silent_bind; [apply silent_is_symlink | intros l].
  destruct (d && negb l)%bool; [apply silent_rmtree |].
  apply silent_catch; [apply silent_unlink |].
  intros []; try apply silent_raise. apply silent_ret.
Qed.

Lemma silent_delete_contents p : silent (delete_contents (X:=X) p).
Proof.
  unfold delete_contents. apply silent_bind; [apply silent_iterdir |].
  intros l. apply silent_for_each. apply silent_delete_entry.
Qed.

Lemma silent_copy_entry d p : silent (copy_entry (X:=X) d p).
Proof.
  unfold copy_entry. destruct (name p =? ".git")%string; [apply silent_ret |].
  apply silent_bind; [apply silent_is_dir | intros b].
  apply silent_bind; [apply silent_is_symlink | intros l].
  destruct (b && negb l)%bool; [apply silent_copytree | apply silent_copyfile].
Qed.

Lemma silent_copy_package p d : silent (copy_package (X:=X) p d).
Proof.
  unfold copy_package.
  apply silent_bind; [apply silent_delete_contents | intros _].
  apply silent_bind; [apply silent_iterdir | intros l].
  apply silent_for_each. apply silent_copy_entry.
Qed.

Lemma silent_write_mirror_list d l : silent (write_mirror_list (X:=X) d l).
Proof.
  unfold write_mirror_list.
  apply silent_bind; [apply silent_delete_contents | intros _].
  apply silent_for_each. intros a. apply silent_write_file.
Qed.

Lemma silent_enumerate_packages : silent (enumerate_packages (X:=X)).
Proof.
  unfold enumerate_packages.
  apply silent_bind; [apply silent_iterdir | intros l].
  apply silent_for_fold. intros a acc.
  apply silent_bind; [apply silent_is_dir | intros d].
  destruct (negb d); [apply silent_ret |].
  destruct (name a =? "gnu-elpa-mirror")%string; apply silent_ret.
Qed.

Lemma silent_patch_build_script : silent (patch_build_script (X:=X)).
Proof.
  unfold patch_build_script.
  apply silent_bind; [apply silent_read_file | intros c].
  apply silent_write_file.
Qed.

Lemma silent_create_repo t r d h : silent (create_repo t r d h).
Proof.
  unfold create_repo.
  apply silent_bind; [apply silent_github_call | intros _; apply silent_ret].
Qed.

End RunFacts.

(** ** Every process comes from a call site *)

Section SiteFacts.

Variable X : Type.
Context {O : Outside X}.

Local Open Scope prog_scope.

Variable P : delta_spec.
Hypothesis Pseq : sequential P.
Hypothesis Pidle : idle P.

Lemma emits_run cmd dir chk s :
  site_ok P (Run cmd dir chk) -> emits_at s (subprocess_run cmd dir chk) P.
Proof.
  intros Hsite. unfold emits_at, final, outcome, subprocess_run.
  destruct (match dir with Some d => negb (fs_is_dir (fs s) d) | None => false end).
  - exists [], []. simpl. rewrite !app_nil_r. auto.
  - destruct (spawn cmd dir (fs s) (world s)) as [[[rc out] f] w].
    exists [Invocation cmd dir chk rc out], []. rewrite app_nil_r.
    specialize (Hsite rc out).
    destruct (chk && negb (rc =? 0)%Z)%bool; simpl; auto.
Qed.

Lemma emits_run_unit cmd dir chk s :
  site_ok P (Run cmd dir chk) ->
  emits_at s (subprocess_run cmd dir chk ;; ret tt) P.
Proof.
  intros Hsite. apply emits_bind; [assumption | now apply emits_run |].
  intros. apply emits_silent; [assumption | apply silent_ret].
Qed.

Lemma emits_clone git_url repo_dir shallow all_branches private_url s :
  site_ok P (Clone git_url repo_dir shallow all_branches private_url) ->
  emits_at s
    (catch (subprocess_run (clone_cmd git_url repo_dir shallow all_branches) None true ;;
            ret tt)
       (fun e =>
          match e with
          | CalledProcessError _ _ =>
              if private_url then die clone_failed_message else raise e
          | _ => raise e
          end)) P.
Proof.
  intros Hsite. unfold emits_at, final, outcome, catch, bind, subprocess_run.
  cbv beta iota.
  destruct (spawn (clone_cmd git_url repo_dir shallow all_branches) None (fs s) (world s))
    as [[[rc out] f] w].
  specialize (Hsite rc out). cbv zeta in Hsite.
  destruct (rc =? 0)%Z; simpl.
  - eexists _, []. split; [reflexivity |]. rewrite app_nil_r. auto.
  - destruct private_url; simpl.
    + eexists _, _. eauto.
    + eexists _, []. split; [reflexivity |]. rewrite app_nil_r. auto.
Qed.

Lemma emits_clone_git_repo git_url repo_dir shallow all_branches private_url s :
  site_ok P (Clone git_url repo_dir shallow all_branches private_url) ->
  site_ok P (Run ["git"; "symbolic-ref"; "HEAD"] (Some repo_dir) true) ->
  site_ok P (Run ["git"; "fetch"] (Some repo_dir) true) ->
  (forall b, site_ok P (Run ["git"; "show-ref"; remote_ref b] (Some repo_dir) false)) ->
  (forall b, site_ok P (Run ["git"; "reset"; "--hard"; remote_ref b] (Some repo_dir) true)) ->
  emits_at s (clone_git_repo git_url repo_dir shallow all_branches private_url) P.
Proof.
  intros Hclone Hsym Hfetch Hshow Hreset. unfold clone_git_repo.
  apply emits_bind; [assumption | apply emits_silent; [assumption | apply silent_is_dir] |].
  intros d s1 _. destruct (negb d).
  - now apply emits_clone.
  - apply emits_bind; [assumption | now apply emits_run |]. intros r1 s2 _.
    apply emits_bind;
      [assumption | apply emits_silent; [assumption | apply silent_decode] |].
    intros text s2' _.
    apply emits_bind; [assumption | now apply emits_run |]. intros _ s3 _.
    apply emits_bind; [assumption | apply emits_run, Hshow |]. intros r2 s4 _.
    destruct (returncode r2 =? 0)%Z.
    + apply emits_run_unit, Hreset.
    + apply emits_silent; [assumption | apply silent_ret].
Qed.

Lemma emits_stage_and_commit repo_dir message data s :
  site_ok P (Run ["git"; "add"; "--all"; "--force"] (Some repo_dir) true) ->
  site_ok P (Run staged_check_cmd (Some repo_dir) false) ->
  site_ok P (Run (commit_cmd message data) (Some repo_dir) true) ->
  emits_at s (stage_and_commit repo_dir message data) P.
Proof.
  intros Hadd Hdiff Hcommit. unfold stage_and_commit.
  apply emits_bind; [assumption | now apply emits_run |]. intros _ s1 _.
  apply emits_bind; [assumption | now apply emits_run |]. intros r s2 _.
  destruct (negb (returncode r =? 0)%Z).
  - now apply emits_run_unit.
  - now apply emits_log.
Qed.

Variable ACCESS_TOKEN : string.
Variable args : list string.
Variable data : commit_data.
Hypothesis Psites : forall c, sites ACCESS_TOKEN args data c -> site_ok P c.

Lemma emits_cloned u d sh ab pr s :
  cloned ACCESS_TOKEN u d sh ab pr -> emits_at s (clone_git_repo u d sh ab pr) P.
Proof.
  intros H. apply emits_clone_git_repo; intros; apply Psites.
  - now apply site_clone.
  - eapply site_symbolic_ref; eassumption.
  - eapply site_fetch; eassumption.
  - eapply site_show_ref; eassumption.
  - eapply site_reset; eassumption.
Qed.

Lemma emits_committed d m s :
  committed d m -> emits_at s (stage_and_commit d m data) P.
Proof.
  intros H. apply emits_stage_and_commit; apply Psites.
  - eapply site_add; eassumption.
  - eapply site_diff; eassumption.
  - eapply site_commit; eassumption.
Qed.

Ltac step :=
  first
    [ apply emits_log; assumption
    | apply emits_bind; [assumption | | intros ? ? _] ].

Ltac quiet := apply emits_silent; [assumption |].

Lemma emits_fetch_upstream (s : state X) : emits_at s (fetch_upstream (X:=X)) P.
Proof.
  unfold fetch_upstream.
  step; [step |]. step; [apply emits_cloned; constructor |].
  step; [step |]. step; [apply emits_cloned; constructor |].
  step; [step |]. step; [quiet; apply silent_datetime_now |].
  step; [apply emits_run, Psites; constructor |].
  step; [quiet; apply silent_decode |].
  step; [apply emits_run, Psites; constructor |].
  step; [quiet; apply silent_decode |].
  quiet. apply silent_ret.
Qed.

Lemma emits_clone_mirror existing_repos package s :
  emits_at s (clone_mirror ACCESS_TOKEN args existing_repos package) P.
Proof.
  unfold clone_mirror.
  step.
  - destruct (negb (Str.mem package existing_repos)).
    + step; [step |]. quiet. apply silent_create_repo.
    + quiet. apply silent_ret.
  - step; [quiet; apply silent_is_dir |].
    destruct (Str.mem "--skip-mirror-pulls" args && _)%bool.
    + quiet. apply silent_ret.
    + step; [step |]. apply emits_cloned. constructor.
Qed.

Lemma emits_update_package package s :
  emits_at s (update_package data package) P.
Proof.
  unfold update_package.
  step; [step |]. step; [quiet; apply silent_copy_package |].
  apply emits_committed. constructor.
Qed.

Lemma emits_publish existing_repos packages s :
  emits_at s (publish ACCESS_TOKEN args existing_repos packages data) P.
Proof.
  unfold publish, publish_list.
  step.
  - destruct (Str.mem "--skip-mirror-pushes" args) eqn:E; simpl.
    + quiet. apply silent_ret.
    + step; [step |]. apply emits_for_each; try assumption.
      intros package t _. unfold push_package.
      step; [step |]. apply emits_run_unit, Psites. now constructor.
  - step.
    + destruct (negb (Str.mem "gnu-elpa-mirror" existing_repos)).
      * step; [step |]. quiet. apply silent_create_repo.
      * quiet. apply silent_ret.
    + step; [step |]. step; [apply emits_cloned; constructor |].
      step; [step |]. step; [quiet; apply silent_write_mirror_list |].
      step; [apply emits_committed; constructor |].
      step; [step |]. apply emits_run_unit, Psites. apply site_push_list.
Qed.

Lemma emits_prepare_upstream (s : state X) : emits_at s prepare_upstream P.
Proof.
  unfold prepare_upstream.
  step; [step |]. step; [apply emits_run, Psites; constructor |].
  step; [quiet; apply silent_patch_build_script |].
  step; [step |]. apply emits_run_unit, Psites. constructor.
Qed.

Lemma emits_sync_mirrors s : emits_at s (sync_mirrors ACCESS_TOKEN args data) P.
Proof.
  unfold sync_mirrors.
  step; [step |]. step; [quiet; apply silent_github_call |].
  step; [quiet; apply silent_enumerate_packages |].
  step; [step |]. step; [quiet; apply silent_github_call |].
  step; [quiet; apply silent_mkdir_exist_ok |].
  step; [apply emits_for_each; try assumption; intros; apply emits_clone_mirror |].
  step; [step |].
  step; [apply emits_for_each; try assumption; intros; apply emits_update_package |].
  apply emits_publish.
Qed.

Lemma emits_mirror_from s : emits_at s (mirror_from ACCESS_TOKEN args data) P.
Proof.
  unfold mirror_from.
  step; [apply emits_prepare_upstream | apply emits_sync_mirrors].
Qed.

End SiteFacts.

Section MirrorSites.

Variable X : Type.
Context {O : Outside X}.

(** Each process a run starts comes from a call site of [sites], for
    the commit data of that run: whatever holds at every call site and
    survives sequencing holds of the run. *)
Lemma mirror_sites ACCESS_TOKEN args (s : state X) P :
  sequential P -> idle P ->
  (forall c, sites ACCESS_TOKEN args (commit_data_of s) c -> site_ok P c) ->
  emits_at s (mirror ACCESS_TOKEN args) P.
Proof.
  intros Hseq Hidle Hsites. unfold mirror.
  apply emits_bind; [assumption | |].
  - now apply emits_fetch_upstream
      with (ACCESS_TOKEN := ACCESS_TOKEN) (args := args) (data := commit_data_of s).
  - intros a s' Ea.
    assert (commit_data_of s = a) as <-
        by (unfold commit_data_of, outcome; now rewrite Ea).
    now apply emits_mirror_from.
Qed.

End MirrorSites.

(** ** Directories as association lists *)

Lemma assoc_remove_eq k es : assoc k (remove_entry k es) = None.
Proof.
  induction es as [| [k' n] es IH]; simpl; [reflexivity |].
  destruct (String.eqb_spec k' k); simpl; [assumption |].
  now destruct (String.eqb_spec k' k).
Qed.

Lemma assoc_remove_neq k k' es : k <> k' -> assoc k' (remove_entry k es) = assoc k' es.
Proof.
  intros Hne. induction es as [| [k0 n] es IH]; simpl; [reflexivity |].
  destruct (String.eqb_spec k0 k) as [-> | Hk]; simpl.
  - destruct (String.eqb_spec k k'); [contradiction | assumption].
  - destruct (String.eqb_spec k0 k'); [reflexivity | assumption].
Qed.

Lemma assoc_set_eq k v es : assoc k (set_entry k v es) = v.
Proof.
  destruct v as [n |]; simpl.
  - now rewrite String.eqb_refl.
  - apply assoc_remove_eq.
Qed.

Lemma assoc_set_neq k k' v es : k <> k' -> assoc k' (set_entry k v es) = assoc k' es.
Proof.
  intros Hne. destruct v as [n |]; simpl.
  - destruct (String.eqb_spec k k'); [contradiction | now apply assoc_remove_neq].
  - now apply assoc_remove_neq.
Qed.

Lemma assoc_In k n es : assoc k es = Some n -> In (k, n) es.
Proof.
  induction es as [| [k' m] es IH]; simpl; [discriminate |].
  destruct (String.eqb_spec k' k) as [-> | Hk].
  - intros [= ->]. now left.
  - intros H. right. now apply IH.
Qed.

Lemma assoc_None k es : assoc k es = None <-> ~ In k (map fst es).
Proof.
  induction es as [| [k' m] es IH]; simpl; [tauto |].
  destruct (String.eqb_spec k' k) as [-> | Hk].
  - split; [discriminate | intros H; elim H; now left].
  - rewrite IH. tauto.
Qed.

Lemma assoc_filter (keep : string -> bool) k es :
  assoc k (filter (fun e => keep (fst e)) es) = if keep k then assoc k es else None.
Proof.
  induction es as [| [k' m] es IH]; simpl; [now destruct (keep k) |].
  destruct (keep k') eqn:Ek'; simpl.
  - destruct (String.eqb_spec k' k) as [-> | Hk]; [now rewrite Ek' | assumption].
  - destruct (String.eqb_spec k' k) as [-> | Hk]; [now rewrite IH, Ek' | assumption].
Qed.

(** ** Reading and writing below real directories *)

Lemma get_app root p q :
  get root (p ++ q) = match get root p with Some n => get n q | None => None end.
Proof.
  revert root. induction p as [| c p IH]; intros root; simpl; [reflexivity |].
  destruct root as [d | t | es]; try reflexivity.
  destruct (assoc c es); [apply IH | reflexivity].
Qed.

Lemma get_child root d cur k :
  get root d = Some (Dir cur) -> get root (d // k) = assoc k cur.
Proof.
  intros H. unfold div. rewrite get_app, H. simpl. now destruct (assoc k cur).
Qed.

Lemma put_cons es c p v :
  p <> [] ->
  put (Dir es) (c :: p) v =
  match assoc c es with
  | Some m => Dir (set_entry c (Some (put m p v)) es)
  | None => Dir es
  end.
Proof. intros Hp. destruct p; [now elim Hp | reflexivity]. Qed.

Lemma get_put_child root d cur k v :
  get root d = Some (Dir cur) ->
  get (put root (d // k) v) d = Some (Dir (set_entry k v cur)).
Proof.
  revert root. induction d as [| c d IH]; intros root H.
  - simpl in H. injection H as ->. reflexivity.
  - destruct root as [x | t | es]; simpl in H; try discriminate.
    destruct (assoc c es) as [m |] eqn:Ec; [| discriminate].
    change ((c :: d) // k) with (c :: (d // k)).
    rewrite put_cons by (unfold div; now destruct d).
    rewrite Ec. simpl. rewrite String.eqb_refl. now apply IH.
Qed.

Lemma get_cons es c p :
  get (Dir es) (c :: p) = match assoc c es with Some m => get m p | None => None end.
Proof. reflexivity. Qed.

Lemma get_put_apart root p q v :
  apart p q = true -> get (put root p v) q = get root q.
Proof.
  revert root q. induction p as [| a p IH]; intros root q H; [discriminate |].
  destruct q as [| b q]; [discriminate |]. simpl in H.
  destruct root as [x | t | es]; try reflexivity.
  destruct p as [| a' p'].
  - destruct (String.eqb_spec a b) as [-> | Hab]; [discriminate |].
    change (put (Dir es) [a] v) with (Dir (set_entry a v es)).
    now rewrite !get_cons, assoc_set_neq.
  - rewrite put_cons by discriminate.
    destruct (assoc a es) as [m |] eqn:Ea; [| reflexivity].
    rewrite !get_cons.
    destruct (String.eqb_spec a b) as [-> | Hab].
    + rewrite assoc_set_eq, Ea. now apply IH.
    + now rewrite assoc_set_neq.
Qed.

Lemma apart_app_r p q r : apart p q = true -> apart p (q ++ r) = true.
Proof.
  revert q. induction p as [| a p IH]; intros q H; [discriminate |].
  destruct q as [| b q]; [discriminate |]. simpl in *.
  destruct (String.eqb a b); [now apply IH | reflexivity].
Qed.

Lemma apart_app_l p q r : apart p q = true -> apart (p ++ r) q = true.
Proof.
  revert q. induction p as [| a p IH]; intros q H; [discriminate |].
  destruct q as [| b q]; [discriminate |]. simpl in *.
  destruct (String.eqb a b); [now apply IH | reflexivity].
Qed.

Lemma apart_sym p q : apart p q = apart q p.
Proof.
  revert q. induction p as [| a p IH]; intros [| b q]; simpl; try reflexivity.
  rewrite (String.eqb_sym b a). destruct (String.eqb a b); [apply IH | reflexivity].
Qed.

Lemma apart_siblings d k k' : k <> k' -> apart (d // k) (d // k') = true.
Proof.
  intros Hne. unfold div. induction d as [| c d IH]; simpl.
  - now destruct (String.eqb_spec k k').
  - now rewrite String.eqb_refl.
Qed.

Lemma name_div d k : name (d // k) = k.
Proof. unfold name, div. apply last_last. Qed.

(** ** Resolving a path that meets no link *)

Lemma walk_get fuel root follow rest :
  forall pre n,
    get root (pre ++ rest) = Some n ->
    (follow = false \/ is_Symlink n = false) ->
    walk fuel root follow pre rest = Some (pre ++ rest, Some n).
Proof.
  destruct fuel as [| fuel]; simpl;
    (induction rest as [| c r IH]; intros pre n Hget Hn;
     [ rewrite app_nil_r in *; now rewrite Hget |]);
    (assert (Hc : exists m, get root (pre // c) = Some m /\ get m r = Some n)
       by (change (pre ++ c :: r) with (pre ++ [c] ++ r) in Hget;
           rewrite app_assoc, get_app in Hget; unfold div;
           destruct (get root (pre ++ [c])) as [m |]; [eauto | discriminate]);
     destruct Hc as (m & Hm & Hr); rewrite Hm;
     change (pre ++ c :: r) with (pre ++ [c] ++ r) in *; rewrite app_assoc in *;
     destruct m as [x | t | es];
     [ destruct r; [| discriminate]; injection Hr as <-;
       specialize (IH (pre // c) (File x)); unfold div in *; now apply IH
     | destruct r; [| discriminate]; injection Hr as <-;
       destruct Hn as [-> | Hn]; [| discriminate]; simpl;
       unfold div; now rewrite app_nil_r
     | specialize (IH (pre // c) n); unfold div in *; now apply IH ]).
Qed.

Lemma walk_missing fuel root follow d cur k :
  get root d = Some (Dir cur) -> assoc k cur = None ->
  walk fuel root follow [] (d // k) = Some (d // k, None).
Proof.
  intros Hd Hk.
  assert (Hgen : forall rest pre,
             get root (pre ++ rest) = Some (Dir cur) ->
             walk fuel root follow pre (rest // k) = Some ((pre ++ rest) // k, None)).
  { destruct fuel as [| fuel]; simpl;
      (induction rest as [| c r IH]; intros pre Hget;
       [ rewrite app_nil_r in *; simpl;
         rewrite (get_child _ _ _ k Hget), Hk, Hget; reflexivity |]);
      (assert (Hc : exists m, get root (pre // c) = Some m /\ get m r = Some (Dir cur))
         by (change (pre ++ c :: r) with (pre ++ [c] ++ r) in Hget;
             rewrite app_assoc, get_app in Hget; unfold div;
             destruct (get root (pre ++ [c])) as [m |]; [eauto | discriminate]);
       destruct Hc as (m & Hm & Hr); simpl; rewrite Hm;
       change (pre ++ c :: r) with (pre ++ [c] ++ r) in *; rewrite app_assoc in *;
       destruct m as [x | t | es];
       [ destruct r; discriminate
       | destruct r; discriminate
       | change ((c :: r) // k) with (c :: (r // k));
         specialize (IH (pre // c)); unfold div in *; simpl; now apply IH ]). }
  apply (Hgen d []). exact Hd.
Qed.


Lemma lstat_child root d cur k :
  get root d = Some (Dir cur) -> lstat root (d // k) = Some (d // k, assoc k cur).
Proof.
  intros Hd. unfold lstat. destruct (assoc k cur) as [n |] eqn:Ek.
  - apply (walk_get _ _ _ (d // k) [] n); [| now left].
    simpl. now rewrite (get_child _ _ _ k Hd).
  - now apply walk_missing with (cur := cur).
Qed.

Lemma stat_child root d cur k :
  get root d = Some (Dir cur) ->
  (forall t, assoc k cur <> Some (Symlink t)) ->
  stat root (d // k) = Some (d // k, assoc k cur).
Proof.
  intros Hd Hl. unfold stat. destruct (assoc k cur) as [n |] eqn:Ek.
  - apply (walk_get _ _ _ (d // k) [] n).
    + simpl. now rewrite (get_child _ _ _ k Hd).
    + right. destruct n; try reflexivity. now elim (Hl target).
  - now apply walk_missing with (cur := cur).
Qed.

Lemma stat_dir root d cur :
  get root d = Some (Dir cur) -> stat root d = Some (d, Some (Dir cur)).
Proof.
  intros Hd. unfold stat. apply (walk_get _ _ _ d [] (Dir cur)); [assumption | now right].
Qed.

(** Below a real directory nothing is in the way. *)
Lemma blocked_from_dir root k rest :
  forall pre cur,
    get root (pre ++ rest) = Some (Dir cur) ->
    blocked_from root pre (rest // k) = false.
Proof.
  induction rest as [| c r IH]; intros pre cur Hget.
  - rewrite app_nil_r in Hget. cbn [div app blocked_from].
    now rewrite (stat_dir _ _ _ Hget).
  - change ((c :: r) // k) with (c :: (r // k)). cbn [blocked_from].
    assert (Hpre : exists es, get root pre = Some (Dir es)).
    { rewrite get_app in Hget. destruct (get root pre) as [[x | t | es] |];
        try discriminate; eauto. }
    destruct Hpre as (es & Hpre). rewrite (stat_dir _ _ _ Hpre). cbn [orb].
    apply (IH (pre // c) cur). unfold div. now rewrite <- app_assoc.
Qed.

Lemma missing_error_child root d cur k :
  get root d = Some (Dir cur) -> missing_error root (d // k) = FileNotFoundError (d // k).
Proof.
  intros Hd. unfold missing_error, blocked.
  now rewrite (blocked_from_dir root k d [] cur Hd).
Qed.

Lemma fs_is_symlink_child root d cur k :
  get root d = Some (Dir cur) ->
  fs_is_symlink root (d // k) =
  match assoc k cur with Some (Symlink _) => true | _ => false end.
Proof. intros Hd. unfold fs_is_symlink. now rewrite (lstat_child _ _ _ k Hd). Qed.

Lemma fs_is_dir_child root d cur k :
  get root d = Some (Dir cur) ->
  (forall t, assoc k cur <> Some (Symlink t)) ->
  fs_is_dir root (d // k) =
  match assoc k cur with Some (Dir _) => true | _ => false end.
Proof. intros Hd Hl. unfold fs_is_dir. now rewrite (stat_child _ _ _ k Hd Hl). Qed.

Lemma remove_entry_absent k es : assoc k es = None -> remove_entry k es = es.
Proof.
  induction es as [| [k' n] es IH]; simpl; [reflexivity |].
  destruct (String.eqb_spec k' k); [discriminate |].
  intros H. simpl. now rewrite IH.
Qed.

Lemma untouched_refl d f : untouched_outside d f f.
Proof. now intros q _. Qed.

Lemma untouched_trans d f g h :
  untouched_outside d f g -> untouched_outside d g h -> untouched_outside d f h.
Proof. intros H1 H2 q Hq. now rewrite (H2 q Hq), (H1 q Hq). Qed.

Lemma untouched_put_child d k v f : untouched_outside d f (put f (d // k) v).
Proof. intros q Hq. apply get_put_apart. now apply apart_app_l. Qed.

Section FileSteps.

Variable X : Type.

Lemma only_files_refl (s : state X) : only_files_changed s s.
Proof. now repeat split. Qed.

Lemma only_files_set_fs (s : state X) f : only_files_changed s (set_fs s f).
Proof. now repeat split. Qed.

Lemma only_files_trans (s t u : state X) :
  only_files_changed s t -> only_files_changed t u -> only_files_changed s u.
Proof.
  intros (A & B & C) (A' & B' & C'). repeat split; congruence.
Qed.

Lemma dir_step_put (s : state X) d cur k v :
  get (fs s) d = Some (Dir cur) ->
  dir_step d (set_entry k v cur) s (set_fs s (put (fs s) (d // k) v)).
Proof.
  intros Hd. split; [| split].
  - simpl. now apply get_put_child.
  - simpl. apply untouched_put_child.
  - apply only_files_set_fs.
Qed.

Lemma dir_step_same (s : state X) d cur :
  get (fs s) d = Some (Dir cur) -> dir_step d cur s s.
Proof.
  intros Hd. split; [assumption | split; [apply untouched_refl | apply only_files_refl]].
Qed.

Lemma dir_step_trans d cur' cur'' (s t u : state X) :
  dir_step d cur' s t -> dir_step d cur'' t u -> dir_step d cur'' s u.
Proof.
  intros (_ & B & C) (A' & B' & C'). split; [assumption | split].
  - eapply untouched_trans; eassumption.
  - eapply only_files_trans; eassumption.
Qed.

Lemma delete_entry_child (s : state X) d cur k :
  get (fs s) d = Some (Dir cur) ->
  exists s',
    delete_entry (d // k) s = (Ok tt, s') /\
    dir_step d (if k =? ".git" then cur else remove_entry k cur)%string s s'.
Proof.
  intros Hd. unfold delete_entry. rewrite name_div.
  destruct (k =? ".git")%string.
  { exists s. split; [reflexivity | now apply dir_step_same]. }
  unfold bind, is_dir, is_symlink, catch.
  rewrite (fs_is_symlink_child _ _ _ k Hd).
  destruct (assoc k cur) as [[x | t | sub] |] eqn:Ek.
  - rewrite (fs_is_dir_child _ _ _ k Hd) by (rewrite Ek; discriminate).
    rewrite Ek. simpl. unfold unlink. rewrite (lstat_child _ _ _ k Hd), Ek.
    eexists. split; [reflexivity |]. now apply (dir_step_put s d cur k None).
  - rewrite Bool.andb_false_r. unfold unlink. rewrite (lstat_child _ _ _ k Hd), Ek.
    eexists. split; [reflexivity |]. now apply (dir_step_put s d cur k None).
  - rewrite (fs_is_dir_child _ _ _ k Hd) by (rewrite Ek; discriminate).
    rewrite Ek. simpl. unfold rmtree. rewrite (lstat_child _ _ _ k Hd), Ek.
    eexists. split; [reflexivity |]. now apply (dir_step_put s d cur k None).
  - rewrite (fs_is_dir_child _ _ _ k Hd) by (rewrite Ek; discriminate).
    rewrite Ek. simpl. unfold unlink. rewrite (lstat_child _ _ _ k Hd), Ek.
    rewrite (missing_error_child _ _ _ k Hd).
    exists s. split; [reflexivity |].
    rewrite (remove_entry_absent _ _ Ek). now apply dir_step_same.
Qed.

End FileSteps.

Lemma filter_filter {A} (f g : A -> bool) l :
  filter f (filter g l) = filter (fun x => (g x && f x)%bool) l.
Proof.
  induction l as [| a l IH]; simpl; [reflexivity |].
  destruct (g a); simpl; [destruct (f a) |]; now rewrite IH.
Qed.

(** ** Sorting lists of paths *)

Lemma insert_sorted_perm p l : Permutation (p :: l) (insert_sorted p l).
Proof.
  induction l as [| q l IH]; simpl; [reflexivity |].
  destruct (path_leb p q); [reflexivity |].
  rewrite perm_swap. now apply perm_skip.
Qed.

Lemma sorted_perm l : Permutation l (sorted l).
Proof.
  induction l as [| p l IH]; simpl; [reflexivity |].
  rewrite <- insert_sorted_perm. now apply perm_skip.
Qed.

Lemma sorted_children d names :
  exists names',
    names' = map name (sorted (map (div d) names)) /\
    sorted (map (div d) names) = map (div d) names' /\ Permutation names names'.
Proof.
  destruct (Permutation_map_inv (div d) names (Permutation_sym (sorted_perm (map (div d) names))))
    as (names' & E & HP).
  exists names'. split; [| split; assumption].
  rewrite E, map_map. rewrite <- (map_id names') at 1.
  apply map_ext. intros k. symmetry. apply name_div.
Qed.

Lemma remove_entry_comm a b es :
  remove_entry a (remove_entry b es) = remove_entry b (remove_entry a es).
Proof.
  unfold remove_entry. rewrite !filter_filter. apply filter_ext.
  intros e. apply Bool.andb_comm.
Qed.

Lemma remove_dot_git_kept es : remove_entry ".git" (filter is_dot_git es) = [].
Proof.
  unfold remove_entry. rewrite filter_filter.
  induction es as [| [k n] es IH]; simpl; [reflexivity |].
  unfold is_dot_git at 1. simpl. destruct (k =? ".git")%string; simpl; assumption.
Qed.

Lemma remove_dot_git_set k v es :
  k <> ".git" ->
  remove_entry ".git" (set_entry k (Some v) es) =
  (k, v) :: remove_entry k (remove_entry ".git" es).
Proof.
  intros Hk. simpl. rewrite (proj2 (String.eqb_neq k ".git") Hk). simpl.
  f_equal. apply remove_entry_comm.
Qed.

Lemma mem_cons x k l : Str.mem x (k :: l) = ((x =? k)%string || Str.mem x l)%bool.
Proof. reflexivity. Qed.

Lemma mem_false x l : Str.mem x l = false <-> ~ In x l.
Proof.
  rewrite <- mem_In. destruct (Str.mem x l); split; intros H; try reflexivity;
    try discriminate; try (intros H'; discriminate). now elim H.
Qed.


Section DeleteContents.

Variable X : Type.

Lemma delete_loop d names :
  forall (s : state X) cur,
    get (fs s) d = Some (Dir cur) ->
    exists s',
      for_each (map (div d) names) delete_entry s = (Ok tt, s') /\
      dir_step d (filter (survives names) cur) s s'.
Proof.
  induction names as [| k names IH]; intros s cur Hd.
  - exists s. split; [reflexivity |].
    replace (filter (survives []) cur) with cur.
    + now apply dir_step_same with (cur := cur).
    + symmetry. apply forallb_filter_id. apply forallb_forall. intros e _.
      unfold survives. simpl. apply Bool.orb_true_r.
  - destruct (delete_entry_child X s d cur k Hd) as (s1 & E1 & H1).
    destruct H1 as (Hd1 & Hout1 & Hsame1).
    destruct (IH s1 _ Hd1) as (s2 & E2 & H2).
    exists s2. split.
    + simpl. unfold bind at 1. now rewrite E1.
    + assert (Hf : filter (survives names)
                     (if (k =? ".git")%string then cur else remove_entry k cur) =
                   filter (survives (k :: names)) cur).
      { destruct (String.eqb_spec k ".git") as [-> | Hk].
        - apply filter_ext. intros [k' n]. unfold survives, is_dot_git. simpl.
          destruct (String.eqb_spec k' ".git"); [reflexivity |].
          simpl. now destruct (String.eqb_spec k' ".git").
        - unfold remove_entry. rewrite filter_filter. apply filter_ext.
          intros [k' n]. unfold survives, is_dot_git. simpl.
          destruct (String.eqb_spec k' k) as [-> | Hk'].
          + simpl. destruct (String.eqb_spec k ".git"); [contradiction | reflexivity].
          + reflexivity. }
      rewrite <- Hf.
      apply dir_step_trans with (X := X) (cur' := if (k =? ".git")%string then cur else remove_entry k cur)
                                (t := s1); [| assumption].
      exact (conj Hd1 (conj Hout1 Hsame1)).
Qed.

(** [delete_contents] on a real directory: it ends normally, only the
    entries named [.git] are left, and nothing apart from the directory
    is touched. *)
Lemma delete_contents_spec (s : state X) d cur :
  get (fs s) d = Some (Dir cur) ->
  exists s',
    delete_contents d s = (Ok tt, s') /\
    dir_step d (filter is_dot_git cur) s s'.
Proof.
  intros Hd. unfold delete_contents, bind at 1, iterdir.
  rewrite (stat_dir _ _ _ Hd).
  rewrite <- map_map.
  destruct (sorted_children d (map fst cur)) as (names & _ & -> & HP).
  destruct (delete_loop d names s cur Hd) as (s' & E & H).
  exists s'. split; [assumption |].
  replace (filter is_dot_git cur) with (filter (survives names) cur); [assumption |].
  apply filter_ext_in. intros e He. unfold survives.
  assert (Hin : Str.mem (fst e) names = true).
  { apply mem_In. apply (Permutation_in _ HP). now apply in_map. }
  rewrite Hin. simpl. apply Bool.orb_false_r.
Qed.

End DeleteContents.

(** ** Trees without links are copied as they are *)

Lemma node_induction (P : node -> Prop) :
  (forall d, P (File d)) ->
  (forall t, P (Symlink t)) ->
  (forall es, Forall (fun e => P (snd e)) es -> P (Dir es)) ->
  forall n, P n.
Proof.
  intros HF HS HD. fix IH 1. intros [d | t | es].
  - apply HF.
  - apply HS.
  - apply HD. induction es as [| [k m] es IHes]; constructor.
    + apply IH.
    + exact IHes.
Qed.

Lemma copy_image_Dir fuel root es :
  copy_image fuel root (Dir es) =
  let (img, ok) := copy_entries (copy_image fuel root) es in (Some (Dir img), ok).
Proof. destruct fuel; reflexivity. Qed.

Lemma copy_image_File fuel root d : copy_image fuel root (File d) = (Some (File d), true).
Proof. destruct fuel; reflexivity. Qed.

Lemma links_free_Dir k m es :
  links_free (Dir ((k, m) :: es)) = (links_free m && links_free (Dir es))%bool.
Proof. reflexivity. Qed.

Lemma copy_image_links_free fuel root n :
  links_free n = true -> copy_image fuel root n = (Some n, true).
Proof.
  induction n as [d | t | es IH] using node_induction; intros Hn.
  - apply copy_image_File.
  - discriminate.
  - rewrite copy_image_Dir.
    assert (E : copy_entries (copy_image fuel root) es = (es, true)).
    { induction es as [| [k m] es IHes]; [reflexivity |].
      rewrite links_free_Dir in Hn. apply Bool.andb_true_iff in Hn as [Hm Hes].
      inversion IH as [| e es' Hhead Htail]; subst. simpl in Hhead.
      simpl. rewrite (Hhead Hm), (IHes Htail Hes). reflexivity. }
    now rewrite E.
Qed.

Section WriteAndCopy.

Variable X : Type.

(** *** The loop that writes the mirror list *)

Lemma write_loop d packages :
  forall (s : state X) cur,
    get (fs s) d = Some (Dir cur) ->
    (forall k, In k packages ->
       assoc k cur = None \/ exists x, assoc k cur = Some (File x)) ->
    ~ In ".git" packages ->
    exists s' cur',
      for_each packages (fun package => write_file true (d // package) "") s = (Ok tt, s') /\
      dir_step d cur' s s' /\
      (forall k, assoc k cur' =
                 if Str.mem k packages then Some (File "") else assoc k cur) /\
      remove_entry ".git" cur' = listed packages (remove_entry ".git" cur).
Proof.
  induction packages as [| p packages IH]; intros s cur Hd Hfree Hgit.
  - exists s, cur. split; [reflexivity |]. split; [now apply dir_step_same |].
    split; reflexivity.
  - assert (E1 : write_file true (d // p) "" s =
                 (Ok tt, set_fs s (put (fs s) (d // p) (Some (File ""))))).
    { unfold write_file. rewrite (stat_child _ _ _ p Hd).
      - destruct (Hfree p (or_introl eq_refl)) as [-> | [x ->]]; reflexivity.
      - intros t Ht. destruct (Hfree p (or_introl eq_refl)) as [H | [x H]];
          rewrite H in Ht; discriminate. }
    pose proof (dir_step_put X s d cur p (Some (File "")) Hd) as H1.
    destruct H1 as (Hd1 & Hout1 & Hsame1).
    destruct (IH _ _ Hd1) as (s2 & cur2 & E2 & H2 & Hassoc & Htree).
    { intros k Hk. destruct (String.eqb_spec p k) as [<- | Hne].
      - right. exists "". apply assoc_set_eq.
      - rewrite assoc_set_neq by assumption. apply Hfree. now right. }
    { intros Hin. apply Hgit. now right. }
    exists s2, cur2. split; [| split; [| split]].
    + simpl. unfold bind at 1. now rewrite E1.
    + apply dir_step_trans with (X := X) (cur' := set_entry p (Some (File "")) cur)
                                (t := set_fs s (put (fs s) (d // p) (Some (File ""))));
        [exact (conj Hd1 (conj Hout1 Hsame1)) | assumption].
    + intros k. rewrite Hassoc, mem_cons.
      destruct (Str.mem k packages); [now rewrite Bool.orb_true_r |].
      rewrite Bool.orb_false_r.
      destruct (String.eqb_spec k p) as [-> | Hne].
      * apply assoc_set_eq.
      * apply assoc_set_neq. congruence.
    + rewrite Htree. rewrite remove_dot_git_set; [reflexivity |].
      intros ->. apply Hgit. now left.
Qed.

Lemma write_mirror_list_spec (s : state X) d cur packages :
  get (fs s) d = Some (Dir cur) ->
  ~ In ".git" packages ->
  exists s' cur',
    write_mirror_list d packages s = (Ok tt, s') /\
    dir_step d cur' s s' /\
    (forall k, assoc k cur' =
               if Str.mem k packages then Some (File "")
               else if (k =? ".git")%string then assoc k cur else None) /\
    remove_entry ".git" cur' = listed packages [].
Proof.
  intros Hd Hgit.
  destruct (delete_contents_spec X s d cur Hd) as (s1 & E1 & H1).
  destruct H1 as (Hd1 & Hout1 & Hsame1).
  assert (Hfiltered : forall k, assoc k (filter is_dot_git cur) =
                                if (k =? ".git")%string then assoc k cur else None).
  { intros k. unfold is_dot_git.
    now rewrite (assoc_filter (fun k => (k =? ".git")%string)). }
  destruct (write_loop d packages s1 _ Hd1) as (s2 & cur2 & E2 & H2 & Hassoc & Htree).
  { intros k Hk. left. rewrite Hfiltered.
    destruct (String.eqb_spec k ".git") as [-> | _]; [contradiction | reflexivity]. }
  { assumption. }
  exists s2, cur2. split; [| split; [| split]].
  - unfold write_mirror_list, bind at 1. now rewrite E1.
  - apply dir_step_trans with (X := X) (cur' := filter is_dot_git cur) (t := s1);
      [exact (conj Hd1 (conj Hout1 Hsame1)) | assumption].
  - intros k. now rewrite Hassoc, Hfiltered.
  - now rewrite Htree, remove_dot_git_kept.
Qed.

(** *** The loop that copies a package *)

Lemma copy_entry_child (s : state X) src dst src_es cur k n :
  get (fs s) src = Some (Dir src_es) ->
  get (fs s) dst = Some (Dir cur) ->
  assoc k src_es = Some n ->
  links_free n = true ->
  assoc k cur = None ->
  k <> ".git" ->
  copy_entry dst (src // k) s = (Ok tt, set_fs s (put (fs s) (dst // k) (Some n))).
Proof.
  intros Hsrc Hdst Hk Hn Hfree Hne. unfold copy_entry. rewrite name_div.
  destruct (String.eqb_spec k ".git"); [contradiction |].
  unfold bind, is_dir, is_symlink.
  rewrite (fs_is_symlink_child _ _ _ k Hsrc).
  rewrite (fs_is_dir_child _ _ _ k Hsrc)
    by (rewrite Hk; intros t [= ->]; discriminate).
  rewrite Hk.
  destruct n as [x | t | sub]; [| discriminate |]; simpl.
  - unfold copyfile.
    rewrite (stat_child _ _ _ k Hsrc) by (rewrite Hk; discriminate).
    rewrite Hk.
    rewrite (stat_child _ _ _ k Hdst) by (rewrite Hfree; discriminate).
    now rewrite Hfree.
  - unfold copytree.
    rewrite (stat_child _ _ _ k Hsrc) by (rewrite Hk; discriminate).
    rewrite Hk, (lstat_child _ _ _ k Hdst), Hfree.
    now rewrite (copy_image_links_free _ _ _ Hn).
Qed.

Lemma copy_loop src dst src_es names :
  apart dst src = true ->
  NoDup names ->
  (forall k, In k names -> k <> ".git" ->
     exists n, assoc k src_es = Some n /\ links_free n = true) ->
  forall (s : state X) cur,
    get (fs s) src = Some (Dir src_es) ->
    get (fs s) dst = Some (Dir cur) ->
    (forall k, In k names -> k <> ".git" -> assoc k cur = None) ->
    exists s' cur',
      for_each (map (div src) names) (copy_entry dst) s = (Ok tt, s') /\
      dir_step dst cur' s s' /\
      (forall k, assoc k cur' =
                 if (negb (k =? ".git")%string && Str.mem k names)%bool
                 then assoc k src_es else assoc k cur) /\
      remove_entry ".git" cur' = copied src_es names (remove_entry ".git" cur).
Proof.
  intros Hapart Hnodup. induction Hnodup as [| p names Hp Hnodup IH];
    intros Hsrc_ok s cur Hsrc Hdst Hfree.
  - exists s, cur. split; [reflexivity |]. split; [now apply dir_step_same |].
    split; [| reflexivity].
    intros k. now rewrite Bool.andb_false_r.
  - destruct (String.eqb_spec p ".git") as [-> | Hne].
    + (* the metadata directory is passed over *)
      destruct (IH (fun k Hk => Hsrc_ok k (or_intror Hk)) s cur Hsrc Hdst
                   (fun k Hk => Hfree k (or_intror Hk)))
        as (s' & cur' & E & Hstep & Hassoc & Htree).
      exists s', cur'. split; [| split; [assumption | split]].
      * simpl. unfold bind at 1. unfold copy_entry at 1. rewrite name_div. simpl.
        exact E.
      * intros k. rewrite Hassoc, mem_cons.
        destruct (String.eqb_spec k ".git") as [-> | Hk]; [reflexivity |].
        cbn [negb andb orb]. reflexivity.
      * exact Htree.
    + destruct (Hsrc_ok p (or_introl eq_refl) Hne) as (n & Hn & Hlf).
      pose proof (copy_entry_child s src dst src_es cur p n Hsrc Hdst Hn Hlf
                    (Hfree p (or_introl eq_refl) Hne) Hne) as E1.
      pose proof (dir_step_put X s dst cur p (Some n) Hdst) as H1.
      destruct H1 as (Hd1 & Hout1 & Hsame1).
      assert (Hsrc1 : get (fs (set_fs s (put (fs s) (dst // p) (Some n)))) src =
                      Some (Dir src_es))
        by (rewrite (Hout1 src Hapart); exact Hsrc).
      destruct (IH (fun k Hk => Hsrc_ok k (or_intror Hk)) _ _ Hsrc1 Hd1)
        as (s2 & cur2 & E2 & H2 & Hassoc & Htree).
      { intros k Hk Hkne. rewrite assoc_set_neq.
        - apply Hfree; [now right | assumption].
        - intros ->. contradiction. }
      exists s2, cur2. split; [| split; [| split]].
      * simpl. unfold bind at 1. now rewrite E1.
      * apply dir_step_trans with (X := X) (cur' := set_entry p (Some n) cur)
                                  (t := set_fs s (put (fs s) (dst // p) (Some n)));
          [exact (conj Hd1 (conj Hout1 Hsame1)) | assumption].
      * intros k. rewrite Hassoc, mem_cons.
        destruct (String.eqb_spec k ".git") as [-> | Hk]; cbn [negb andb orb].
        -- apply assoc_set_neq. assumption.
        -- destruct (Str.mem k names) eqn:Em; [now rewrite Bool.orb_true_r |].
           rewrite Bool.orb_false_r.
           destruct (String.eqb_spec k p) as [-> | Hkp].
           ++ now rewrite assoc_set_eq.
           ++ apply assoc_set_neq. congruence.
      * rewrite Htree, (remove_dot_git_set _ _ _ Hne). simpl.
        now rewrite (proj2 (String.eqb_neq p ".git") Hne), Hn.
Qed.

Lemma copy_package_spec (s : state X) src dst src_es dst_es :
  get (fs s) src = Some (Dir src_es) ->
  get (fs s) dst = Some (Dir dst_es) ->
  apart dst src = true ->
  NoDup (map fst src_es) ->
  (forall k n, assoc k src_es = Some n -> k <> ".git" -> links_free n = true) ->
  exists s' cur',
    copy_package src dst s = (Ok tt, s') /\
    dir_step dst cur' s s' /\
    (forall k, assoc k cur' = if (k =? ".git")%string then assoc k dst_es
                              else assoc k src_es) /\
    remove_entry ".git" cur' = package_tree src src_es.
Proof.
  intros Hsrc Hdst Hapart Hnodup Hlinks.
  destruct (delete_contents_spec X s dst dst_es Hdst) as (s1 & E1 & H1).
  destruct H1 as (Hd1 & Hout1 & Hsame1).
  assert (Hsrc1 : get (fs s1) src = Some (Dir src_es))
    by (rewrite (Hout1 src Hapart); exact Hsrc).
  assert (Hfiltered : forall k, assoc k (filter is_dot_git dst_es) =
                                if (k =? ".git")%string then assoc k dst_es else None).
  { intros k. unfold is_dot_git.
    now rewrite (assoc_filter (fun k => (k =? ".git")%string)). }
  destruct (sorted_children src (map fst src_es)) as (names & En & Es & HP).
  assert (Hnd : NoDup names) by (apply (Permutation_NoDup HP Hnodup)).
  destruct (copy_loop src dst src_es names Hapart Hnd) with (s := s1)
                                                            (cur := filter is_dot_git dst_es)
    as (s2 & cur2 & E2 & H2 & Hassoc & Htree); try assumption.
  { intros k Hk Hne.
    assert (Hin : In k (map fst src_es)) by (apply (Permutation_in _ (Permutation_sym HP) Hk)).
    destruct (assoc k src_es) as [n |] eqn:Ek.
    - exists n. split; [reflexivity |]. now apply (Hlinks k n).
    - apply assoc_None in Ek. contradiction. }
  { intros k Hk Hne. rewrite Hfiltered.
    now destruct (String.eqb_spec k ".git"). }
  exists s2, cur2. split; [| split; [| split]].
  - unfold copy_package, bind at 1. rewrite E1.
    unfold bind at 1, iterdir. rewrite (stat_dir _ _ _ Hsrc1).
    rewrite <- map_map, Es. exact E2.
  - apply dir_step_trans with (X := X) (cur' := filter is_dot_git dst_es) (t := s1);
      [exact (conj Hd1 (conj Hout1 Hsame1)) | assumption].
  - intros k. rewrite Hassoc, Hfiltered.
    destruct (String.eqb_spec k ".git") as [-> | Hne]; [reflexivity |].
    cbn [negb andb orb].
    destruct (Str.mem k names) eqn:Em; [reflexivity |].
    symmetry. apply assoc_None. intros Hin.
    apply mem_false in Em. apply Em. apply (Permutation_in _ HP Hin).
  - rewrite Htree, remove_dot_git_kept. unfold package_tree, listing. now rewrite <- En.
Qed.

End WriteAndCopy.

Lemma links_free_assoc es k n :
  links_free (Dir es) = true -> assoc k es = Some n -> links_free n = true.
Proof.
  induction es as [| [k' m] es IH]; simpl; [discriminate |].
  intros H. apply Bool.andb_true_iff in H as [Hm Hes].
  destruct (String.eqb k' k); [now intros [= <-] | now apply IH].
Qed.

(** *** The loop that lists the packages *)

Lemma enumerate_loop X names :
  forall (s : state X) acc,
    for_fold (map (div GNU_ELPA_PACKAGES_SUBDIR) names) acc
      (fun subdir packages =>
         bind (is_dir subdir)
           (fun d =>
              if negb d then ret packages
              else if (name subdir =? "gnu-elpa-mirror")%string then ret packages
                   else ret (packages ++ [name subdir]))) s =
    (Ok (acc ++
         filter (fun k => (fs_is_dir (fs s) (GNU_ELPA_PACKAGES_SUBDIR // k) &&
                           negb (reserved k))%bool) names), s).
Proof.
  induction names as [| k names IH]; intros s acc; simpl.
  - now rewrite app_nil_r.
  - unfold bind at 1. unfold is_dir at 1. unfold bind at 1. rewrite name_div.
    unfold reserved at 1.
    destruct (fs_is_dir (fs s) (GNU_ELPA_PACKAGES_SUBDIR // k)); simpl.
    + destruct (k =? "gnu-elpa-mirror")%string; simpl; rewrite IH; [reflexivity |].
      now rewrite <- app_assoc.
    + now rewrite IH.
Qed.


(** * Two runs in a row, on the reference model of Git *)

(** ** Statements that end normally *)

Section Hoare.

Variable X : Type.

(** If [m] ends normally from [s], then [Q] holds of its value and of
    the state it leaves. *)
Definition partial {A} (m : M X A) (s : state X) (Q : A -> state X -> Prop) : Prop :=
  forall a s', m s = (Ok a, s') -> Q a s'.

(** [m] ends normally from [s], and [Q] holds. *)
Definition total {A} (m : M X A) (s : state X) (Q : A -> state X -> Prop) : Prop :=
  exists a s', m s = (Ok a, s') /\ Q a s'.

Lemma partial_bind A B (m : M X A) (k : A -> M X B) s Q :
  partial m s (fun a s1 => partial (k a) s1 Q) -> partial (bind m k) s Q.
Proof.
  intros Hm b s' E. unfold bind in E.
  destruct (m s) as [[a | e] s1] eqn:Em; [| discriminate].
  exact (Hm a s1 Em b s' E).
Qed.

Lemma total_bind A B (m : M X A) (k : A -> M X B) s Q :
  total m s (fun a s1 => total (k a) s1 Q) -> total (bind m k) s Q.
Proof.
  intros (a & s1 & Em & b & s' & Ek & HQ).
  exists b, s'. split; [| assumption]. unfold bind. now rewrite Em.
Qed.

Lemma partial_weaken A (m : M X A) s (Q Q' : A -> state X -> Prop) :
  partial m s Q -> (forall a s', Q a s' -> Q' a s') -> partial m s Q'.
Proof. intros H HQ a s' E. apply HQ. now apply H. Qed.

Lemma total_weaken A (m : M X A) s (Q Q' : A -> state X -> Prop) :
  total m s Q -> (forall a s', Q a s' -> Q' a s') -> total m s Q'.
Proof. intros (a & s' & E & H) HQ. exists a, s'. split; [assumption | now apply HQ]. Qed.

Lemma partial_ret A (a : A) s (Q : A -> state X -> Prop) : Q a s -> partial (ret a) s Q.
Proof. intros H b s' [= <- <-]. exact H. Qed.

Lemma total_ret A (a : A) s (Q : A -> state X -> Prop) : Q a s -> total (ret a) s Q.
Proof. intros H. now exists a, s. Qed.

Lemma partial_log msg s (Q : unit -> state X -> Prop) :
  Q tt (State (fs s) (world s) (stderr s ++ [msg]) (trace s)) -> partial (log msg) s Q.
Proof. intros H b s' [= <- <-]. exact H. Qed.

Lemma total_log msg s (Q : unit -> state X -> Prop) :
  Q tt (State (fs s) (world s) (stderr s ++ [msg]) (trace s)) -> total (log msg) s Q.
Proof. intros H. eexists tt, _. split; [reflexivity | exact H]. Qed.

(** A loop, with an invariant over the elements already handled. *)
Lemma partial_for_each A (body : A -> M X unit) (I : list A -> state X -> Prop) l :
  (forall done a rest s, l = done ++ a :: rest -> I done s ->
     partial (body a) s (fun _ s' => I (done ++ [a]) s')) ->
  forall s, I [] s -> partial (for_each l body) s (fun _ s' => I l s').
Proof.
  intros Hbody.
  assert (Hgen : forall rest done s, l = done ++ rest -> I done s ->
                   partial (for_each rest body) s (fun _ s' => I l s')).
  { induction rest as [| a rest IH]; intros done s El HI.
    - rewrite app_nil_r in El. subst done. now apply partial_ret.
    - simpl. apply partial_bind.
      apply partial_weaken with (Q := fun _ s' => I (done ++ [a]) s').
      + now apply (Hbody done a rest).
      + intros _ s1 H1. apply (IH (done ++ [a])); [| assumption].
        now rewrite <- app_assoc. }
  intros s HI. now apply (Hgen l []).
Qed.

Lemma total_for_each A (body : A -> M X unit) (I : list A -> state X -> Prop) l :
  (forall done a rest s, l = done ++ a :: rest -> I done s ->
     total (body a) s (fun _ s' => I (done ++ [a]) s')) ->
  forall s, I [] s -> total (for_each l body) s (fun _ s' => I l s').
Proof.
  intros Hbody.
  assert (Hgen : forall rest done s, l = done ++ rest -> I done s ->
                   total (for_each rest body) s (fun _ s' => I l s')).
  { induction rest as [| a rest IH]; intros done s El HI.
    - rewrite app_nil_r in El. subst done. now apply total_ret.
    - simpl. apply total_bind.
      apply total_weaken with (Q := fun _ s' => I (done ++ [a]) s').
      + now apply (Hbody done a rest).
      + intros _ s1 H1. apply (IH (done ++ [a])); [| assumption].
        now rewrite <- app_assoc. }
  intros s HI. now apply (Hgen l []).
Qed.

End Hoare.

Arguments partial {X A} m s Q.
Arguments total {X A} m s Q.

(** ** The stores of the model *)

Lemma path_eqb_refl p : path_eqb p p = true.
Proof. unfold path_eqb. now destruct (list_eq_dec string_dec p p). Qed.

Lemma path_eqb_eq p q : path_eqb p q = true <-> p = q.
Proof. unfold path_eqb. destruct (list_eq_dec string_dec p q); split; congruence. Qed.

Lemma path_eqb_neq p q : p <> q -> path_eqb p q = false.
Proof. unfold path_eqb. now destruct (list_eq_dec string_dec p q). Qed.

Lemma find_store_path_eq V k (v : V) l : find_path k (store_path k v l) = Some v.
Proof. simpl. now rewrite path_eqb_refl. Qed.

Lemma find_store_path_neq V k k' (v : V) l :
  k <> k' -> find_path k' (store_path k v l) = find_path k' l.
Proof.
  intros Hne. simpl. rewrite (path_eqb_neq _ _ Hne).
  induction l as [| [k0 v0] l IH]; simpl; [reflexivity |].
  destruct (list_eq_dec string_dec k0 k) as [-> | Hk].
  - rewrite path_eqb_refl. simpl. now rewrite (path_eqb_neq _ _ Hne).
  - rewrite (path_eqb_neq _ _ Hk). simpl. now rewrite IH.
Qed.

Lemma find_store_string_eq V k (v : V) l : find_string k (store_string k v l) = Some v.
Proof. simpl. now rewrite String.eqb_refl. Qed.

Lemma find_store_string_neq V k k' (v : V) l :
  k <> k' -> find_string k' (store_string k v l) = find_string k' l.
Proof.
  intros Hne. simpl. rewrite (proj2 (String.eqb_neq k k') Hne).
  induction l as [| [k0 v0] l IH]; simpl; [reflexivity |].
  destruct (String.eqb_spec k0 k) as [-> | Hk]; simpl.
  - now rewrite (proj2 (String.eqb_neq k k') Hne).
  - now rewrite IH.
Qed.

Lemma find_path_filter V (keep : path -> bool) k (l : list (path * V)) :
  keep k = true -> find_path k (filter (fun e => keep (fst e)) l) = find_path k l.
Proof.
  intros Hk. induction l as [| [k0 v0] l IH]; simpl; [reflexivity |].
  destruct (list_eq_dec string_dec k0 k) as [-> | Hne].
  - rewrite Hk. simpl. now rewrite path_eqb_refl.
  - rewrite (path_eqb_neq _ _ Hne).
    destruct (keep k0); simpl; [now rewrite (path_eqb_neq _ _ Hne) | assumption].
Qed.

Lemma find_string_filter V (keep : string -> bool) k (l : list (string * V)) :
  keep k = true -> find_string k (filter (fun e => keep (fst e)) l) = find_string k l.
Proof.
  intros Hk. induction l as [| [k0 v0] l IH]; simpl; [reflexivity |].
  destruct (String.eqb_spec k0 k) as [-> | Hne].
  - rewrite Hk. simpl. now rewrite String.eqb_refl.
  - destruct (keep k0); simpl; [now rewrite (proj2 (String.eqb_neq k0 k) Hne) | assumption].
Qed.

(** ** Equality of trees, decided *)

Lemma node_eqb_refl n : node_eqb n n = true.
Proof.
  induction n as [d | t | es IH] using node_induction; simpl.
  - apply String.eqb_refl.
  - apply path_eqb_refl.
  - induction es as [| [k m] es IHes]; [reflexivity |].
    inversion IH as [| e es' Hhead Htail]; subst. simpl in Hhead.
    rewrite String.eqb_refl, Hhead. simpl. now apply IHes.
Qed.

Lemma node_eqb_eq a : forall b, node_eqb a b = true -> a = b.
Proof.
  induction a as [d | t | es IH] using node_induction; intros [d' | t' | fs'] H;
    simpl in H; try discriminate.
  - apply String.eqb_eq in H. now subst.
  - apply path_eqb_eq in H. now subst.
  - f_equal. revert fs' H.
    induction es as [| [k m] es IHes]; intros [| [k' m'] fs'] H; try discriminate;
      [reflexivity |].
    inversion IH as [| e es' Hhead Htail]; subst. simpl in Hhead.
    apply Bool.andb_true_iff in H as [H Hrest].
    apply Bool.andb_true_iff in H as [Hk Hm].
    apply String.eqb_eq in Hk. subst k'.
    rewrite (Hhead m' Hm). f_equal. now apply IHes.
Qed.

Lemma entries_eqb_refl es : entries_eqb es es = true.
Proof. apply node_eqb_refl. Qed.

Lemma entries_eqb_eq es fs' : entries_eqb es fs' = true -> es = fs'.
Proof. intros H. apply node_eqb_eq in H. now injection H. Qed.

(** ** Mirror URLs and paths on the command line *)

Lemma append_inj_l a x y : (a ++ x = a ++ y)%string -> x = y.
Proof. induction a as [| c a IH]; simpl; [trivial |]. intros [= H]. now apply IH. Qed.

Lemma length_append x y :
  String.length (x ++ y) = String.length x + String.length y.
Proof. induction x as [| c x IH]; simpl; [reflexivity | now rewrite IH]. Qed.

Lemma append_inj_r a : forall x y, (x ++ a = y ++ a)%string -> x = y.
Proof.
  induction x as [| c x IH]; intros [| c' y] H; simpl in H.
  - reflexivity.
  - exfalso. apply (f_equal String.length) in H. simpl in H.
    rewrite length_append in H. lia.
  - exfalso. apply (f_equal String.length) in H. simpl in H.
    rewrite length_append in H. lia.
  - injection H as -> H. f_equal. now apply IH.
Qed.

Lemma mirror_url_inj tok p q : mirror_url tok p = mirror_url tok q -> p = q.
Proof.
  unfold mirror_url. intros H.
  apply append_inj_l, append_inj_l, append_inj_l in H.
  now apply append_inj_r in H.
Qed.

Lemma prefix_append x y : String.prefix x (x ++ y) = true.
Proof.
  induction x as [| c x IH]; simpl; [now destruct y |].
  destruct (ascii_dec c c); [assumption | contradiction].
Qed.

Lemma append_assoc x y z : ((x ++ y) ++ z = x ++ (y ++ z))%string.
Proof. induction x as [| c x IH]; simpl; [reflexivity | now rewrite IH]. Qed.

Lemma is_mirror_url_mirror_url tok p : is_mirror_url tok (mirror_url tok p) = true.
Proof.
  unfold is_mirror_url, mirror_url.
  replace ("https://raxod502:" ++ tok ++ "@github.com/emacs-straight/" ++ p ++ ".git")%string
    with (("https://raxod502:" ++ tok ++ "@github.com/emacs-straight/") ++ (p ++ ".git"))%string.
  - apply prefix_append.
  - now rewrite !append_assoc.
Qed.

Lemma split_path_valid k : forall cur,
  valid_name k = true -> split_path k cur = [(cur ++ k)%string].
Proof.
  induction k as [| c k IH]; intros cur H; simpl in *.
  - f_equal. induction cur as [| c cur IHc]; simpl; [reflexivity | now rewrite <- IHc at 1].
  - apply Bool.andb_true_iff in H as [Hc Hk].
    apply Bool.negb_true_iff in Hc. rewrite Hc.
    rewrite (IH _ Hk). f_equal. now rewrite append_assoc.
Qed.

Lemma parse_repo_dir p :
  valid_name p = true -> parse_path (fspath (REPOS_SUBDIR // p)) = REPOS_SUBDIR // p.
Proof.
  intros Hp. unfold parse_path. simpl. now rewrite (split_path_valid p "" Hp).
Qed.

(** * The claims *)

(** ** Tools for reading a trace *)

Ltac not_in_argv :=
  simpl; intros Hin;
  repeat (destruct Hin as [Hin | Hin]; [try discriminate Hin |]);
  try contradiction.

Section TraceClaims.

Variable X : Type.
Context {O : Outside X}.

(** *** C10 *)

Lemma never_all_branches_sequential : sequential never_all_branches.
Proof.
  intros d1 l1 d2 l2 r H1 H2 i Hi. apply in_app_or in Hi as [Hi | Hi]; eauto.
Qed.

Lemma never_all_branches_idle : idle never_all_branches.
Proof. intros dl r i []. Qed.

Lemma never_all_branches_sites ACCESS_TOKEN args data c :
  sites ACCESS_TOKEN args data c -> site_ok never_all_branches c.
Proof.
  intros Hc. destruct Hc;
    try match goal with H : cloned _ _ _ _ _ _ |- _ => destruct H end;
    try match goal with H : committed _ _ |- _ => destruct H end;
    simpl; intros rc out;
    repeat match goal with |- context [if ?b then _ else _] => destruct b end;
    intros i [<- | []]; unfold remote_ref, mirror_url; not_in_argv.
Qed.

(** C10: without [shallow], [all_branches] changes nothing.  The clone
    command is the same list of words, [clone_git_repo] is the same
    state transformer, and no process that a run of [mirror] starts,
    the clone of the archive included, carries [--no-single-branch]. *)
Theorem all_branches_needs_shallow :
  (forall git_url repo_dir,
      clone_cmd git_url repo_dir false true = clone_cmd git_url repo_dir false false) /\
  (forall git_url repo_dir private_url (s : state X),
      clone_git_repo git_url repo_dir false true private_url s =
      clone_git_repo git_url repo_dir false false private_url s) /\
  (forall ACCESS_TOKEN args (s : state X) i,
      In i (started (mirror ACCESS_TOKEN args) s) ->
      ~ In "--no-single-branch" (argv i)).
Proof.
  split; [reflexivity | split; [reflexivity |]].
  intros tok args s.
  apply (emits_started _ _ _ _ _
           (mirror_sites _ tok args s never_all_branches
              never_all_branches_sequential never_all_branches_idle
              (never_all_branches_sites tok args (commit_data_of s)))).
Qed.


(** *** C9 *)

Lemma hides_credential_sequential tok : sequential (hides_credential tok).
Proof.
  intros d1 l1 d2 l2 r H1 H2 i Hi Hc Hrc.
  apply in_app_or in Hi as [Hi | Hi].
  - destruct (H1 i Hi Hc Hrc) as [Hr _]. discriminate Hr.
  - destruct (H2 i Hi Hc Hrc) as [Hr [earlier ->]].
    split; [assumption |]. exists (l1 ++ earlier). now rewrite app_assoc.
Qed.

Lemma hides_credential_idle tok : idle (hides_credential tok).
Proof. intros dl r i []. Qed.

Lemma clone_cmd_second git_url repo_dir shallow all_branches :
  git_subcommand (clone_cmd git_url repo_dir shallow all_branches) = Some "clone".
Proof. now destruct shallow, all_branches. Qed.

Lemma credential_clone_is_clone tok i : credential_clone tok i -> is_clone i.
Proof.
  intros (p & d & sh & ab & E). unfold is_clone. rewrite E. apply clone_cmd_second.
Qed.

Lemma upstream_url_no_credential tok u d sh ab pr rc out :
  cloned tok u d sh ab pr -> pr = false ->
  ~ credential_clone tok (Invocation (clone_cmd u d sh ab) None true rc out).
Proof.
  intros Hc Hpr (p & d' & sh' & ab' & E). simpl in E.
  destruct Hc; try discriminate Hpr;
    destruct sh', ab'; unfold mirror_url in E; simpl in E; discriminate E.
Qed.

Lemma hides_credential_sites tok args data c :
  sites tok args data c -> site_ok (hides_credential tok) c.
Proof.
  intros Hc. destruct Hc as [u d sh ab pr Hcl | | | | | | | | | | | | | ];
    try (simpl; intros rc out i [<- | []] Hcr; apply credential_clone_is_clone in Hcr;
         unfold is_clone in Hcr; simpl in Hcr; discriminate Hcr).
  simpl. intros rc out. destruct (Z.eqb_spec rc 0) as [-> | Hrc].
  - intros i [<- | []] _ Hn. now elim Hn.
  - destruct pr eqn:Epr.
    + intros i [<- | []] _ _. split; [reflexivity |]. now exists [].
    + intros i [<- | []] Hcr. exfalso. revert Hcr.
      now apply upstream_url_no_credential with (pr := false).
Qed.

(** What a statement writes: progress lines of [Q] and, only as the last
    thing before it ends the run with status 1, the text [D]. *)
Definition talks (Q : string -> Prop) (D : string) {A} (m : M X A) (s : state X) : Prop :=
  exists dl,
    stderr (final m s) = stderr s ++ dl /\
    (Forall Q dl \/
     exists earlier,
       dl = earlier ++ [D] /\ Forall Q earlier /\ outcome m s = Raise (SystemExit 1)).

Section Talks.

Variable Q : string -> Prop.
Variable D : string.

Lemma talks_bind A B (m : M X A) (k : A -> M X B) s :
  talks Q D m s ->
  (forall a s', m s = (Ok a, s') -> talks Q D (k a) s') ->
  talks Q D (bind m k) s.
Proof.
  intros (d1 & Hl & H1) Hk. unfold talks, final, outcome in *.
  destruct (m s) as [[a | e] s1] eqn:E; cbn [fst snd] in *.
  - rewrite (bind_ok _ _ _ m k _ _ _ E).
    destruct H1 as [H1 | (e1 & _ & _ & H1)]; [| discriminate H1].
    destruct (Hk a s1 eq_refl) as (d2 & Hl2 & H2).
    exists (d1 ++ d2). rewrite Hl2, Hl, <- app_assoc. split; [reflexivity |].
    destruct H2 as [H2 | (e2 & -> & H2 & Ho)].
    + left. apply Forall_app. now split.
    + right. exists (d1 ++ e2). rewrite <- app_assoc.
      split; [reflexivity |]. split; [apply Forall_app; now split | exact Ho].
  - rewrite (bind_raise _ _ _ m k _ _ _ E). cbn [fst snd]. exists d1.
    split; [exact Hl |]. destruct H1 as [H1 | (e1 & E1 & H1 & He)]; [now left |].
    right. exists e1. injection He as ->. now repeat split.
Qed.

Lemma talks_silent A (m : M X A) s : silent m -> talks Q D m s.
Proof.
  intros Hm. destruct (Hm s) as [_ Hl]. exists []. rewrite app_nil_r.
  split; [exact Hl | left; constructor].
Qed.

Lemma talks_log msg s : Q msg -> talks Q D (log (X:=X) msg) s.
Proof. intros HQ. exists [msg]. split; [reflexivity | left; now constructor]. Qed.

Lemma talks_run cmd dir chk s : talks Q D (subprocess_run cmd dir chk) s.
Proof.
  exists []. rewrite app_nil_r. split; [| left; constructor].
  unfold final, subprocess_run.
  destruct (match dir with Some d => negb (fs_is_dir (fs s) d) | None => false end);
    [reflexivity |].
  destruct (spawn cmd dir (fs s) (world s)) as [[[rc out] f] w].
  now destruct (chk && negb (rc =? 0)%Z)%bool.
Qed.

Lemma talks_for_each A (body : A -> M X unit) l :
  (forall a s, In a l -> talks Q D (body a) s) ->
  forall s, talks Q D (for_each l body) s.
Proof.
  induction l as [| a l IH]; intros Hb s.
  - apply talks_silent, silent_ret.
  - cbn [for_each]. apply talks_bind; [apply Hb; now left |].
    intros _ s' _. apply IH. intros b t Hin. apply Hb. now right.
Qed.

End Talks.

Ltac say := apply talks_bind; [| intros ? ? _].
Ltac hush := apply talks_silent.

Lemma talks_die Q (s : state X) :
  talks Q ("gnu_elpa_mirror: " ++ clone_failed_message) (die (A:=unit) clone_failed_message) s.
Proof.
  exists ["gnu_elpa_mirror: " ++ clone_failed_message]%string.
  split; [reflexivity |]. right. exists []. repeat split. constructor.
Qed.

Lemma talks_clone_git_repo Q u d sh ab pr (s : state X) :
  talks Q clone_failure_diagnostic (clone_git_repo u d sh ab pr) s.
Proof.
  unfold clone_git_repo. say; [hush; apply silent_is_dir |].
  destruct (negb a).
  - unfold talks, final, outcome, catch, bind, subprocess_run. cbv beta iota.
    destruct (spawn (clone_cmd u d sh ab) None (fs s') (world s')) as [[[rc out] f] w].
    cbn [andb]. destruct (rc =? 0)%Z; cbn [negb fst snd ret stderr].
    + exists []. rewrite app_nil_r. split; [reflexivity | left; constructor].
    + destruct pr.
      * exists [clone_failure_diagnostic]. split; [reflexivity |].
        right. exists []. repeat split. constructor.
      * exists []. rewrite app_nil_r. split; [reflexivity | left; constructor].
  - say; [apply talks_run |]. say; [hush; apply silent_decode |].
    say; [apply talks_run |]. say; [apply talks_run |].
    destruct (returncode _ =? 0)%Z.
    + say; [apply talks_run | hush; apply silent_ret].
    + hush. apply silent_ret.
Qed.

Lemma talks_stage_and_commit Q D d m data (s : state X) :
  Q "(no changes)" -> talks Q D (stage_and_commit d m data) s.
Proof.
  intros HQ. unfold stage_and_commit.
  say; [apply talks_run |]. say; [apply talks_run |].
  destruct (negb (returncode _ =? 0)%Z).
  - say; [apply talks_run | hush; apply silent_ret].
  - now apply talks_log.
Qed.

Lemma fixed_line packages m : In m fixed_lines -> progress_line packages m.
Proof. now left. Qed.

Lemma package_line packages p m :
  In p packages -> In m (package_lines p) -> progress_line packages m.
Proof. intros Hp Hm. right. now exists p. Qed.

Ltac fixed := apply talks_log, fixed_line; cbn; tauto.

Lemma talks_fetch_upstream packages (s : state X) :
  talks (progress_line packages) clone_failure_diagnostic fetch_upstream s.
Proof.
  unfold fetch_upstream.
  say; [fixed |]. say; [apply talks_clone_git_repo |].
  say; [fixed |]. say; [apply talks_clone_git_repo |].
  say; [fixed |]. say; [hush; apply silent_datetime_now |].
  say; [apply talks_run |]. say; [hush; apply silent_decode |].
  say; [apply talks_run |]. say; [hush; apply silent_decode |].
  hush. apply silent_ret.
Qed.

Lemma talks_prepare_upstream packages (s : state X) :
  talks (progress_line packages) clone_failure_diagnostic prepare_upstream s.
Proof.
  unfold prepare_upstream.
  say; [fixed |]. say; [apply talks_run |].
  say; [hush; apply silent_patch_build_script |].
  say; [fixed |]. say; [apply talks_run | hush; apply silent_ret].
Qed.

Ltac named Hp := apply talks_log, (package_line _ _ _ Hp); cbn; tauto.

Lemma talks_sync_mirrors_from tok args data existing_repos packages (s : state X) :
  talks (progress_line packages) clone_failure_diagnostic
    (bind (log "--> clone/update mirror repositories")
       (fun _ =>
          bind (github_call (GetOrganization tok "emacs-straight"))
            (fun _ =>
               bind (mkdir_exist_ok REPOS_SUBDIR)
                 (fun _ =>
                    bind (for_each packages (clone_mirror tok args existing_repos))
                      (fun _ =>
                         bind (log "--> update mirrored packages")
                           (fun _ =>
                              bind (for_each packages (update_package data))
                                (fun _ =>
                                   publish tok args existing_repos packages data)))))))
    s.
Proof.
  say; [fixed |]. say; [hush; apply silent_github_call |].
  say; [hush; apply silent_mkdir_exist_ok |].
  say.
  { apply talks_for_each. intros p t Hp. unfold clone_mirror.
    say.
    - destruct (negb (Str.mem p existing_repos)).
      + say; [named Hp | hush; apply silent_create_repo].
      + hush. apply silent_ret.
    - say; [hush; apply silent_is_dir |].
      destruct (Str.mem "--skip-mirror-pulls" args && _)%bool.
      + hush. apply silent_ret.
      + say; [named Hp | apply talks_clone_git_repo]. }
  say; [fixed |].
  say.
  { apply talks_for_each. intros p t Hp. unfold update_package.
    say; [named Hp |]. say; [hush; apply silent_copy_package |].
    apply talks_stage_and_commit, fixed_line. cbn. tauto. }
  unfold publish, publish_list.
  say.
  { destruct (negb (Str.mem "--skip-mirror-pushes" args)).
    - say; [fixed |]. apply talks_for_each. intros p t Hp. unfold push_package.
      say; [named Hp |]. say; [apply talks_run | hush; apply silent_ret].
    - hush. apply silent_ret. }
  say.
  { destruct (negb (Str.mem "gnu-elpa-mirror" existing_repos)).
    - say; [fixed | hush; apply silent_create_repo].
    - hush. apply silent_ret. }
  say; [fixed |]. say; [apply talks_clone_git_repo |].
  say; [fixed |]. say; [hush; apply silent_write_mirror_list |].
  say; [apply talks_stage_and_commit, fixed_line; cbn; tauto |].
  say; [fixed |]. say; [apply talks_run | hush; apply silent_ret].
Qed.

(** The loop over the packages directory looks at the files only. *)
Lemma enumerate_fold_fs (l : list path) :
  forall (acc : list string) (s t : state X),
    fs s = fs t ->
    fst (for_fold l acc
           (fun subdir packages =>
              bind (is_dir subdir)
                (fun d =>
                   if negb d then ret packages
                   else if (name subdir =? "gnu-elpa-mirror")%string then ret packages
                        else ret (packages ++ [name subdir]))) s) =
    fst (for_fold l acc
           (fun subdir packages =>
              bind (is_dir subdir)
                (fun d =>
                   if negb d then ret packages
                   else if (name subdir =? "gnu-elpa-mirror")%string then ret packages
                        else ret (packages ++ [name subdir]))) t).
Proof.
  induction l as [| a l IH]; intros acc s t H; [reflexivity |].
  assert (Hb : forall u : state X,
             bind (is_dir a)
               (fun d =>
                  if negb d then ret acc
                  else if (name a =? "gnu-elpa-mirror")%string then ret acc
                       else ret (acc ++ [name a])) u =
             (Ok (if negb (fs_is_dir (fs u) a) then acc
                  else if (name a =? "gnu-elpa-mirror")%string then acc
                       else acc ++ [name a]), u)).
  { intros u. unfold bind, is_dir. destruct (negb (fs_is_dir (fs u) a)); [reflexivity |].
    now destruct (name a =? "gnu-elpa-mirror")%string. }
  cbn [for_fold].
  rewrite (bind_ok _ _ _ _ _ _ _ _ (Hb s)), (bind_ok _ _ _ _ _ _ _ _ (Hb t)), H.
  now apply IH.
Qed.

Lemma enumerate_packages_fs (s t : state X) :
  fs s = fs t -> outcome enumerate_packages s = outcome enumerate_packages t.
Proof.
  intros H. unfold outcome, enumerate_packages. unfold bind at 1 3, iterdir. rewrite H.
  destruct (stat (fs t) GNU_ELPA_PACKAGES_SUBDIR) as [[loc [[x | l | es] |]] |];
    try reflexivity.
  now apply enumerate_fold_fs.
Qed.

Lemma talks_mirror tok args (s : state X) :
  talks (progress_line (packages_of_run s)) clone_failure_diagnostic (mirror tok args) s.
Proof.
  unfold mirror. apply talks_bind; [apply talks_fetch_upstream |].
  intros data s1 E1. unfold mirror_from.
  apply talks_bind; [apply talks_prepare_upstream |].
  intros [] s2 E2. unfold sync_mirrors.
  apply talks_bind; [fixed |]. intros [] s3 E3.
  apply talks_bind; [hush; apply silent_github_call |]. intros existing_repos s4 E4.
  apply talks_bind; [hush; apply silent_enumerate_packages |]. intros packages s5 E5.
  assert (Hp : packages_of_run s = packages).
  { unfold packages_of_run.
    rewrite (bind_ok _ _ _ _ _ _ _ _ E1), (bind_ok _ _ _ _ _ _ _ _ E2).
    assert (Hfs : fs s2 = fs s4).
    { unfold log in E3. injection E3 as <-. unfold github_call in E4.
      destruct (github _ _) as [r w] in E4. injection E4 as _ <-. reflexivity. }
    pose proof (enumerate_packages_fs s2 s4 Hfs) as Ho. unfold outcome in Ho.
    rewrite E5 in Ho. cbn [fst] in Ho.
    destruct (enumerate_packages s2) as [r s2']. cbn [fst] in Ho. now subst r. }
  rewrite Hp. apply talks_sync_mirrors_from.
Qed.

Lemma diagnostic_is_no_progress_line packages :
  ~ progress_line packages clone_failure_diagnostic.
Proof.
  intros [H | (p & _ & H)]; cbn in H;
    repeat (destruct H as [H | H]; [discriminate H |]); exact H.
Qed.

(** C9: in every run of [mirror], if a clone from a URL that carries the
    token ends with a nonzero status, the run ends with [SystemExit 1]
    and the last message it wrote is one fixed text, in which neither
    the token nor the URL occurs: the text does not depend on them.
    Every message before it is a progress line of the script: one of its
    fixed lines, or one of the four lines that name a package, for a
    package of the list the run computed from the packages directory.
    Neither the URL nor the token is ever given to [log]. *)
Theorem failed_clone_hides_credential ACCESS_TOKEN args (s : state X) i :
  In i (started (mirror ACCESS_TOKEN args) s) ->
  credential_clone ACCESS_TOKEN i ->
  returncode i <> 0%Z ->
  outcome (mirror ACCESS_TOKEN args) s = Raise (SystemExit 1) /\
  exists earlier,
    written (mirror ACCESS_TOKEN args) s =
    earlier ++
    ["gnu_elpa_mirror: cloning repository failed (details omitted for security)"] /\
    Forall (progress_line (packages_of_run s)) earlier.
Proof.
  intros Hi Hc Hrc.
  pose proof (emits_started _ _ _ _ _
                (mirror_sites _ ACCESS_TOKEN args s (hides_credential ACCESS_TOKEN)
                   (hides_credential_sequential ACCESS_TOKEN)
                   (hides_credential_idle ACCESS_TOKEN)
                   (hides_credential_sites ACCESS_TOKEN args (commit_data_of s)))) as H.
  destruct (H i Hi Hc Hrc) as [Hr (earlier & Hl)].
  assert (Ho : outcome (mirror ACCESS_TOKEN args) s = Raise (SystemExit 1)).
  { destruct (outcome (mirror ACCESS_TOKEN args) s); simpl in Hr; [discriminate |].
    now injection Hr as ->. }
  split; [exact Ho |]. exists earlier. split; [exact Hl |].
  destruct (talks_mirror ACCESS_TOKEN args s) as (dl & Hdl & Hsaid).
  apply written_app in Hdl. rewrite Hl in Hdl. subst dl.
  destruct Hsaid as [Hall | (e & E & He & _)].
  - apply Forall_app in Hall as [_ Hlast]. inversion Hlast as [| ? ? Hd _]; subst.
    now elim (diagnostic_is_no_progress_line (packages_of_run s)).
  - apply app_inj_tail in E as [-> _]. exact He.
Qed.

(** *** C2 *)

Lemma pushes_only_list_sequential : sequential pushes_only_list.
Proof.
  intros d1 l1 d2 l2 r H1 H2 i Hi. apply in_app_or in Hi as [Hi | Hi]; eauto.
Qed.

Lemma pushes_only_list_idle : idle pushes_only_list.
Proof. intros dl r i []. Qed.

Lemma pushes_only_list_sites tok args data c :
  Str.mem "--skip-mirror-pushes" args = true ->
  sites tok args data c -> site_ok pushes_only_list c.
Proof.
  intros Hskip Hc.
  destruct Hc as [u d sh ab pr Hcl | | | | | | | | | | | | package Hno | ];
    try (simpl; intros rc out i [<- | []] Hp; unfold is_push in Hp; simpl in Hp;
         first [discriminate Hp | reflexivity]).
  - simpl. intros rc out.
    assert (Hnot : forall l r,
               pushes_only_list [Invocation (clone_cmd u d sh ab) None true rc out] l r).
    { intros l r i [<- | []] Hp. unfold is_push in Hp. simpl in Hp.
      rewrite clone_cmd_second in Hp. discriminate Hp. }
    destruct (rc =? 0)%Z; [| destruct pr]; apply Hnot.
  - rewrite Hskip in Hno. discriminate Hno.
Qed.

(** C2, as amended: with [--skip-mirror-pushes] no push is started in
    the directory of a package; every push of the run is the one of the
    mirror list, in [repos/gnu-elpa-mirror]. *)
Theorem skip_pushes_spares_packages ACCESS_TOKEN args (s : state X) i :
  In "--skip-mirror-pushes" args ->
  In i (started (mirror ACCESS_TOKEN args) s) ->
  is_push i ->
  cwd i = Some (REPOS_SUBDIR // "gnu-elpa-mirror").
Proof.
  intros Hskip. apply mem_In in Hskip.
  apply (emits_started _ _ _ _ _
           (mirror_sites _ ACCESS_TOKEN args s pushes_only_list
              pushes_only_list_sequential pushes_only_list_idle
              (fun c => pushes_only_list_sites ACCESS_TOKEN args _ c Hskip))).
Qed.

(** *** C3 *)

Lemma fails_fast_sequential exempt : sequential (fails_fast exempt).
Proof.
  intros d1 l1 d2 l2 r H1 H2 before i after E Hrc Hex.
  apply app_eq_app in E as [l [[E1 E2] | [E1 E2]]].
  - destruct l as [| j l].
    + simpl in E2. rewrite app_nil_r in E1. subst.
      now apply (H2 [] i after).
    + simpl in E2. injection E2 as -> ->.
      destruct (H1 before j l E1 Hrc Hex) as [_ Hr]. now elim Hr.
  - now apply (H2 l i after).
Qed.

Lemma fails_fast_idle exempt : idle (fails_fast exempt).
Proof. intros dl r before i after E. now destruct before. Qed.

Lemma fails_fast_single exempt (j : invocation) l (r : option exn) :
  (returncode j <> 0%Z -> ~ exempt (argv j) -> r <> None) ->
  fails_fast exempt [j] l r.
Proof.
  intros H before i after E Hrc Hex.
  destruct before as [| b before].
  - injection E as <- <-. auto.
  - injection E as _ E. now destruct before.
Qed.

Lemma fails_fast_sites tok args data c :
  sites tok args data c -> site_ok (fails_fast unchecked) c.
Proof.
  intros Hc.
  destruct Hc as [u d sh ab pr Hcl | | | u d sh ab pr b Hcl | | | | | | | d m Hm | | | ];
    simpl; intros rc out;
    try (apply fails_fast_single; simpl; intros Hrc Hex;
         apply Z.eqb_neq in Hrc; rewrite Hrc; discriminate).
  - destruct (Z.eqb_spec rc 0) as [-> | Hrc].
    + apply fails_fast_single. simpl. intros Hn. now elim Hn.
    + destruct pr; apply fails_fast_single; discriminate.
  - apply fails_fast_single. simpl. intros _ Hex. elim Hex.
    right. left. now exists b.
  - apply fails_fast_single. simpl. intros _ Hex. elim Hex. right. now right.
  - apply fails_fast_single. simpl. intros _ Hex. elim Hex. now left.
Qed.

(** C3, as amended: in every run of [mirror], a process that ends with a
    nonzero status is the last process of the run and the run raises,
    unless it is the staged-changes check, the [git show-ref] query or
    the checkout of the build script. *)
Theorem failing_process_ends_run ACCESS_TOKEN args (s : state X) before i after :
  started (mirror ACCESS_TOKEN args) s = before ++ i :: after ->
  returncode i <> 0%Z ->
  ~ unchecked (argv i) ->
  after = [] /\ exists e, outcome (mirror ACCESS_TOKEN args) s = Raise e.
Proof.
  intros E Hrc Hex.
  pose proof (emits_started _ _ _ _ _
                (mirror_sites _ ACCESS_TOKEN args s (fails_fast unchecked)
                   (fails_fast_sequential unchecked) (fails_fast_idle unchecked)
                   (fails_fast_sites ACCESS_TOKEN args (commit_data_of s)))) as H.
  destruct (H before i after E Hrc Hex) as [Ha Hr]. split; [assumption |].
  destruct (outcome (mirror ACCESS_TOKEN args) s) as [a | e]; [now elim Hr | now exists e].
Qed.

(** *** C6 *)

Lemma commits_shaped_sequential data : sequential (commits_shaped data).
Proof.
  intros d1 l1 d2 l2 r H1 H2 i Hi. apply in_app_or in Hi as [Hi | Hi]; eauto.
Qed.

Lemma commits_shaped_idle data : idle (commits_shaped data).
Proof. intros dl r i []. Qed.

Lemma commits_shaped_sites tok args data c :
  sites tok args data c -> site_ok (commits_shaped data) c.
Proof.
  intros Hc.
  destruct Hc as [u d sh ab pr Hcl | | | | | | | | | | | d m Hm | | ];
    try (simpl; intros rc out i [<- | []] Hp; unfold is_commit in Hp; simpl in Hp;
         discriminate Hp).
  - simpl. intros rc out.
    assert (Hnot : forall l r,
               commits_shaped data [Invocation (clone_cmd u d sh ab) None true rc out] l r).
    { intros l r i [<- | []] Hp. unfold is_commit in Hp. simpl in Hp.
      rewrite clone_cmd_second in Hp. discriminate Hp. }
    destruct (rc =? 0)%Z; [| destruct pr]; apply Hnot.
  - simpl. intros rc out i [<- | []] _. exists m. split; [| reflexivity].
    destruct Hm; [left; now eexists | now right].
Qed.

(** C6, as amended: every commit of a run is made by one command line:
    the fixed bot identity given with [-c], and a message made of the
    summary line, an empty line, and the three lines [Timestamp:], [GNU
    ELPA commit:] and [Emacs commit:] with the values of the run's one
    [commit_data], the same for all the commits of the run.  With this
    command line the commit is the bot's whatever [user.name] and
    [user.email] the user has configured, as long as the user sets none
    of the four [GIT_AUTHOR_*] and [GIT_COMMITTER_*] variables and none
    of the four settings [author.*] and [committer.*]. *)
Theorem commits_share_shape_and_data ACCESS_TOKEN args (s : state X) i :
  In i (started (mirror ACCESS_TOKEN args) s) ->
  is_commit i ->
  (exists summary,
      ((exists package, summary = "Update " ++ package) \/
       summary = "Update mirror list")%string /\
      argv i =
      ["git";
       "-c"; "user.name=GNU ELPA Mirror Bot";
       "-c"; "user.email=emacs-devel@gnu.org";
       "commit"; "-m";
       (summary ++ Str.nl ++ Str.nl
        ++ "Timestamp: " ++ timestamp (commit_data_of s) ++ Str.nl
        ++ "GNU ELPA commit: " ++ gnu_elpa_commit (commit_data_of s) ++ Str.nl
        ++ "Emacs commit: " ++ emacs_commit (commit_data_of s))%string]) /\
  (forall u, leaves_identity_alone u -> commit_identity u (argv i) = bot_identity).
Proof.
  intros Hi Hc.
  destruct (emits_started _ _ _ _ _
              (mirror_sites _ ACCESS_TOKEN args s (commits_shaped (commit_data_of s))
                 (commits_shaped_sequential _) (commits_shaped_idle _)
                 (commits_shaped_sites ACCESS_TOKEN args (commit_data_of s))) i Hi Hc)
    as (summary & Hs & E).
  split; [exists summary; split; [exact Hs | exact E] |].
  intros u (Henv & Hcfg). rewrite E. unfold commit_cmd.
  repeat match goal with H : Forall _ (_ :: _) |- _ => inversion_clear H end.
  unfold commit_identity, setting, first_of. cbn [tl c_option String.eqb Ascii.eqb Bool.eqb].
  repeat match goal with H : environment u _ = None |- _ => rewrite H; clear H end.
  repeat match goal with H : configuration u _ = None |- _ => rewrite H; clear H end.
  reflexivity.
Qed.

End TraceClaims.

(** ** The trace claims on the sample world *)

Ltac in_list := vm_compute; repeat first [left; reflexivity | right].

(** C9, witness: GitHub lists the mirror of [bar], the clone fails with
    status 128, and the run ends as the theorem says. *)
Lemma failed_clone_hides_credential_witness :
  let i := Invocation (clone_cmd (mirror_url Sample.TOKEN "bar") (REPOS_SUBDIR // "bar")
                         true false)
             None true 128 "" in
  In i (started (mirror Sample.TOKEN []) Sample.state_unreachable) /\
  credential_clone Sample.TOKEN i /\
  returncode i <> 0%Z /\
  outcome (mirror Sample.TOKEN []) Sample.state_unreachable = Raise (SystemExit 1) /\
  exists earlier,
    written (mirror Sample.TOKEN []) Sample.state_unreachable =
    earlier ++
    ["gnu_elpa_mirror: cloning repository failed (details omitted for security)"] /\
    Forall (progress_line (packages_of_run Sample.state_unreachable)) earlier.
Proof.
  intros i.
  assert (Hin : In i (started (mirror Sample.TOKEN []) Sample.state_unreachable))
    by in_list.
  assert (Hc : credential_clone Sample.TOKEN i)
    by (exists "bar", (REPOS_SUBDIR // "bar"), true, false; reflexivity).
  assert (Hrc : returncode i <> 0%Z) by discriminate.
  split; [exact Hin | split; [exact Hc | split; [exact Hrc |]]].
  exact (failed_clone_hides_credential Git.world Sample.TOKEN [] Sample.state_unreachable
           i Hin Hc Hrc).
Defined.

(** C2, counterexample: a run with [--skip-mirror-pushes] on the sample
    world still starts a push, the one of the mirror list. *)
Lemma skip_pushes_still_pushes_list :
  exists i,
    In i (started (mirror Sample.TOKEN ["--skip-mirror-pushes"]) Sample.state0) /\
    is_push i /\
    cwd i = Some (REPOS_SUBDIR // "gnu-elpa-mirror") /\
    returncode i = 0%Z.
Proof.
  exists (Invocation push_cmd (Some (REPOS_SUBDIR // "gnu-elpa-mirror")) true 0 "").
  split; [in_list | repeat split].
Qed.

(** C2, witness of the amended claim on the same run. *)
Lemma skip_pushes_spares_packages_witness :
  let i := Invocation push_cmd (Some (REPOS_SUBDIR // "gnu-elpa-mirror")) true 0 "" in
  In "--skip-mirror-pushes" ["--skip-mirror-pushes"] /\
  In i (started (mirror Sample.TOKEN ["--skip-mirror-pushes"]) Sample.state0) /\
  is_push i /\
  cwd i = Some (REPOS_SUBDIR // "gnu-elpa-mirror").
Proof.
  intros i.
  assert (Hflag : In "--skip-mirror-pushes" ["--skip-mirror-pushes"]) by (now left).
  assert (Hin : In i (started (mirror Sample.TOKEN ["--skip-mirror-pushes"]) Sample.state0))
    by in_list.
  assert (Hp : is_push i) by reflexivity.
  split; [exact Hflag | split; [exact Hin | split; [exact Hp |]]].
  exact (skip_pushes_spares_packages Git.world Sample.TOKEN ["--skip-mirror-pushes"]
           Sample.state0 i Hflag Hin Hp).
Defined.

(** C3, counterexample: in the run that follows a dry run, [git
    show-ref] ends with status 1 in [repos/bar]; it is not the
    staged-changes check, yet more processes follow and the run ends
    normally. *)
Lemma show_ref_failure_is_no_error :
  exists before i after,
    started (mirror Sample.TOKEN []) Sample.state_dry = before ++ i :: after /\
    argv i = ["git"; "show-ref"; "refs/remotes/origin/master"] /\
    returncode i = 1%Z /\
    ~ staged_check_only (argv i) /\
    after <> [] /\
    outcome (mirror Sample.TOKEN []) Sample.state_dry = Ok tt.
Proof.
  exists (firstn 14 (started (mirror Sample.TOKEN []) Sample.state_dry)),
    (Invocation ["git"; "show-ref"; "refs/remotes/origin/master"]
       (Some (REPOS_SUBDIR // "bar")) false 1 ""),
    (skipn 15 (started (mirror Sample.TOKEN []) Sample.state_dry)).
  split; [vm_compute; reflexivity |].
  split; [reflexivity |]. split; [reflexivity |].
  split; [discriminate |].
  split; [vm_compute; discriminate | vm_compute; reflexivity].
Qed.

(** C3, witness of the amended claim: the failing clone of the
    unreachable mirror is the last process and the run raises. *)
Lemma failing_process_ends_run_witness :
  let before := firstn 6 (started (mirror Sample.TOKEN []) Sample.state_unreachable) in
  let i := Invocation (clone_cmd (mirror_url Sample.TOKEN "bar") (REPOS_SUBDIR // "bar")
                         true false)
             None true 128 "" in
  started (mirror Sample.TOKEN []) Sample.state_unreachable = before ++ i :: [] /\
  returncode i <> 0%Z /\
  ~ unchecked (argv i) /\
  ([] = @nil invocation /\
   exists e, outcome (mirror Sample.TOKEN []) Sample.state_unreachable = Raise e).
Proof.
  intros before i.
  assert (E : started (mirror Sample.TOKEN []) Sample.state_unreachable = before ++ i :: [])
    by (vm_compute; reflexivity).
  assert (Hrc : returncode i <> 0%Z) by discriminate.
  assert (Hex : ~ unchecked (argv i))
    by (intros [H | [[b H] | H]]; discriminate H).
  split; [exact E | split; [exact Hrc | split; [exact Hex |]]].
  exact (failing_process_ends_run Git.world Sample.TOKEN [] Sample.state_unreachable
           before i [] E Hrc Hex).
Defined.

(** C6, witness: the commit of [foo] in the first run on the sample
    world, and a user who has set nothing but [user.name]. *)
Definition plain_user : git_user :=
  GitUser (fun _ => None)
          (fun k => if k =? "user.name" then Some "A. Hacker" else None).

Lemma commits_share_shape_and_data_witness :
  let i := Invocation
             (commit_cmd "Update foo" (CommitData "2020-01-01 00:00:00" "c" "c"))
             (Some (REPOS_SUBDIR // "foo")) true 0 "" in
  In i (started (mirror Sample.TOKEN []) Sample.state0) /\
  is_commit i /\
  (exists summary,
      ((exists package, summary = "Update " ++ package) \/
       summary = "Update mirror list")%string /\
      argv i =
      ["git";
       "-c"; "user.name=GNU ELPA Mirror Bot";
       "-c"; "user.email=emacs-devel@gnu.org";
       "commit"; "-m";
       (summary ++ Str.nl ++ Str.nl
        ++ "Timestamp: " ++ timestamp (commit_data_of Sample.state0) ++ Str.nl
        ++ "GNU ELPA commit: " ++ gnu_elpa_commit (commit_data_of Sample.state0) ++ Str.nl
        ++ "Emacs commit: " ++ emacs_commit (commit_data_of Sample.state0))%string]) /\
  (forall u, leaves_identity_alone u -> commit_identity u (argv i) = bot_identity) /\
  leaves_identity_alone plain_user /\
  commit_identity plain_user (argv i) = bot_identity.
Proof.
  intros i.
  assert (Hin : In i (started (mirror Sample.TOKEN []) Sample.state0)) by in_list.
  assert (Hc : is_commit i) by reflexivity.
  assert (Hu : leaves_identity_alone plain_user) by (split; repeat constructor).
  pose proof (commits_share_shape_and_data Git.world Sample.TOKEN [] Sample.state0 i Hin Hc)
    as [Hshape Hid].
  exact (conj Hin (conj Hc (conj Hshape (conj Hid (conj Hu (Hid plain_user Hu)))))).
Defined.

(** C6, counterexample: a user who has [GIT_AUTHOR_NAME] in the
    environment.  The commit of [foo] in the first run on the sample
    world is made with the command line of the script, and its author
    is that user, not the bot. *)
Definition named_user : git_user :=
  GitUser (fun v => if v =? "GIT_AUTHOR_NAME" then Some "A. Hacker" else None)
          (fun _ => None).

Lemma identity_follows_the_environment :
  In (Invocation (commit_cmd "Update foo" (CommitData "2020-01-01 00:00:00" "c" "c"))
                 (Some (REPOS_SUBDIR // "foo")) true 0 "")
     (started (mirror Sample.TOKEN []) Sample.state0) /\
  is_commit (Invocation (commit_cmd "Update foo" (CommitData "2020-01-01 00:00:00" "c" "c"))
                        (Some (REPOS_SUBDIR // "foo")) true 0 "") /\
  commit_identity named_user
    (commit_cmd "Update foo" (CommitData "2020-01-01 00:00:00" "c" "c")) =
  Identity (Some "A. Hacker") (Some "emacs-devel@gnu.org")
           (Some "GNU ELPA Mirror Bot") (Some "emacs-devel@gnu.org") /\
  commit_identity named_user
    (commit_cmd "Update foo" (CommitData "2020-01-01 00:00:00" "c" "c")) <> bot_identity.
Proof.
  split; [in_list |]. split; [reflexivity |]. split; [reflexivity |]. discriminate.
Qed.

(** ** Claims about the files *)

Section FileClaims.

Variable X : Type.

(** *** C8 *)

(** C8: on a real directory [delete_contents] ends normally and leaves
    in it the entries named [.git] and nothing else: files, links and
    whole subdirectories are gone, and nothing apart from the directory
    is touched, so what a link points to stays.  A link is removed as
    one entry, by [unlink], whatever it points to; and an entry that is
    no longer there when its turn comes, for which [unlink] raises
    [FileNotFoundError], is passed over. *)
Theorem delete_contents_keeps_only_git (s : state X) d cur :
  get (fs s) d = Some (Dir cur) ->
  outcome (delete_contents d) s = Ok tt /\
  get (fs (final (delete_contents d) s)) d = Some (Dir (filter is_dot_git cur)) /\
  untouched_outside d (fs s) (fs (final (delete_contents d) s)) /\
  (forall k t, assoc k cur = Some (Symlink t) -> k <> ".git" ->
     delete_entry (d // k) s = (Ok tt, set_fs s (put (fs s) (d // k) None))) /\
  (forall k, assoc k cur = None ->
     unlink (d // k) s = (Raise (FileNotFoundError (d // k)), s) /\
     delete_entry (d // k) s = (Ok tt, s)).
Proof.
  intros Hd.
  destruct (delete_contents_spec X s d cur Hd) as (s' & E & Hdir & Hout & _).
  unfold outcome, final. rewrite E. simpl.
  split; [reflexivity | split; [assumption | split; [assumption | split]]].
  - intros k t Hk Hne. unfold delete_entry. rewrite name_div.
    destruct (String.eqb_spec k ".git"); [contradiction |].
    unfold bind, is_dir, is_symlink, catch.
    rewrite (fs_is_symlink_child _ _ _ k Hd), Hk, Bool.andb_false_r.
    unfold unlink. now rewrite (lstat_child _ _ _ k Hd), Hk.
  - intros k Hk.
    assert (Hu : unlink (d // k) s = (Raise (FileNotFoundError (d // k)), s))
      by (unfold unlink;
          now rewrite (lstat_child _ _ _ k Hd), Hk, (missing_error_child _ _ _ k Hd)).
    split; [assumption |].
    unfold delete_entry. rewrite name_div.
    destruct (k =? ".git")%string; [reflexivity |].
    unfold bind, is_dir, is_symlink, catch.
    rewrite (fs_is_symlink_child _ _ _ k Hd), Hk.
    rewrite (fs_is_dir_child _ _ _ k Hd) by (rewrite Hk; discriminate).
    rewrite Hk. simpl. now rewrite Hu.
Qed.

(** *** C7 *)

(** C7: when the packages directory can be listed, the list [packages]
    holds exactly the names of its entries that are directories (as
    [is_dir] tells, so also through a link) other than
    [gnu-elpa-mirror].  That name is never in the list, nor is the name
    of a regular file; a real subdirectory with another name always is. *)
Theorem packages_are_the_subdirectories (s : state X) loc cur :
  stat (fs s) GNU_ELPA_PACKAGES_SUBDIR = Some (loc, Some (Dir cur)) ->
  exists packages,
    enumerate_packages s = (Ok packages, s) /\
    (forall k,
        In k packages <->
        In k (map fst cur) /\
        fs_is_dir (fs s) (GNU_ELPA_PACKAGES_SUBDIR // k) = true /\
        k <> "gnu-elpa-mirror") /\
    ~ In "gnu-elpa-mirror" packages /\
    (forall k data,
        get (fs s) (GNU_ELPA_PACKAGES_SUBDIR // k) = Some (File data) ->
        ~ In k packages) /\
    (forall k sub,
        get (fs s) (GNU_ELPA_PACKAGES_SUBDIR // k) = Some (Dir sub) ->
        k <> "gnu-elpa-mirror" -> In k packages).
Proof.
  intros Hstat.
  destruct (sorted_children GNU_ELPA_PACKAGES_SUBDIR (map fst cur)) as (names & _ & Es & HP).
  assert (E : enumerate_packages s =
              (Ok (filter (fun k => (fs_is_dir (fs s) (GNU_ELPA_PACKAGES_SUBDIR // k) &&
                                     negb (reserved k))%bool) names), s)).
  { unfold enumerate_packages. unfold bind at 1. unfold iterdir. rewrite Hstat.
    rewrite <- map_map, Es. now rewrite enumerate_loop. }
  assert (Hiff : forall k,
             In k (filter (fun k => (fs_is_dir (fs s) (GNU_ELPA_PACKAGES_SUBDIR // k) &&
                                     negb (reserved k))%bool) names) <->
             In k (map fst cur) /\
             fs_is_dir (fs s) (GNU_ELPA_PACKAGES_SUBDIR // k) = true /\
             k <> "gnu-elpa-mirror").
  { intros k. rewrite filter_In, Bool.andb_true_iff, Bool.negb_true_iff.
    unfold reserved. rewrite String.eqb_neq.
    split; intros [Hin Hrest]; (split; [| exact Hrest]).
    - apply (Permutation_in _ (Permutation_sym HP) Hin).
    - apply (Permutation_in _ HP Hin). }
  eexists. split; [exact E |]. split; [exact Hiff |]. split; [| split].
  - intros Hin. apply Hiff in Hin. now destruct Hin as (_ & _ & Hne).
  - intros k data Hget Hin. apply Hiff in Hin. destruct Hin as (_ & Hd & _).
    unfold fs_is_dir, stat in Hd.
    rewrite (walk_get _ _ _ (GNU_ELPA_PACKAGES_SUBDIR // k) [] (File data) Hget
               (or_intror eq_refl)) in Hd.
    discriminate.
  - intros k sub Hget Hne. apply Hiff.
    assert (Hp : exists es, get (fs s) GNU_ELPA_PACKAGES_SUBDIR = Some (Dir es) /\
                            assoc k es = Some (Dir sub)).
    { unfold div in Hget. rewrite get_app in Hget.
      destruct (get (fs s) GNU_ELPA_PACKAGES_SUBDIR) as [[x | t | es] |];
        try discriminate.
      exists es. split; [reflexivity |]. simpl in Hget.
      now destruct (assoc k es). }
    destruct Hp as (es & Hes & Hk).
    rewrite (stat_dir _ _ _ Hes) in Hstat. injection Hstat as _ <-.
    split; [| split; [| assumption]].
    + apply assoc_In in Hk. now apply (in_map fst) in Hk.
    + unfold fs_is_dir, stat.
      now rewrite (walk_get _ _ _ (GNU_ELPA_PACKAGES_SUBDIR // k) [] (Dir sub) Hget
                     (or_intror eq_refl)).
Qed.

(** *** The files of the mirror list *)

(** On a real directory, and for package names other than [.git], the
    update of the mirror list ends normally and leaves in the
    directory, [.git] apart, exactly one empty file per package: every
    name of the list is an empty file and no other name is there.  What
    [.git] holds is kept and nothing apart from the directory is
    touched. *)
Lemma write_mirror_list_files (s : state X) d cur packages :
  get (fs s) d = Some (Dir cur) ->
  ~ In ".git" packages ->
  outcome (write_mirror_list d packages) s = Ok tt /\
  (forall k, k <> ".git" ->
     get (fs (final (write_mirror_list d packages) s)) (d // k) =
     if Str.mem k packages then Some (File "") else None) /\
  get (fs (final (write_mirror_list d packages) s)) (d // ".git") = get (fs s) (d // ".git") /\
  untouched_outside d (fs s) (fs (final (write_mirror_list d packages) s)).
Proof.
  intros Hd Hgit.
  destruct (write_mirror_list_spec X s d cur packages Hd Hgit)
    as (s' & cur' & E & (Hd' & Hout & _) & Hassoc & _).
  unfold outcome, final. rewrite E. simpl.
  split; [reflexivity | split; [| split; [| assumption]]].
  - intros k Hk. rewrite (get_child _ _ _ k Hd'), Hassoc.
    destruct (Str.mem k packages); [reflexivity |].
    now destruct (String.eqb_spec k ".git").
  - rewrite (get_child _ _ _ ".git" Hd'), (get_child _ _ _ ".git" Hd), Hassoc.
    destruct (Str.mem ".git" packages) eqn:Em; [| reflexivity].
    apply mem_In in Em. contradiction.
Qed.

(** *** C1 *)

(** C1, as amended: for a package whose directory holds no symbolic link
    (its own [.git] apart), the copy into the mirror ends normally and
    then every name other than [.git] holds in the mirror exactly what
    it holds in the package, a missing name being missing in both; the
    mirror keeps its [.git] and the package is untouched.  A link is not
    kept as a link: where a top-level entry of the package is a link to
    a regular file, its copy is a regular file with the contents of that
    file. *)
Theorem copy_package_mirrors_link_free_package (s : state X) package src_es dst_es :
  get (fs s) (GNU_ELPA_PACKAGES_SUBDIR // package) = Some (Dir src_es) ->
  get (fs s) (REPOS_SUBDIR // package) = Some (Dir dst_es) ->
  NoDup (map fst src_es) ->
  (forall k n, assoc k src_es = Some n -> k <> ".git" -> links_free n = true) ->
  (outcome (copy_package (GNU_ELPA_PACKAGES_SUBDIR // package) (REPOS_SUBDIR // package)) s
   = Ok tt /\
   (forall k, k <> ".git" ->
      get (fs (final (copy_package (GNU_ELPA_PACKAGES_SUBDIR // package)
                        (REPOS_SUBDIR // package)) s))
          (REPOS_SUBDIR // package // k) =
      get (fs s) (GNU_ELPA_PACKAGES_SUBDIR // package // k)) /\
   get (fs (final (copy_package (GNU_ELPA_PACKAGES_SUBDIR // package)
                     (REPOS_SUBDIR // package)) s))
       (REPOS_SUBDIR // package // ".git") =
   get (fs s) (REPOS_SUBDIR // package // ".git") /\
   get (fs (final (copy_package (GNU_ELPA_PACKAGES_SUBDIR // package)
                     (REPOS_SUBDIR // package)) s))
       (GNU_ELPA_PACKAGES_SUBDIR // package) =
   get (fs s) (GNU_ELPA_PACKAGES_SUBDIR // package)) /\
  (forall (s' : state X) cur k from data,
      get (fs s') (REPOS_SUBDIR // package) = Some (Dir cur) ->
      assoc k cur = None ->
      k <> ".git" ->
      fs_is_symlink (fs s') (GNU_ELPA_PACKAGES_SUBDIR // package // k) = true ->
      stat (fs s') (GNU_ELPA_PACKAGES_SUBDIR // package // k) = Some (from, Some (File data)) ->
      copy_entry (REPOS_SUBDIR // package) (GNU_ELPA_PACKAGES_SUBDIR // package // k) s' =
      (Ok tt, set_fs s' (put (fs s') (REPOS_SUBDIR // package // k) (Some (File data))))).
Proof.
  intros Hsrc Hdst Hnodup Hlinks.
  assert (Hapart : apart (REPOS_SUBDIR // package) (GNU_ELPA_PACKAGES_SUBDIR // package) = true)
    by reflexivity.
  split.
  - destruct (copy_package_spec X s _ _ src_es dst_es Hsrc Hdst Hapart Hnodup Hlinks)
      as (s' & cur' & E & (Hd' & Hout & _) & Hassoc & _).
    unfold outcome, final. rewrite E. cbn [fst snd].
    split; [reflexivity | split; [| split]].
    + intros k Hk. rewrite (get_child _ _ _ k Hd'), (get_child _ _ _ k Hsrc), Hassoc.
      now destruct (String.eqb_spec k ".git").
    + now rewrite (get_child _ _ _ ".git" Hd'), (get_child _ _ _ ".git" Hdst), Hassoc.
    + now apply Hout.
  - intros s' cur k from data Hd Hfree Hne Hlink Hstat.
    unfold copy_entry. rewrite name_div.
    destruct (String.eqb_spec k ".git"); [contradiction |].
    unfold bind, is_dir, is_symlink. rewrite Hlink, Bool.andb_false_r.
    unfold copyfile. rewrite Hstat.
    rewrite (stat_child _ _ _ k Hd) by (rewrite Hfree; discriminate).
    now rewrite Hfree.
Qed.

End FileClaims.

(** C8, witness: a mirror directory with a stale file, a directory and a
    link. *)
Lemma delete_contents_keeps_only_git_witness :
  get (fs Sample.cluttered) ["repos"; "foo"] = Some (Dir Sample.cluttered_mirror) /\
  (outcome (delete_contents ["repos"; "foo"]) Sample.cluttered = Ok tt /\
   get (fs (final (delete_contents ["repos"; "foo"]) Sample.cluttered)) ["repos"; "foo"] =
   Some (Dir (filter is_dot_git Sample.cluttered_mirror)) /\
   untouched_outside ["repos"; "foo"] (fs Sample.cluttered)
     (fs (final (delete_contents ["repos"; "foo"]) Sample.cluttered)) /\
   (forall k t, assoc k Sample.cluttered_mirror = Some (Symlink t) -> k <> ".git" ->
      delete_entry (["repos"; "foo"] // k) Sample.cluttered =
      (Ok tt, set_fs Sample.cluttered
                (put (fs Sample.cluttered) (["repos"; "foo"] // k) None))) /\
   (forall k, assoc k Sample.cluttered_mirror = None ->
      unlink (["repos"; "foo"] // k) Sample.cluttered =
      (Raise (FileNotFoundError (["repos"; "foo"] // k)), Sample.cluttered) /\
      delete_entry (["repos"; "foo"] // k) Sample.cluttered = (Ok tt, Sample.cluttered))).
Proof.
  split; [reflexivity |].
  exact (delete_contents_keeps_only_git unit Sample.cluttered ["repos"; "foo"]
           Sample.cluttered_mirror eq_refl).
Defined.

(** C7, witness: the packages directory after the first run on the
    sample world. *)
Lemma packages_are_the_subdirectories_witness :
  stat (fs Sample.state1) GNU_ELPA_PACKAGES_SUBDIR =
  Some (GNU_ELPA_PACKAGES_SUBDIR, Some (Dir Sample.packages_dir)) /\
  exists packages,
    enumerate_packages Sample.state1 = (Ok packages, Sample.state1) /\
    (forall k,
        In k packages <->
        In k (map fst Sample.packages_dir) /\
        fs_is_dir (fs Sample.state1) (GNU_ELPA_PACKAGES_SUBDIR // k) = true /\
        k <> "gnu-elpa-mirror") /\
    ~ In "gnu-elpa-mirror" packages /\
    (forall k data,
        get (fs Sample.state1) (GNU_ELPA_PACKAGES_SUBDIR // k) = Some (File data) ->
        ~ In k packages) /\
    (forall k sub,
        get (fs Sample.state1) (GNU_ELPA_PACKAGES_SUBDIR // k) = Some (Dir sub) ->
        k <> "gnu-elpa-mirror" -> In k packages).
Proof.
  split; [vm_compute; reflexivity |].
  exact (packages_are_the_subdirectories Git.world Sample.state1
           GNU_ELPA_PACKAGES_SUBDIR Sample.packages_dir eq_refl).
Defined.

(** C1, counterexample: [alias.el] is a link in the package and a
    regular file, with the contents of [foo.el], in the mirror. *)
Lemma link_is_copied_as_file :
  get (fs Sample.linked) (GNU_ELPA_PACKAGES_SUBDIR // "foo" // "alias.el") =
  Some (Symlink ["gnu-elpa"; "packages"; "foo"; "foo.el"]) /\
  outcome (copy_package (GNU_ELPA_PACKAGES_SUBDIR // "foo") (REPOS_SUBDIR // "foo"))
          Sample.linked = Ok tt /\
  get (fs (final (copy_package (GNU_ELPA_PACKAGES_SUBDIR // "foo") (REPOS_SUBDIR // "foo"))
                 Sample.linked))
      (REPOS_SUBDIR // "foo" // "alias.el") =
  Some (File "(provide 'foo)").
Proof. repeat split. Qed.

(** C1, witness of the amended claim: the package [bar], which holds a
    subdirectory, copied over a mirror that is out of date. *)
Lemma copy_package_mirrors_link_free_package_witness :
  get (fs Sample.unsynced) (GNU_ELPA_PACKAGES_SUBDIR // "bar") = Some (Dir Sample.bar) /\
  get (fs Sample.unsynced) (REPOS_SUBDIR // "bar") = Some (Dir Sample.cluttered_mirror) /\
  NoDup (map fst Sample.bar) /\
  (forall k n, assoc k Sample.bar = Some n -> k <> ".git" -> links_free n = true) /\
  outcome (copy_package (GNU_ELPA_PACKAGES_SUBDIR // "bar") (REPOS_SUBDIR // "bar"))
          Sample.unsynced = Ok tt /\
  (forall k, k <> ".git" ->
     get (fs (final (copy_package (GNU_ELPA_PACKAGES_SUBDIR // "bar") (REPOS_SUBDIR // "bar"))
                    Sample.unsynced))
         (REPOS_SUBDIR // "bar" // k) =
     get (fs Sample.unsynced) (GNU_ELPA_PACKAGES_SUBDIR // "bar" // k)).
Proof.
  assert (Hnodup : NoDup (map fst Sample.bar)).
  { repeat constructor; simpl; intuition discriminate. }
  assert (Hlinks : forall k n, assoc k Sample.bar = Some n -> k <> ".git" ->
                               links_free n = true).
  { intros k n Hk _. now apply (links_free_assoc Sample.bar k n). }
  split; [reflexivity | split; [reflexivity | split; [exact Hnodup | split; [exact Hlinks |]]]].
  destruct (copy_package_mirrors_link_free_package unit Sample.unsynced "bar"
              Sample.bar Sample.cluttered_mirror eq_refl eq_refl Hnodup Hlinks)
    as [[Hok [Hsame _]] _].
  exact (conj Hok Hsame).
Defined.


(** ** Processes on the reference model *)

(** The state after a process that left the files [f] and the world
    [w]. *)
Definition record (s : state Git.world) (f : node) (w : Git.world) (i : invocation)
  : state Git.world :=
  State f w (stderr s) (trace s ++ [i]).

Lemma fs_is_dir_real f d es : get f d = Some (Dir es) -> fs_is_dir f d = true.
Proof. intros H. unfold fs_is_dir. now rewrite (stat_dir _ _ _ H). Qed.

Lemma subprocess_run_eq cmd d chk (s : state Git.world) rc out f w :
  fs_is_dir (fs s) d = true ->
  Git.run cmd (Some d) (fs s) (world s) = (rc, out, f, w) ->
  subprocess_run cmd (Some d) chk s =
  if (chk && negb (rc =? 0)%Z)%bool
  then (Raise (CalledProcessError rc cmd), record s f w (Invocation cmd (Some d) chk rc out))
  else (Ok (Invocation cmd (Some d) chk rc out),
        record s f w (Invocation cmd (Some d) chk rc out)).
Proof.
  intros Hd Hrun. unfold subprocess_run. rewrite Hd. simpl. now rewrite Hrun.
Qed.

Lemma subprocess_run_inv cmd d chk (s : state Git.world) i s' :
  subprocess_run cmd (Some d) chk s = (Ok i, s') ->
  fs_is_dir (fs s) d = true /\
  exists rc out f w,
    Git.run cmd (Some d) (fs s) (world s) = (rc, out, f, w) /\
    i = Invocation cmd (Some d) chk rc out /\
    s' = record s f w i /\
    (chk = true -> rc = 0%Z).
Proof.
  unfold subprocess_run.
  destruct (fs_is_dir (fs s) d); simpl; [| discriminate].
  destruct (Git.run cmd (Some d) (fs s) (world s)) as [[[rc out] f] w].
  destruct (chk && negb (rc =? 0)%Z)%bool eqn:E; [discriminate |].
  intros H. injection H as <- <-. split; [reflexivity |].
  exists rc, out, f, w. repeat split.
  intros ->. simpl in E. apply Bool.negb_false_iff in E. now apply Z.eqb_eq.
Qed.

(** A command that runs inside a repository finds it by its working
    directory. *)
Definition runs_inside (c : Git.command) : bool :=
  match c with
  | Git.CmdClone _ _ _ | Git.CmdMake | Git.CmdUnknown => false
  | _ => true
  end.

Lemma run_inside cmd d f w :
  runs_inside (Git.parse cmd) = true ->
  Git.run cmd (Some d) f w =
  match find_path d (Git.locals w) with
  | Some r => Git.inside (Git.parse cmd) d r f w
  | None => Git.fail 128 f w
  end.
Proof. unfold Git.run. now destruct (Git.parse cmd). Qed.

(** ** A tidy packages directory *)

Lemma distinct_NoDup l : distinct l = true -> NoDup l.
Proof.
  induction l as [| k l IH]; simpl; intros H; constructor;
    apply Bool.andb_true_iff in H as [Hk Hl].
  - apply Bool.negb_true_iff in Hk. now apply mem_false.
  - now apply IH.
Qed.

Lemma tidy_entry pk k n :
  tidy_packages pk = true -> assoc k pk = Some n ->
  valid_name k = true /\ k <> ".git" /\ tidy_package n = true.
Proof.
  intros H Hk. apply Bool.andb_true_iff in H as [_ H].
  rewrite forallb_forall in H. specialize (H (k, n) (assoc_In _ _ _ Hk)).
  cbn [fst snd] in H. apply Bool.andb_true_iff in H as [H Hn].
  apply Bool.andb_true_iff in H as [Hv Hg].
  apply Bool.negb_true_iff, String.eqb_neq in Hg. auto.
Qed.

Lemma tidy_no_link pk k t : tidy_packages pk = true -> assoc k pk <> Some (Symlink t).
Proof. intros H Hk. now destruct (tidy_entry _ _ _ H Hk) as (_ & _ & Ht). Qed.

Lemma tidy_source pk p src :
  tidy_packages pk = true -> assoc p pk = Some (Dir src) ->
  NoDup (map fst src) /\
  forall k n, assoc k src = Some n -> k <> ".git" -> links_free n = true.
Proof.
  intros H Hp. destruct (tidy_entry _ _ _ H Hp) as (_ & _ & Ht).
  cbn [tidy_package] in Ht. apply Bool.andb_true_iff in Ht as [Hd Hl].
  split; [now apply distinct_NoDup |].
  intros k n Hk Hne. apply (links_free_assoc _ k n Hl).
  rewrite assoc_remove_neq; [assumption | congruence].
Qed.

Lemma listing_perm d es : Permutation (map fst es) (listing d es).
Proof.
  destruct (sorted_children d (map fst es)) as (names & En & _ & HP).
  unfold listing. now rewrite <- En.
Qed.

Lemma packages_of_spec pk p :
  tidy_packages pk = true -> In p (packages_of pk) ->
  exists src, assoc p pk = Some (Dir src) /\ p <> "gnu-elpa-mirror" /\
              valid_name p = true /\ p <> ".git".
Proof.
  intros H Hin. apply filter_In in Hin as [_ Hp].
  destruct (assoc p pk) as [[x | t | src] |] eqn:E; try discriminate.
  destruct (tidy_entry _ _ _ H E) as (Hv & Hg & _).
  exists src. split; [reflexivity |]. split; [| now split].
  apply Bool.negb_true_iff in Hp. now apply String.eqb_neq.
Qed.

Lemma packages_of_NoDup pk : tidy_packages pk = true -> NoDup (packages_of pk).
Proof.
  intros H. apply NoDup_filter.
  apply (Permutation_NoDup (listing_perm GNU_ELPA_PACKAGES_SUBDIR pk)).
  apply distinct_NoDup. now apply Bool.andb_true_iff in H as [H _].
Qed.

Lemma mirrors_of_NoDup pk : tidy_packages pk = true -> NoDup (mirrors_of pk).
Proof.
  intros H. unfold mirrors_of. apply NoDup_app.
  - now apply packages_of_NoDup.
  - repeat constructor. intros [].
  - intros p Hp [<- | []]. destruct (packages_of_spec _ _ H Hp) as (_ & _ & Hne & _).
    now apply Hne.
Qed.

Lemma enumerate_tidy X (s : state X) pk :
  get (fs s) GNU_ELPA_PACKAGES_SUBDIR = Some (Dir pk) ->
  tidy_packages pk = true ->
  enumerate_packages s = (Ok (packages_of pk), s).
Proof.
  intros Hpk H.
  destruct (sorted_children GNU_ELPA_PACKAGES_SUBDIR (map fst pk)) as (names & En & Es & _).
  unfold enumerate_packages. unfold bind at 1. unfold iterdir.
  rewrite (stat_dir _ _ _ Hpk), <- map_map, Es, enumerate_loop.
  cbn [app]. f_equal. f_equal. unfold packages_of, listing. rewrite <- En.
  apply filter_ext. intros k.
  rewrite (fs_is_dir_child _ _ _ k Hpk) by (intros t; now apply tidy_no_link).
  now destruct (assoc k pk) as [[x | t | src] |].
Qed.

(** ** What a step on one mirror leaves alone *)

Section Mirrors.

Variable tok : string.
Variable tool : Git.tool.

(** [repos] is a real directory, no entry of it is a link, every
    repository below it was cloned from the URL of its name, and Git
    treats working trees as [tool] says. *)
Definition fine (s : state Git.world) : Prop :=
  (exists rs, get (fs s) REPOS_SUBDIR = Some (Dir rs)) /\
  (forall k t, get (fs s) (REPOS_SUBDIR // k) <> Some (Symlink t)) /\
  (forall k r, find_path (REPOS_SUBDIR // k) (Git.locals (world s)) = Some r ->
               Git.url r = mirror_url tok k) /\
  Git.git (world s) = tool.

(** A step on the mirror of [p]: the files apart from its directory, the
    other repositories and the other remotes are as they were, GitHub
    lost no repository, the mirrors are still [fine], and the trace has
    grown at its end. *)
Definition touches (p : string) (s s' : state Git.world) : Prop :=
  untouched_outside (REPOS_SUBDIR // p) (fs s) (fs s') /\
  (forall d, d <> REPOS_SUBDIR // p ->
     find_path d (Git.locals (world s')) = find_path d (Git.locals (world s))) /\
  (forall u, u <> mirror_url tok p ->
     find_string u (Git.remotes (world s')) = find_string u (Git.remotes (world s))) /\
  (forall k, Str.mem k (Git.hub (world s)) = true ->
             Str.mem k (Git.hub (world s')) = true) /\
  (fine s -> fine s') /\
  (exists l, trace s' = trace s ++ l) /\
  Git.git (world s') = Git.git (world s).

Lemma touches_refl p s : touches p s s.
Proof.
  split; [apply untouched_refl |].
  split; [reflexivity |]. split; [reflexivity |]. split; [auto |].
  split; [auto |]. split; [| reflexivity]. exists []. now rewrite app_nil_r.
Qed.

Lemma touches_trans p s t u : touches p s t -> touches p t u -> touches p s u.
Proof.
  intros (H1 & H2 & H3 & H4 & H5 & (l1 & H6) & H7) (K1 & K2 & K3 & K4 & K5 & (l2 & K6) & K7).
  split; [eapply untouched_trans; eassumption |].
  split; [intros d Hd; now rewrite K2, H2 |].
  split; [intros v Hv; now rewrite K3, H3 |].
  split; [auto |]. split; [auto |]. split; [| congruence].
  exists (l1 ++ l2). now rewrite K6, H6, app_assoc.
Qed.

Lemma touches_same p (s s' : state Git.world) :
  fs s' = fs s -> world s' = world s -> trace s' = trace s -> touches p s s'.
Proof.
  intros Hf Hw Htr. unfold touches, fine. rewrite Hf, Hw, Htr.
  split; [apply untouched_refl |].
  split; [reflexivity |]. split; [reflexivity |]. split; [auto |].
  split; [auto |]. split; [| reflexivity]. exists []. now rewrite app_nil_r.
Qed.

Lemma repo_inj k p : REPOS_SUBDIR // k = REPOS_SUBDIR // p -> k = p.
Proof. unfold div. intros H. apply app_inj_tail in H. tauto. Qed.

Lemma get_parent f d k n :
  get f (d // k) = Some n -> exists es, get f d = Some (Dir es) /\ assoc k es = Some n.
Proof.
  unfold div. rewrite get_app.
  destruct (get f d) as [[x | t | es] |]; try discriminate.
  intros H. exists es. split; [reflexivity |]. simpl in H.
  now destruct (assoc k es).
Qed.

Lemma touches_intro p (s s' : state Git.world) :
  Git.git (world s') = Git.git (world s) ->
  untouched_outside (REPOS_SUBDIR // p) (fs s) (fs s') ->
  (fs s' = fs s \/ exists es, get (fs s') (REPOS_SUBDIR // p) = Some (Dir es)) ->
  (forall d, d <> REPOS_SUBDIR // p ->
     find_path d (Git.locals (world s')) = find_path d (Git.locals (world s))) ->
  (forall u, u <> mirror_url tok p ->
     find_string u (Git.remotes (world s')) = find_string u (Git.remotes (world s))) ->
  (forall k, Str.mem k (Git.hub (world s)) = true ->
             Str.mem k (Git.hub (world s')) = true) ->
  (fine s -> forall r, find_path (REPOS_SUBDIR // p) (Git.locals (world s')) = Some r ->
                       Git.url r = mirror_url tok p) ->
  (exists l, trace s' = trace s ++ l) ->
  touches p s s'.
Proof.
  intros Hgit Hout Hfs Hloc Hrem Hhub Hurl Htr.
  split; [assumption |]. split; [assumption |]. split; [assumption |].
  split; [assumption |]. split; [| now split].
  intros (Hrs & Hlink & Hu & Htool). split; [| split; [| split]].
  - destruct Hfs as [-> | (es & Hes)]; [assumption |].
    apply get_parent in Hes as (rs & Hrs' & _). now exists rs.
  - intros k t. destruct (string_dec k p) as [-> | Hne].
    + destruct Hfs as [-> | (es & ->)]; [apply Hlink | discriminate].
    + rewrite Hout by (apply apart_siblings; congruence). apply Hlink.
  - intros k r Hr. destruct (string_dec k p) as [-> | Hne].
    + apply Hurl; [| assumption]. now repeat split.
    + apply Hu. rewrite <- Hloc; [assumption |].
      intros E. apply repo_inj in E. contradiction.
  - now rewrite Hgit.
Qed.

Lemma touches_dir_step p cur' (s s' : state Git.world) :
  dir_step (REPOS_SUBDIR // p) cur' s s' -> touches p s s'.
Proof.
  intros (Hd & Hout & Hw & _ & Htr).
  apply touches_intro; try (rewrite Hw; auto; fail); [assumption | | |].
  - right. now exists cur'.
  - intros (_ & _ & Hu & _) r. rewrite Hw. apply Hu.
  - exists []. now rewrite app_nil_r.
Qed.

Lemma fine_real_dir (s : state Git.world) p :
  fine s -> fs_is_dir (fs s) (REPOS_SUBDIR // p) = true ->
  exists es, get (fs s) (REPOS_SUBDIR // p) = Some (Dir es).
Proof.
  intros ((rs & Hrs) & Hlink & _) Hd.
  assert (Hp : forall t, assoc p rs <> Some (Symlink t)).
  { intros t. rewrite <- (get_child _ _ _ p Hrs). apply Hlink. }
  rewrite (fs_is_dir_child _ _ _ p Hrs Hp) in Hd.
  rewrite (get_child _ _ _ p Hrs).
  destruct (assoc p rs) as [[x | t | es] |]; try discriminate. now exists es.
Qed.

Lemma fine_missing (s : state Git.world) p :
  fine s -> fs_is_dir (fs s) (REPOS_SUBDIR // p) = false ->
  forall es, get (fs s) (REPOS_SUBDIR // p) <> Some (Dir es).
Proof.
  intros _ Hd es Hes. now rewrite (fs_is_dir_real _ _ _ Hes) in Hd.
Qed.

Lemma get_put_repo f p rs n :
  get f REPOS_SUBDIR = Some (Dir rs) ->
  get (put f (REPOS_SUBDIR // p) (Some n)) (REPOS_SUBDIR // p) = Some n.
Proof.
  intros Hrs.
  rewrite (get_child _ _ _ p (get_put_child _ _ _ p (Some n) Hrs)).
  apply assoc_set_eq.
Qed.

(** The mirror of [p]: its directory holds [es], its repository is [r],
    cloned from the URL of [p], behind which the remote holds [h]. *)
Definition at_repo (p : string) (r : Git.repository) (es : entries_t)
    (h : option (list Git.commit)) (s : state Git.world) : Prop :=
  get (fs s) (REPOS_SUBDIR // p) = Some (Dir es) /\
  find_path (REPOS_SUBDIR // p) (Git.locals (world s)) = Some r /\
  Git.url r = mirror_url tok p /\
  find_string (mirror_url tok p) (Git.remotes (world s)) = h /\
  Git.git (world s) = tool.

Lemma after_step p (s : state Git.world) rs es' r' h' f' w' :
  Git.git (world s) = tool ->
  Git.git w' = tool ->
  get (fs s) REPOS_SUBDIR = Some (Dir rs) ->
  (f' = fs s /\ get (fs s) (REPOS_SUBDIR // p) = Some (Dir es') \/
   f' = put (fs s) (REPOS_SUBDIR // p) (Some (Dir es'))) ->
  (Git.locals w' = Git.locals (world s) /\
   find_path (REPOS_SUBDIR // p) (Git.locals (world s)) = Some r' \/
   Git.locals w' = store_path (REPOS_SUBDIR // p) r' (Git.locals (world s))) ->
  Git.url r' = mirror_url tok p ->
  (Git.remotes w' = Git.remotes (world s) /\
   find_string (mirror_url tok p) (Git.remotes (world s)) = h' \/
   exists v, Git.remotes w' = store_string (mirror_url tok p) v (Git.remotes (world s)) /\
             h' = Some v) ->
  Git.hub w' = Git.hub (world s) ->
  forall i, at_repo p r' es' h' (record s f' w' i) /\ touches p s (record s f' w' i).
Proof.
  intros Hgit Hgit' Hrs Hf Hl Hu Hr Hh i.
  assert (Hes : get f' (REPOS_SUBDIR // p) = Some (Dir es')).
  { destruct Hf as [[-> H] | ->]; [assumption | now apply get_put_repo with (rs := rs)]. }
  assert (Hfind : find_path (REPOS_SUBDIR // p) (Git.locals w') = Some r').
  { destruct Hl as [[-> H] | ->]; [assumption | apply find_store_path_eq]. }
  split.
  - unfold at_repo, record. cbn [fs world].
    split; [assumption |]. split; [assumption |]. split; [assumption |].
    split; [| assumption].
    destruct Hr as [[-> H] | (v & -> & ->)]; [assumption | apply find_store_string_eq].
  - apply touches_intro; unfold record; cbn [fs world].
    + congruence.
    + destruct Hf as [[-> _] | ->]; [apply untouched_refl |].
      intros q Hq. now apply get_put_apart.
    + right. now exists es'.
    + intros d Hd. destruct Hl as [[-> _] | ->]; [reflexivity |].
      apply find_store_path_neq. congruence.
    + intros u Hne. destruct Hr as [[-> _] | (v & -> & _)]; [reflexivity |].
      apply find_store_string_neq. congruence.
    + now rewrite Hh.
    + intros _ r0 Hr0. rewrite Hfind in Hr0. now injection Hr0 as <-.
    + cbn [trace]. now exists [i].
Qed.

(** What a command does to the mirror it runs in: its exit status and
    output, the directory, the repository and the remote it leaves. *)
Definition effect (c : Git.command) (r : Git.repository) (es : entries_t)
    (h : option (list Git.commit))
  : option (Z * string * entries_t * Git.repository * option (list Git.commit)) :=
  match c with
  | Git.CmdSymbolicRef =>
      Some (0%Z, ("refs/heads/" ++ Git.branch r ++ Str.nl)%string, es, r, h)
  | Git.CmdFetch =>
      match h with
      | Some h0 =>
          Some (0%Z, "", es,
                Git.Repository (Git.branch r) (Git.history r) (Git.index r)
                               (option_map (fun _ => h0) (Git.origin r)) (Git.url r),
                h)
      | None => Some (128%Z, "", es, r, h)
      end
  | Git.CmdShowRef ref =>
      match Git.on_remote r ref with
      | Some o => Some (0%Z, (Git.hash o ++ " " ++ ref ++ Str.nl)%string, es, r, h)
      | None => Some (1%Z, "", es, r, h)
      end
  | Git.CmdReset ref =>
      match Git.on_remote r ref with
      | Some o =>
          let t := Git.tip o in
          Some (0%Z, "",
                filter (fun e => fst e =? ".git")%string es ++
                Git.checkout tool (Git.index r) t (remove_entry ".git" es),
                Git.Repository (Git.branch r) o t (Git.origin r) (Git.url r),
                h)
      | None => Some (128%Z, "", es, r, h)
      end
  | Git.CmdAdd =>
      Some (0%Z, "", es,
            Git.Repository (Git.branch r) (Git.history r)
                           (Git.stage tool (remove_entry ".git" es))
                           (Git.origin r) (Git.url r),
            h)
  | Git.CmdDiff =>
      if entries_eqb (Git.index r) (Git.tip (Git.history r))
      then Some (0%Z, "", es, r, h)
      else Some (1%Z, "", es, r, h)
  | Git.CmdCommit msg =>
      if entries_eqb (Git.index r) (Git.tip (Git.history r))
      then Some (1%Z, "", es, r, h)
      else
        Some (0%Z, "", es,
              Git.Repository (Git.branch r) (Git.Commit msg (Git.index r) :: Git.history r)
                             (Git.index r) (Git.origin r) (Git.url r),
              h)
  | Git.CmdPush =>
      match h with
      | Some h0 =>
          if ((Git.branch r =? "master") && negb (is_nil (Git.history r)) &&
              Git.extends (Git.history r) h0)%bool
          then
            Some (0%Z, "", es,
                  Git.Repository (Git.branch r) (Git.history r) (Git.index r)
                                 (option_map (fun _ => Git.history r) (Git.origin r))
                                 (Git.url r),
                  Some (Git.history r))
          else Some (1%Z, "", es, r, h)
      | None => Some (128%Z, "", es, r, h)
      end
  | _ => None
  end.

Lemma effect_inside c : forall r es h x, effect c r es h = Some x -> runs_inside c = true.
Proof. destruct c; simpl; intros; try discriminate; reflexivity. Qed.

(** The reference model does to the mirror what [effect] says and
    leaves the other mirrors alone. *)
Lemma run_at cmd p r es h (s : state Git.world) rc out es' r' h' :
  at_repo p r es h s ->
  effect (Git.parse cmd) r es h = Some (rc, out, es', r', h') ->
  exists f' w',
    Git.run cmd (Some (REPOS_SUBDIR // p)) (fs s) (world s) = (rc, out, f', w') /\
    forall i, at_repo p r' es' h' (record s f' w' i) /\ touches p s (record s f' w' i).
Proof.
  intros (Hes & Hr & Hu & Hh & Hgit) He.
  destruct (get_parent _ _ _ _ Hes) as (rs & Hrs & _).
  rewrite (run_inside _ _ _ _ (effect_inside _ _ _ _ _ He)), Hr.
  assert (Hsame : forall i,
             at_repo p r es h (record s (fs s) (world s) i) /\
             touches p s (record s (fs s) (world s) i)).
  { apply after_step with (rs := rs); auto. }
  assert (Hwork : Git.work_of (fs s) (REPOS_SUBDIR // p) = Some es)
    by (unfold Git.work_of; now rewrite Hes).
  destruct (Git.parse cmd); cbv beta iota zeta delta [effect] in He; try discriminate;
    unfold Git.inside, Git.fail.
  - (* symbolic-ref *)
    injection He as <- <- <- <- <-. eauto.
  - (* fetch *)
    pose proof Hh as Hh'. rewrite <- Hu in Hh'. rewrite Hh'. clear Hh'.
    destruct h as [h0 |]; injection He as <- <- <- <- <-.
    + eexists _, _. split; [reflexivity |].
      apply after_step with (rs := rs); simpl; auto.
    + eauto.
  - (* show-ref *)
    destruct (Git.on_remote r ref); injection He as <- <- <- <- <-; eauto.
  - (* reset *)
    destruct (Git.on_remote r ref); injection He as <- <- <- <- <-; [| eauto].
    rewrite Hwork, Hgit. eexists _, _. split; [reflexivity |].
    apply after_step with (rs := rs); simpl; auto.
  - (* add *)
    rewrite Hwork, Hgit. injection He as <- <- <- <- <-.
    eexists _, _. split; [reflexivity |].
    apply after_step with (rs := rs); simpl; auto.
  - (* diff *)
    destruct (entries_eqb (Git.index r) (Git.tip (Git.history r)));
      injection He as <- <- <- <- <-; eauto.
  - (* commit *)
    destruct (entries_eqb (Git.index r) (Git.tip (Git.history r)));
      injection He as <- <- <- <- <-; [eauto |].
    eexists _, _. split; [reflexivity |].
    apply after_step with (rs := rs); simpl; auto.
  - (* push *)
    pose proof Hh as Hh'. rewrite <- Hu in Hh'. rewrite Hh'. clear Hh'.
    destruct h as [h0 |]; [| injection He as <- <- <- <- <-; eauto].
    destruct ((Git.branch r =? "master") && negb (is_nil (Git.history r)) &&
              Git.extends (Git.history r) h0)%bool;
      injection He as <- <- <- <- <-; [| eauto].
    eexists _, _. split; [reflexivity |].
    apply after_step with (rs := rs); simpl; auto.
    right. rewrite Hu. eauto.
Qed.

(** *** A process in a mirror *)

Lemma total_run_at cmd p r es h (s : state Git.world) chk rc out es' r' h'
    (Q : invocation -> state Git.world -> Prop) :
  at_repo p r es h s ->
  effect (Git.parse cmd) r es h = Some (rc, out, es', r', h') ->
  (chk && negb (rc =? 0)%Z)%bool = false ->
  (forall s', at_repo p r' es' h' s' -> touches p s s' ->
              trace s' = trace s ++ [Invocation cmd (Some (REPOS_SUBDIR // p)) chk rc out] ->
              Q (Invocation cmd (Some (REPOS_SUBDIR // p)) chk rc out) s') ->
  total (subprocess_run cmd (Some (REPOS_SUBDIR // p)) chk) s Q.
Proof.
  intros Hat He Hchk HQ.
  destruct (run_at _ _ _ _ _ _ _ _ _ _ _ Hat He) as (f' & w' & Hrun & Hafter).
  destruct Hat as (Hes & _).
  eexists _, _. split.
  - rewrite (subprocess_run_eq _ _ chk _ _ _ _ _ (fs_is_dir_real _ _ _ Hes) Hrun), Hchk.
    reflexivity.
  - destruct (Hafter (Invocation cmd (Some (REPOS_SUBDIR // p)) chk rc out)).
    now apply HQ.
Qed.

Lemma partial_run_at cmd p r es h (s : state Git.world) chk
    (Q : invocation -> state Git.world -> Prop) :
  at_repo p r es h s ->
  effect (Git.parse cmd) r es h <> None ->
  (forall rc out es' r' h' s',
      effect (Git.parse cmd) r es h = Some (rc, out, es', r', h') ->
      (chk = true -> rc = 0%Z) ->
      at_repo p r' es' h' s' -> touches p s s' ->
      Q (Invocation cmd (Some (REPOS_SUBDIR // p)) chk rc out) s') ->
  partial (subprocess_run cmd (Some (REPOS_SUBDIR // p)) chk) s Q.
Proof.
  intros Hat Hsome HQ i s' E.
  destruct (effect (Git.parse cmd) r es h) as [[[[[rc out] es'] r'] h'] |] eqn:He;
    [| contradiction].
  destruct (run_at _ _ _ _ _ _ _ _ _ _ _ Hat He) as (f' & w' & Hrun & Hafter).
  apply subprocess_run_inv in E as (_ & rc0 & out0 & f0 & w0 & Hrun0 & -> & -> & Hrc).
  rewrite Hrun in Hrun0. injection Hrun0 as <- <- <- <-.
  destruct (Hafter (Invocation cmd (Some (REPOS_SUBDIR // p)) chk rc out)).
  now apply (HQ rc out es' r' h').
Qed.

(** A checked command that ended normally in a mirror found a
    repository there. *)
Lemma partial_run_first cmd p (s : state Git.world)
    (Q : invocation -> state Git.world -> Prop) :
  fine s ->
  runs_inside (Git.parse cmd) = true ->
  (forall r es h, at_repo p r es h s ->
     partial (subprocess_run cmd (Some (REPOS_SUBDIR // p)) true) s Q) ->
  partial (subprocess_run cmd (Some (REPOS_SUBDIR // p)) true) s Q.
Proof.
  intros Hfine Hin HQ i s' E. pose proof E as E'.
  apply subprocess_run_inv in E' as (Hd & rc & out & f & w & Hrun & _ & _ & Hrc).
  destruct (fine_real_dir _ _ Hfine Hd) as (es & Hes).
  rewrite (run_inside _ _ _ _ Hin) in Hrun.
  destruct (find_path (REPOS_SUBDIR // p) (Git.locals (world s))) as [r |] eqn:Hr.
  - refine (HQ r es _ _ i s' E). destruct Hfine as (_ & _ & Hu & Hgit).
    split; [assumption |]. split; [assumption |].
    split; [now apply Hu |]. split; [reflexivity | assumption].
  - unfold Git.fail in Hrun. injection Hrun as <- _ _ _. now specialize (Hrc eq_refl).
Qed.

(** *** Processes that commit nothing *)

Definition calm (s s' : state Git.world) : Prop :=
  exists l, trace s' = trace s ++ l /\ Forall commits_nothing l.

Lemma calm_refl s : calm s s.
Proof. exists []. now rewrite app_nil_r. Qed.

Lemma calm_trans s t u : calm s t -> calm t u -> calm s u.
Proof.
  intros (l & El & Hl) (l' & El' & Hl'). exists (l ++ l').
  rewrite El', El, app_assoc. split; [reflexivity |]. now apply Forall_app.
Qed.

Lemma calm_same (s s' : state Git.world) : trace s' = trace s -> calm s s'.
Proof. intros E. exists []. now rewrite app_nil_r. Qed.

Lemma calm_one (s s' : state Git.world) i :
  trace s' = trace s ++ [i] -> commits_nothing i -> calm s s'.
Proof. intros E H. exists [i]. split; [assumption |]. now constructor. Qed.

(** *** A mirror in step with its package *)

(** The mirror of [p] holds the tree [T] at the tip of its history and
    in its index, on the branch that is pushed, the remote holds the
    same history, and GitHub lists the repository. *)
Definition ready (T : entries_t) (p : string) (s : state Git.world) : Prop :=
  exists r es,
    at_repo p r es (Some (Git.history r)) s /\
    Git.branch r = "master" /\
    Git.history r <> [] /\
    Git.tip (Git.history r) = T /\
    Git.index r = T /\
    Str.mem p (Git.hub (world s)) = true.

Lemma at_repo_frame p q r es h s s' :
  touches q s s' -> q <> p -> at_repo p r es h s -> at_repo p r es h s'.
Proof.
  intros (Hout & Hloc & Hrem & _ & _ & _ & Hgit) Hne (Hes & Hr & Hu & Hh & Htool).
  split; [| split; [| split; [assumption | split]]].
  - rewrite Hout; [assumption |]. now apply apart_siblings.
  - rewrite Hloc; [assumption |]. intros E. apply repo_inj in E. congruence.
  - rewrite Hrem; [assumption |]. intros E. apply mirror_url_inj in E. congruence.
  - congruence.
Qed.

Lemma ready_frame T p q s s' :
  touches q s s' -> q <> p -> ready T p s -> ready T p s'.
Proof.
  intros Ht Hne (r & es & Hat & Hb & Hh & HT & Hi & Hhub).
  exists r, es. split; [now apply (at_repo_frame p q _ _ _ s) |].
  repeat (split; [assumption |]). destruct Ht as (_ & _ & _ & Hmono & _). now apply Hmono.
Qed.

Lemma packages_frame p s s' :
  touches p s s' ->
  get (fs s') GNU_ELPA_PACKAGES_SUBDIR = get (fs s) GNU_ELPA_PACKAGES_SUBDIR.
Proof. intros (Hout & _). now apply Hout. Qed.

Lemma package_frame p k s s' :
  touches p s s' ->
  get (fs s') (GNU_ELPA_PACKAGES_SUBDIR // k) = get (fs s) (GNU_ELPA_PACKAGES_SUBDIR // k).
Proof. intros (Hout & _). now apply Hout. Qed.

(** *** The staged-changes check that found nothing *)

Definition clean_check (p : string) : invocation :=
  Invocation staged_check_cmd (Some (REPOS_SUBDIR // p)) false 0 "".

(** Between [s] and [s'] the check ran in the mirror of [p] and found
    nothing staged. *)
Definition ran (p : string) (s s' : state Git.world) : Prop :=
  exists l, trace s' = trace s ++ l /\ In (clean_check p) l.

Lemma ran_later p (s t u : state Git.world) :
  ran p s t -> (exists l, trace u = trace t ++ l) -> ran p s u.
Proof.
  intros (l & El & Hin) (l' & El'). exists (l ++ l').
  rewrite El', El, app_assoc. split; [reflexivity |]. apply in_or_app. now left.
Qed.

Lemma ran_sooner p (s t u : state Git.world) :
  (exists l, trace t = trace s ++ l) -> ran p t u -> ran p s u.
Proof.
  intros (l & El) (l' & El' & Hin). exists (l ++ l').
  rewrite El', El, app_assoc. split; [reflexivity |]. apply in_or_app. now right.
Qed.

Lemma touches_grows p s s' : touches p s s' -> exists l, trace s' = trace s ++ l.
Proof. intros (_ & _ & _ & _ & _ & H & _). exact H. Qed.

Lemma calm_grows (s s' : state Git.world) : calm s s' -> exists l, trace s' = trace s ++ l.
Proof. intros (l & H & _). now exists l. Qed.

(** *** The second run: every mirror is ready *)

Lemma total_is_dir X d (s : state X) (Q : bool -> state X -> Prop) :
  Q (fs_is_dir (fs s) d) s -> total (is_dir d) s Q.
Proof. intros H. eexists _, _. split; [reflexivity | exact H]. Qed.

Lemma branch_of_master :
  remove_prefix "refs/heads/" (Str.strip ("refs/heads/" ++ "master" ++ Str.nl)%string)
  = "master".
Proof. reflexivity. Qed.

Lemma total_decode X b (s : state X) (Q : string -> state X -> Prop) :
  Str.utf8_valid b = true -> Q b s -> total (decode b) s Q.
Proof.
  intros Hb H. exists b, s. split; [| exact H]. unfold decode. now rewrite Hb.
Qed.

Ltac quiet_cmd :=
  split; [unfold is_commit; simpl; discriminate
         | simpl; intros Hargv; first [discriminate Hargv | reflexivity]].

Lemma at_repo_dir p r es h s :
  at_repo p r es h s -> fs_is_dir (fs s) (REPOS_SUBDIR // p) = true.
Proof. intros (Hes & _). now apply fs_is_dir_real with (es := es). Qed.

Lemma touches_hub p s s' k :
  touches p s s' -> Str.mem k (Git.hub (world s)) = true ->
  Str.mem k (Git.hub (world s')) = true.
Proof. intros (_ & _ & _ & H & _). apply H. Qed.

Lemma history_eqb_refl h : Git.history_eqb h h = true.
Proof.
  induction h as [| c h IH]; [reflexivity |]. cbn [Git.history_eqb].
  unfold Git.commit_eqb. now rewrite String.eqb_refl, entries_eqb_refl, IH.
Qed.

Lemma extends_refl h : Git.extends h h = true.
Proof. unfold Git.extends. rewrite Nat.sub_diag. apply history_eqb_refl. Qed.

(** A mirror that is ready stays so when it is brought up to date:
    with a remote-tracking branch it is reset to the history it has,
    without one nothing is found to reset to. *)
Lemma clone_git_repo_ready T p s :
  ready T p s ->
  total (clone_git_repo (mirror_url tok p) (REPOS_SUBDIR // p) true false true) s
        (fun _ s' => ready T p s' /\ touches p s s' /\ calm s s').
Proof.
  intros ([b hist idx org u] & es & Hat & Hb & Hh & HT & Hi & Hhub).
  cbn [Git.branch Git.history Git.index] in Hat, Hb, Hh, HT, Hi.
  subst b. destruct hist as [| c hs]; [contradiction |]. clear Hh.
  unfold clone_git_repo. apply total_bind, total_is_dir.
  rewrite (at_repo_dir _ _ _ _ _ Hat). cbn [negb].
  apply total_bind.
  eapply total_run_at; [exact Hat | reflexivity | reflexivity |].
  intros s1 Hat1 Ht1 Htr1. cbn [stdout Git.branch].
  apply total_bind, total_decode; [reflexivity |]. rewrite branch_of_master.
  apply total_bind.
  eapply total_run_at; [exact Hat1 | reflexivity | reflexivity |].
  intros s2 Hat2 Ht2 Htr2.
  apply total_bind.
  destruct org as [o |]; cbn [option_map] in Hat2.
  - (* the mirror follows its remote *)
    eapply total_run_at; [exact Hat2 | reflexivity | reflexivity |].
    intros s3 Hat3 Ht3 Htr3. cbn [returncode Z.eqb].
    apply total_bind.
    eapply total_run_at; [exact Hat3 | reflexivity | reflexivity |].
    intros s4 Hat4 Ht4 Htr4. apply total_ret.
    assert (Ht : touches p s s4).
    { apply touches_trans with (t := s1); [assumption |].
      apply touches_trans with (t := s2); [assumption |].
      now apply touches_trans with (t := s3). }
    split; [| split; [assumption |]].
    + eexists _, _. split; [exact Hat4 |]. cbn [Git.branch Git.history Git.index Git.tip].
      split; [reflexivity |]. split; [discriminate |]. split; [assumption |].
      split; [assumption |]. now apply (touches_hub p s).
    + apply calm_trans with (t := s1); [eapply calm_one; [eassumption | quiet_cmd] |].
      apply calm_trans with (t := s2); [eapply calm_one; [eassumption | quiet_cmd] |].
      apply calm_trans with (t := s3); [eapply calm_one; [eassumption | quiet_cmd] |].
      eapply calm_one; [eassumption | quiet_cmd].
  - (* it follows nothing *)
    eapply total_run_at; [exact Hat2 | reflexivity | reflexivity |].
    intros s3 Hat3 Ht3 Htr3. cbn [returncode Z.eqb].
    apply total_ret.
    assert (Ht : touches p s s3).
    { apply touches_trans with (t := s1); [assumption |].
      now apply touches_trans with (t := s2). }
    split; [| split; [assumption |]].
    + eexists _, _. split; [exact Hat3 |]. cbn [Git.branch Git.history Git.index].
      split; [reflexivity |]. split; [discriminate |]. split; [assumption |].
      split; [assumption |]. now apply (touches_hub p s).
    + apply calm_trans with (t := s1); [eapply calm_one; [eassumption | quiet_cmd] |].
      apply calm_trans with (t := s2); [eapply calm_one; [eassumption | quiet_cmd] |].
      eapply calm_one; [eassumption | quiet_cmd].
Qed.

Lemma ready_same T p (s s' : state Git.world) :
  fs s' = fs s -> world s' = world s -> ready T p s -> ready T p s'.
Proof.
  intros Hf Hw (r & es & Hat & H). exists r, es. unfold at_repo in *.
  now rewrite Hf, Hw.
Qed.

Lemma effect_diff_clean r es h :
  Git.index r = Git.tip (Git.history r) ->
  effect (Git.parse staged_check_cmd) r es h = Some (0%Z, "", es, r, h).
Proof.
  intros E. change (Git.parse staged_check_cmd) with Git.CmdDiff.
  cbv beta iota zeta delta [effect]. now rewrite E, entries_eqb_refl.
Qed.

(** Nothing is committed when what is staged of the directory is the
    tree of the newest commit. *)
Lemma stage_and_commit_ready T p message data s :
  ready T p s ->
  (forall es, get (fs s) (REPOS_SUBDIR // p) = Some (Dir es) ->
              Git.stage tool (remove_entry ".git" es) = T) ->
  total (stage_and_commit (REPOS_SUBDIR // p) message data) s
        (fun _ s' => ready T p s' /\ touches p s s' /\ calm s s' /\ ran p s s').
Proof.
  intros ([b hist idx org u] & es & Hat & Hb & Hh & HT & Hi & Hhub) Hes.
  cbn [Git.branch Git.history Git.index] in Hat, Hb, Hh, HT, Hi.
  specialize (Hes es (proj1 Hat)).
  unfold stage_and_commit. apply total_bind.
  eapply total_run_at; [exact Hat | reflexivity | reflexivity |].
  intros s1 Hat1 Ht1 Htr1.
  apply total_bind.
  eapply total_run_at;
    [exact Hat1 | apply effect_diff_clean; cbn [Git.index Git.history]; congruence
    | reflexivity |].
  intros s2 Hat2 Ht2 Htr2. cbn [returncode Z.eqb negb].
  apply total_log.
  assert (Ht : touches p s s2) by now apply touches_trans with (t := s1).
  assert (Hr : ready T p s2).
  { eexists _, _. split; [exact Hat2 |]. cbn [Git.branch Git.history Git.index].
    repeat (split; [assumption |]). now apply (touches_hub p s). }
  split; [| split; [| split]].
  - now apply (ready_same T p s2).
  - apply touches_trans with (t := s2); [assumption | now apply touches_same].
  - apply calm_trans with (t := s1); [eapply calm_one; [eassumption | quiet_cmd] |].
    apply calm_trans with (t := s2); [eapply calm_one; [eassumption | quiet_cmd] |].
    now apply calm_same.
  - apply (ran_sooner p s s1); [now apply (touches_grows p) |].
    exists [clean_check p]. cbn [trace]. split; [exact Htr2 | now left].
Qed.

Lemma push_ready T p s :
  ready T p s ->
  total (subprocess_run push_cmd (Some (REPOS_SUBDIR // p)) true) s
        (fun _ s' => ready T p s' /\ touches p s s' /\ calm s s').
Proof.
  intros ([b hist idx org u] & es & Hat & Hb & Hh & HT & Hi & Hhub).
  cbn [Git.branch Git.history Git.index] in Hat, Hb, Hh, HT, Hi.
  subst b. destruct hist as [| c hs]; [contradiction |]. clear Hh.
  eapply total_run_at;
    [exact Hat
    | change (Git.parse push_cmd) with Git.CmdPush; cbv beta iota zeta delta [effect];
      cbn [Git.branch Git.history Git.index Git.origin Git.url];
      rewrite extends_refl; reflexivity
    | reflexivity |].
  intros s1 Hat1 Ht1 Htr1.
  split; [| split; [assumption |]].
  - eexists _, _. split; [exact Hat1 |]. cbn [Git.branch Git.history Git.index].
    split; [reflexivity |]. split; [discriminate |]. split; [assumption |].
    split; [assumption |]. now apply (touches_hub p s).
  - eapply calm_one; [eassumption | quiet_cmd].
Qed.

Lemma ready_dir_step T p cur' s s' :
  dir_step (REPOS_SUBDIR // p) cur' s s' -> ready T p s -> ready T p s'.
Proof.
  intros (Hd & _ & Hw & _ & _) (r & es & (_ & Hat) & H).
  exists r, cur'. unfold at_repo. rewrite Hw. now split.
Qed.

Lemma calm_dir_step d cur' (s s' : state Git.world) : dir_step d cur' s s' -> calm s s'.
Proof. intros (_ & _ & _ & _ & Htr). now apply calm_same. Qed.

(** *** The blocks of the loop bodies, on a ready mirror *)

Lemma clone_mirror_ready args existing_repos T p s :
  ready T p s ->
  Str.mem p existing_repos = true ->
  total (clone_mirror tok args existing_repos p) s
        (fun _ s' => touches p s s' /\ calm s s' /\ ready T p s').
Proof.
  intros Hr Hex. unfold clone_mirror. rewrite Hex. cbn [negb].
  apply total_bind, total_ret. apply total_bind, total_is_dir.
  destruct (Str.mem "--skip-mirror-pulls" args && fs_is_dir (fs s) (REPOS_SUBDIR // p))%bool.
  - apply total_ret. split; [apply touches_refl |]. split; [apply calm_refl | assumption].
  - apply total_bind, total_log.
    eapply total_weaken.
    + apply (clone_git_repo_ready T).
      eapply (ready_same T p s); [| | exact Hr]; reflexivity.
    + cbv beta. intros _ s' (Hr' & Ht & Hc).
      split; [| split; [| assumption]].
      * eapply touches_trans; [| exact Ht]. now apply touches_same.
      * eapply calm_trans; [| exact Hc]. now apply calm_same.
Qed.

Lemma update_package_ready data p src s :
  ready (Git.stage tool (package_tree (GNU_ELPA_PACKAGES_SUBDIR // p) src)) p s ->
  get (fs s) (GNU_ELPA_PACKAGES_SUBDIR // p) = Some (Dir src) ->
  NoDup (map fst src) ->
  (forall k n, assoc k src = Some n -> k <> ".git" -> links_free n = true) ->
  total (update_package data p) s
        (fun _ s' => touches p s s' /\ calm s s' /\
                     ready (Git.stage tool (package_tree (GNU_ELPA_PACKAGES_SUBDIR // p) src)) p s' /\
                     ran p s s').
Proof.
  intros Hr Hsrc Hnodup Hlinks. unfold update_package.
  apply total_bind, total_log.
  set (s0 := State (fs s) (world s) _ (trace s)).
  assert (Hr0 : ready (Git.stage tool (package_tree (GNU_ELPA_PACKAGES_SUBDIR // p) src)) p s0)
    by (eapply (ready_same _ p s); [| | exact Hr]; reflexivity).
  destruct Hr0 as (r & es & Hat & Hrest).
  destruct (copy_package_spec _ s0 (GNU_ELPA_PACKAGES_SUBDIR // p) (REPOS_SUBDIR // p)
              src es Hsrc (proj1 Hat) eq_refl Hnodup Hlinks)
    as (s1 & cur & E1 & Hstep & _ & Htree).
  apply total_bind. exists tt, s1. split; [exact E1 |].
  assert (Hr1 : ready (Git.stage tool (package_tree (GNU_ELPA_PACKAGES_SUBDIR // p) src)) p s1).
  { apply (ready_dir_step _ p cur s0); [assumption |]. now exists r, es. }
  eapply total_weaken.
  - apply (stage_and_commit_ready _ p _ _ s1 Hr1).
    intros es1 Hes1. destruct Hstep as (Hd & _). rewrite Hd in Hes1.
    injection Hes1 as <-. now rewrite Htree.
  - cbv beta. intros _ s2 (Hr2 & Ht2 & Hc2 & Hran).
    assert (Hc1 : calm s s1).
    { apply calm_trans with (t := s0); [now apply calm_same |].
      now apply (calm_dir_step (REPOS_SUBDIR // p) cur). }
    split; [| split; [| split; [assumption |]]].
    + apply touches_trans with (t := s0); [now apply touches_same |].
      apply touches_trans with (t := s1); [| assumption].
      now apply (touches_dir_step p cur).
    + now apply calm_trans with (t := s1).
    + apply (ran_sooner p s s1); [now apply calm_grows | assumption].
Qed.

Lemma push_package_ready T p s :
  ready T p s ->
  total (push_package p) s (fun _ s' => touches p s s' /\ calm s s' /\ ready T p s').
Proof.
  intros Hr. unfold push_package. apply total_bind, total_log.
  apply total_bind. eapply total_weaken.
  - apply (push_ready T). eapply (ready_same T p s); [| | exact Hr]; reflexivity.
  - cbv beta. intros _ s' (Hr' & Ht & Hc). apply total_ret.
    split; [| split; [| assumption]].
    + eapply touches_trans; [| exact Ht]. now apply touches_same.
    + eapply calm_trans; [| exact Hc]. now apply calm_same.
Qed.

(** The mirror list, once the packages are done. *)
Lemma mirror_list_ready data packages s :
  ready (Git.stage tool (listed packages [])) "gnu-elpa-mirror" s ->
  ~ In ".git" packages ->
  Str.mem "gnu-elpa-mirror" (Git.hub (world s)) = true ->
  forall existing_repos, Str.mem "gnu-elpa-mirror" existing_repos = true ->
  total (publish_list tok existing_repos packages data)
    s
    (fun _ s' => touches "gnu-elpa-mirror" s s' /\ calm s s' /\
                 ready (Git.stage tool (listed packages [])) "gnu-elpa-mirror" s' /\
                 ran "gnu-elpa-mirror" s s').
Proof.
  intros Hr Hgit _ existing_repos Hex. unfold publish_list. rewrite Hex. cbn [negb].
  set (T := Git.stage tool (listed packages [])) in *. set (p := "gnu-elpa-mirror") in *.
  assert (Hlog : forall (s1 : state Git.world) m (Q : unit -> state Git.world -> Prop),
             (forall s2, fs s2 = fs s1 -> world s2 = world s1 -> trace s2 = trace s1 ->
                         Q tt s2) ->
             total (log m) s1 Q).
  { intros s1 m Q HQ. apply total_log. now apply HQ. }
  apply total_bind, total_ret.
  apply total_bind, Hlog. intros s1 Hf1 Hw1 Htr1.
  assert (Hr1 : ready T p s1) by now apply (ready_same T p s).
  apply total_bind. eapply total_weaken; [apply (clone_git_repo_ready T p s1 Hr1) |].
  cbv beta. intros _ s2 (Hr2 & Ht2 & Hc2).
  apply total_bind, Hlog. intros s3 Hf3 Hw3 Htr3.
  assert (Hr3 : ready T p s3) by now apply (ready_same T p s2).
  destruct Hr3 as (r & es & Hat & Hrest).
  destruct (write_mirror_list_spec _ s3 (REPOS_SUBDIR // p) es packages (proj1 Hat) Hgit)
    as (s4 & cur & E4 & Hstep & _ & Htree).
  apply total_bind. exists tt, s4. split; [exact E4 |].
  assert (Hr4 : ready T p s4).
  { apply (ready_dir_step _ p cur s3); [assumption |]. now exists r, es. }
  apply total_bind. eapply total_weaken.
  { apply (stage_and_commit_ready T p _ _ s4 Hr4).
    intros es4 Hes4. destruct Hstep as (Hd & _). rewrite Hd in Hes4.
    injection Hes4 as <-. now rewrite Htree. }
  cbv beta. intros _ s5 (Hr5 & Ht5 & Hc5 & Hran5).
  apply total_bind, Hlog. intros s6 Hf6 Hw6 Htr6.
  assert (Hr6 : ready T p s6) by now apply (ready_same T p s5).
  apply total_bind. eapply total_weaken; [apply (push_ready T p s6 Hr6) |].
  cbv beta. intros _ s7 (Hr7 & Ht7 & Hc7). apply total_ret.
  assert (Hc4 : calm s s4).
  { apply calm_trans with (t := s1); [now apply calm_same |].
    apply calm_trans with (t := s2); [assumption |].
    apply calm_trans with (t := s3); [now apply calm_same |].
    now apply (calm_dir_step (REPOS_SUBDIR // p) cur). }
  assert (Hc57 : calm s5 s7).
  { apply calm_trans with (t := s6); [now apply calm_same | assumption]. }
  split; [| split; [| split; [assumption |]]].
  - apply touches_trans with (t := s1); [now apply touches_same |].
    apply touches_trans with (t := s2); [assumption |].
    apply touches_trans with (t := s3); [now apply touches_same |].
    apply touches_trans with (t := s4); [now apply (touches_dir_step p cur) |].
    apply touches_trans with (t := s5); [assumption |].
    apply touches_trans with (t := s6); [now apply touches_same | assumption].
  - apply calm_trans with (t := s4); [assumption |].
    now apply calm_trans with (t := s5).
  - apply (ran_sooner p s s4); [now apply calm_grows |].
    apply (ran_later p s4 s5); [assumption | now apply calm_grows].
Qed.

(** *** A loop over the mirrors *)

Section Sweep.

Variable triple :
  forall A, M Git.world A -> state Git.world -> (A -> state Git.world -> Prop) -> Prop.

Hypothesis triple_weaken :
  forall A m s (Q Q' : A -> state Git.world -> Prop),
    triple A m s Q -> (forall a s', Q a s' -> Q' a s') -> triple A m s Q'.

Hypothesis triple_for_each :
  forall A (body : A -> M Git.world unit) (I : list A -> state Git.world -> Prop) l,
    (forall done a rest s, l = done ++ a :: rest -> I done s ->
       triple unit (body a) s (fun _ s' => I (done ++ [a]) s')) ->
    forall s, I [] s -> triple unit (for_each l body) s (fun _ s' => I l s').

Variable body : string -> M Git.world unit.
Variable l : list string.
Variable dom : string -> Prop.
Variable G : state Git.world -> Prop.
Variables F0 F : string -> state Git.world -> Prop.
Variable R : state Git.world -> state Git.world -> Prop.

Hypothesis l_nodup : NoDup l.
Hypothesis l_dom : forall p, In p l -> dom p.
Hypothesis G_stable : forall p s s', touches p s s' -> G s -> G s'.
Hypothesis F0_local : forall p q s s', touches p s s' -> p <> q -> F0 q s -> F0 q s'.
Hypothesis F_local : forall p q s s', touches p s s' -> p <> q -> F q s -> F q s'.
Hypothesis R_refl : forall s, R s s.
Hypothesis R_trans : forall s t u, R s t -> R t u -> R s u.
Hypothesis body_spec :
  forall p s, In p l -> G s -> F0 p s ->
    triple unit (body p) s (fun _ s' => touches p s s' /\ R s s' /\ F p s').

Lemma sweep s :
  G s -> (forall q, dom q -> F0 q s) ->
  triple unit (for_each l body) s
    (fun _ s' => G s' /\ R s s' /\ (forall q, In q l -> F q s') /\
                 (forall q, dom q -> ~ In q l -> F0 q s')).
Proof.
  intros HG HF0.
  apply (triple_for_each string body
           (fun done s' => G s' /\ R s s' /\ (forall q, In q done -> F q s') /\
                           (forall q, dom q -> ~ In q done -> F0 q s'))).
  - intros done a rest s1 El (HG1 & HR1 & HF1 & HF01).
    assert (Ha : ~ In a done).
    { rewrite El in l_nodup. apply NoDup_remove_2 in l_nodup.
      intros Hin. apply l_nodup, in_or_app. now left. }
    assert (Hal : In a l) by (rewrite El; apply in_or_app; right; now left).
    apply triple_weaken with (Q := fun _ s' => touches a s1 s' /\ R s1 s' /\ F a s').
    + apply body_spec; auto.
    + intros _ s2 (Ht & HR2 & HFa).
      split; [now apply (G_stable a s1) |]. split; [now apply (R_trans s s1) |]. split.
      * intros q Hq. apply in_app_or in Hq as [Hq | [<- | []]]; [| assumption].
        apply (F_local a q s1); [assumption | congruence | now apply HF1].
      * intros q Hd Hq. apply (F0_local a q s1); [assumption | |].
        -- intros <-. apply Hq, in_or_app. right. now left.
        -- apply HF01; [assumption |]. intros Hin. apply Hq, in_or_app. now left.
  - split; [assumption |]. split; [apply R_refl |]. split; [intros q [] |]. auto.
Qed.

End Sweep.

Definition partial_sweep :=
  sweep (fun A => @partial Git.world A) (partial_weaken Git.world) (partial_for_each Git.world).

Definition total_sweep :=
  sweep (fun A => @total Git.world A) (total_weaken Git.world) (total_for_each Git.world).

(** *** The mirrors after a second run *)

(** Every mirror of the run is in step with the packages directory. *)
Definition mirrors_ready (pk : entries_t) (s : state Git.world) : Prop :=
  forall p, In p (mirrors_of pk) -> ready (Git.stage tool (expected pk p)) p s.

(** What the loops rely on all along. *)
Definition settled (pk : entries_t) (s : state Git.world) : Prop :=
  fine s /\ get (fs s) GNU_ELPA_PACKAGES_SUBDIR = Some (Dir pk).

Lemma settled_stable pk p s s' : touches p s s' -> settled pk s -> settled pk s'.
Proof.
  intros Ht (Hfine & Hpk). split.
  - destruct Ht as (_ & _ & _ & _ & H & _). now apply H.
  - now rewrite (packages_frame p s s' Ht).
Qed.

Lemma settled_same pk (s s' : state Git.world) :
  fs s' = fs s -> world s' = world s -> settled pk s -> settled pk s'.
Proof. intros Hf Hw. unfold settled, fine. now rewrite Hf, Hw. Qed.

Lemma ready_sweep pk (base : state Git.world) (C0 C : string -> state Git.world -> Prop)
    (body : string -> M Git.world unit) :
  tidy_packages pk = true ->
  (forall p q s s', touches p s s' -> C0 q s -> C0 q s') ->
  (forall p q s s', touches p s s' -> C q s -> C q s') ->
  (forall p s, In p (packages_of pk) -> settled pk s ->
     (exists l, trace s = trace base ++ l) ->
     ready (Git.stage tool (expected pk p)) p s -> C0 p s ->
     total (body p) s
       (fun _ s' => touches p s s' /\ calm s s' /\ ready (Git.stage tool (expected pk p)) p s' /\ C p s')) ->
  forall s, settled pk s -> (exists l, trace s = trace base ++ l) ->
    mirrors_ready pk s -> (forall p, In p (mirrors_of pk) -> C0 p s) ->
    total (for_each (packages_of pk) body) s
      (fun _ s' => settled pk s' /\ calm s s' /\ mirrors_ready pk s' /\
                   (forall p, In p (packages_of pk) -> C p s') /\
                   (forall p, In p (mirrors_of pk) -> C0 p s')).
Proof.
  intros Htidy HC0 HC Hbody s HG Hbase Hr Hc0.
  eapply total_weaken.
  - apply (total_sweep body (packages_of pk) (fun p => In p (mirrors_of pk))
             (fun s' => settled pk s' /\ exists l, trace s' = trace base ++ l)
             (fun p s' => ready (Git.stage tool (expected pk p)) p s' /\ C0 p s')
             (fun p s' => ready (Git.stage tool (expected pk p)) p s' /\ C0 p s' /\ C p s')
             calm).
    + now apply packages_of_NoDup.
    + intros p Hp. apply in_or_app. now left.
    + intros p s1 s2 Ht (HG1 & l1 & Hl1). split; [now apply (settled_stable pk p s1) |].
      destruct (touches_grows p s1 s2 Ht) as (l2 & Hl2). exists (l1 ++ l2).
      now rewrite Hl2, Hl1, app_assoc.
    + intros p q s1 s2 Ht Hne (Hr1 & Hc1).
      split; [now apply ready_frame with (q := p) (s := s1) | now apply (HC0 p q s1)].
    + intros p q s1 s2 Ht Hne (Hr1 & Hc1 & Hc1').
      split; [now apply ready_frame with (q := p) (s := s1) |].
      split; [now apply (HC0 p q s1) | now apply (HC p q s1)].
    + apply calm_refl.
    + apply calm_trans.
    + intros p s1 Hp (HG1 & Hb1) (Hr1 & Hc1). eapply total_weaken.
      * now apply Hbody.
      * cbv beta. intros _ s2 (Ht & Hc & Hr2 & Hc2).
        split; [assumption |]. split; [assumption |]. split; [assumption |].
        split; [now apply (HC0 p p s1) | assumption].
    + now split.
    + intros q Hq. split; [now apply Hr | now apply Hc0].
  - cbv beta. intros _ s' ((HG' & _) & Hc & Hin & Hout).
    split; [assumption |]. split; [assumption |]. split; [| split].
    + intros p Hp. destruct (in_dec string_dec p (packages_of pk)) as [Hl | Hl].
      * apply (Hin p Hl).
      * apply (Hout p Hp Hl).
    + intros p Hp. apply (Hin p Hp).
    + intros p Hp. destruct (in_dec string_dec p (packages_of pk)) as [Hl | Hl].
      * apply (Hin p Hl).
      * apply (Hout p Hp Hl).
Qed.

Lemma total_github_repos t o (s : state Git.world)
    (Q : list string -> state Git.world -> Prop) :
  Q (Git.hub (world s)) (State (fs s) (world s) (stderr s) (trace s)) ->
  total (github_call (GetUserRepos t o)) s Q.
Proof. intros H. eexists _, _. split; [reflexivity | exact H]. Qed.

Lemma total_github_organization t o (s : state Git.world)
    (Q : list string -> state Git.world -> Prop) :
  Q [] (State (fs s) (world s) (stderr s) (trace s)) ->
  total (github_call (GetOrganization t o)) s Q.
Proof. intros H. eexists _, _. split; [reflexivity | exact H]. Qed.

Lemma mkdir_repos_fine (s : state Git.world) :
  fine s -> mkdir_exist_ok REPOS_SUBDIR s = (Ok tt, s).
Proof.
  intros ((rs & Hrs) & _). unfold mkdir_exist_ok, lstat.
  rewrite (walk_get MAXSYMLINKS (fs s) false REPOS_SUBDIR [] (Dir rs) Hrs (or_introl eq_refl)).
  cbn [app]. now rewrite (fs_is_dir_real _ _ _ Hrs).
Qed.

Lemma package_source pk p (s : state Git.world) :
  tidy_packages pk = true -> settled pk s -> In p (packages_of pk) ->
  exists src,
    get (fs s) (GNU_ELPA_PACKAGES_SUBDIR // p) = Some (Dir src) /\
    expected pk p = package_tree (GNU_ELPA_PACKAGES_SUBDIR // p) src /\
    NoDup (map fst src) /\
    (forall k n, assoc k src = Some n -> k <> ".git" -> links_free n = true).
Proof.
  intros Htidy (_ & Hpk) Hp.
  destruct (packages_of_spec _ _ Htidy Hp) as (src & Hsrc & Hne & _).
  destruct (tidy_source _ _ _ Htidy Hsrc) as (Hnodup & Hlinks).
  exists src. split; [now rewrite (get_child _ _ _ p Hpk) |].
  split; [| now split].
  unfold expected. apply String.eqb_neq in Hne. now rewrite Hne, Hsrc.
Qed.

Lemma sync_mirrors_ready args data pk s :
  tidy_packages pk = true ->
  settled pk s ->
  mirrors_ready pk s ->
  total (sync_mirrors tok args data) s
        (fun _ s' => calm s s' /\ settled pk s' /\ mirrors_ready pk s' /\
                     forall p, In p (mirrors_of pk) -> ran p s s').
Proof.
  intros Htidy HG Hr.
  set (l := packages_of pk).
  (* what holds between the blocks *)
  set (J := fun s' : state Git.world =>
              calm s s' /\ settled pk s' /\ mirrors_ready pk s').
  assert (Hsame : forall (s1 s2 : state Git.world),
             fs s2 = fs s1 -> world s2 = world s1 -> trace s2 = trace s1 -> J s1 -> J s2).
  { intros s1 s2 Hf Hw Htr (Hc & HG1 & Hr1).
    split; [apply calm_trans with (t := s1); [assumption | now apply calm_same] |].
    split; [now apply (settled_same pk s1) |].
    intros p Hp. apply (ready_same _ p s1); auto. }
  assert (Hlog : forall (s1 : state Git.world) m (Q : unit -> state Git.world -> Prop),
             (forall s2, fs s2 = fs s1 -> world s2 = world s1 -> trace s2 = trace s1 ->
                         Q tt s2) ->
             total (log m) s1 Q).
  { intros s1 m Q HQ. apply total_log. now apply HQ. }
  assert (Hexisting : forall p, In p (mirrors_of pk) ->
                                Str.mem p (Git.hub (world s)) = true).
  { intros p Hp. now destruct (Hr p Hp) as (r & es & _ & _ & _ & _ & Hhub). }
  assert (Hmanifest : In "gnu-elpa-mirror" (mirrors_of pk))
    by (apply in_or_app; right; now left).
  assert (Hgit : ~ In ".git" l).
  { intros Hin. now destruct (packages_of_spec _ _ Htidy Hin) as (_ & _ & _ & _ & Hne). }
  assert (Hran : forall p q s1 s2, touches p s1 s2 ->
                   (In q l -> ran q s s1) -> In q l -> ran q s s2).
  { intros p q s1 s2 Ht H1 Hq. apply (ran_later q s s1); [now apply H1 |].
    now apply (touches_grows p). }
  assert (Htrue : forall (p q : string) (s1 s2 : state Git.world),
             touches p s1 s2 -> True -> True) by auto.
  unfold sync_mirrors.
  apply total_bind, Hlog. intros s1 Hf1 Hw1 Htr1.
  apply total_bind, total_github_repos.
  set (s2 := State (fs s1) (world s1) (stderr s1) (trace s1)). rewrite Hw1.
  set (existing_repos := Git.hub (world s)).
  assert (H2 : J s2).
  { apply (Hsame s); auto. split; [apply calm_refl | now split]. }
  apply total_bind. exists l, s2.
  split; [apply enumerate_tidy; [apply H2 | assumption] |].
  apply total_bind, Hlog. intros s3 Hf3 Hw3 Htr3.
  apply (Hsame s2 s3 Hf3 Hw3 Htr3) in H2 as H3.
  apply total_bind, total_github_organization.
  set (s4 := State (fs s3) (world s3) (stderr s3) (trace s3)).
  assert (H4 : J s4) by (apply (Hsame s3); auto).
  apply total_bind. exists tt, s4. split; [apply mkdir_repos_fine, H4 |].
  destruct H4 as (Hc4 & HG4 & Hr4).
  (* clone/update mirror repositories *)
  apply total_bind. eapply total_weaken.
  { apply (ready_sweep pk s (fun _ _ => True) (fun _ _ => True)
             (clone_mirror tok args existing_repos) Htidy Htrue Htrue);
      [| exact HG4 | now apply calm_grows | exact Hr4 | auto].
    intros p s' Hp _ _ Hrp _. eapply total_weaken.
    - apply (clone_mirror_ready args existing_repos _ p s' Hrp).
      apply Hexisting, in_or_app. now left.
    - cbv beta. intros _ s'' (Ht & Hc & Hr'). auto. }
  cbv beta. intros _ s5 (HG5 & Hc5 & Hr5 & _ & _).
  apply total_bind, Hlog. intros s6 Hf6 Hw6 Htr6.
  assert (H6 : J s6).
  { apply (Hsame s5); auto. split; [now apply calm_trans with (t := s4) | now split]. }
  destruct H6 as (Hc6 & HG6 & Hr6).
  (* update mirrored packages *)
  apply total_bind. eapply total_weaken.
  { apply (ready_sweep pk s (fun _ _ => True) (fun p s' => In p l -> ran p s s')
             (update_package data) Htidy Htrue Hran);
      [| exact HG6 | now apply calm_grows | exact Hr6 | auto].
    intros p s' Hp HG' Hgrow Hrp _.
    destruct (package_source pk p s' Htidy HG' Hp) as (src & Hsrc & Hexp & Hnodup & Hlinks).
    rewrite Hexp in Hrp |- *. eapply total_weaken.
    - exact (update_package_ready data p src s' Hrp Hsrc Hnodup Hlinks).
    - cbv beta. intros _ s'' (Ht & Hc & Hr' & Hran').
      split; [assumption |]. split; [assumption |]. split; [assumption |].
      intros _. now apply (ran_sooner p s s'). }
  cbv beta. intros _ s7 (HG7 & Hc7 & Hr7 & Hran7 & _).
  assert (Hc7' : calm s s7) by now apply calm_trans with (t := s6).
  (* publish *)
  unfold publish. apply total_bind.
  apply total_weaken
    with (Q := fun _ s' => settled pk s' /\ calm s7 s' /\ mirrors_ready pk s' /\
                           forall p, In p l -> ran p s s').
  { destruct (negb (Str.mem "--skip-mirror-pushes" args)).
    - apply total_bind, Hlog. intros s8 Hf8 Hw8 Htr8.
      eapply total_weaken.
      + apply (ready_sweep pk s (fun p s' => In p l -> ran p s s')
                 (fun p s' => In p l -> ran p s s')
                 (fun p => push_package p) Htidy Hran Hran).
        * intros p s' Hp _ _ Hrp Hranp. eapply total_weaken.
          -- now apply (push_package_ready (Git.stage tool (expected pk p)) p s').
          -- cbv beta. intros _ s'' (Ht & Hc & Hr').
             split; [assumption |]. split; [assumption |]. split; [assumption |].
             now apply (Hran p p s').
        * now apply (settled_same pk s7).
        * rewrite Htr8. now apply calm_grows.
        * intros p Hp. apply (ready_same _ p s7); auto.
        * intros p _ Hp. apply (ran_later p s s7); [now apply Hran7 |].
          exists []. now rewrite app_nil_r.
      + cbv beta. intros _ s9 (HG9 & Hc9 & Hr9 & Hran9 & _).
        split; [assumption |]. split; [| split; [assumption |]].
        * apply calm_trans with (t := s8); [now apply calm_same | assumption].
        * intros p Hp. now apply Hran9.
    - apply total_ret. split; [assumption |]. split; [apply calm_refl |].
      split; [assumption |]. intros p Hp. now apply Hran7. }
  intros _ s8 (HG8 & Hc8 & Hr8 & Hran8).
  assert (Hc8' : calm s s8) by now apply calm_trans with (t := s7).
  eapply total_weaken.
  { apply (mirror_list_ready data l s8).
    - specialize (Hr8 _ Hmanifest). unfold expected in Hr8. exact Hr8.
    - exact Hgit.
    - now destruct (Hr8 _ Hmanifest) as (r & es & _ & _ & _ & _ & Hhub).
    - now apply Hexisting. }
  cbv beta. intros _ s9 (Ht9 & Hc9 & Hr9 & Hran9).
  split; [| split; [| split]].
  - now apply calm_trans with (t := s8).
  - now apply (settled_stable pk "gnu-elpa-mirror" s8).
  - intros p Hp. destruct (string_dec p "gnu-elpa-mirror") as [-> | Hne].
    + exact Hr9.
    + apply ready_frame with (q := "gnu-elpa-mirror") (s := s8); auto.
  - intros p Hp. apply in_app_or in Hp as [Hp | [<- | []]].
    + apply (ran_later p s s8); [now apply Hran8 | now apply calm_grows].
    + apply (ran_sooner _ s s8); [now apply calm_grows | assumption].
Qed.

(** ** The first run *)

(** The commands of the script in a mirror. *)
Definition mirror_command (c : Git.command) : bool :=
  match c with
  | Git.CmdSymbolicRef | Git.CmdFetch | Git.CmdShowRef _ | Git.CmdReset _
  | Git.CmdAdd | Git.CmdDiff | Git.CmdCommit _ | Git.CmdPush => true
  | _ => false
  end.

Lemma effect_defined c r es h : mirror_command c = true -> effect c r es h <> None.
Proof.
  destruct c; try discriminate; intros _; cbv beta iota zeta delta [effect];
    repeat match goal with
           | |- context [match ?x with _ => _ end] => destruct x
           end; discriminate.
Qed.

Lemma mem_app k l l' : Str.mem k (l ++ l') = (Str.mem k l || Str.mem k l')%bool.
Proof.
  induction l as [| a l IH]; [reflexivity |].
  cbn [app]. now rewrite !mem_cons, IH, Bool.orb_assoc.
Qed.

(** GitHub lists the repository of [p] once the script has made sure of
    it. *)
Lemma ensure_repo existing_repos p message description homepage s :
  (forall k, Str.mem k existing_repos = true -> Str.mem k (Git.hub (world s)) = true) ->
  partial (if negb (Str.mem p existing_repos)
           then bind (log message)
                  (fun _ => create_repo tok p description homepage)
           else ret tt) s
          (fun _ s' => touches p s s' /\ Str.mem p (Git.hub (world s')) = true).
Proof.
  intros Hex. destruct (Str.mem p existing_repos) eqn:Hp; cbn [negb].
  - apply partial_ret. split; [apply touches_refl | now apply Hex].
  - apply partial_bind, partial_log. unfold create_repo.
    apply partial_bind. intros l s' E. apply partial_ret.
    unfold github_call in E. cbn [fs world stderr trace github Git.outside Git.api] in E.
    destruct (Str.mem p (Git.hub (world s))); [discriminate |].
    injection E as _ <-. split.
    + apply touches_intro; cbn [fs world Git.locals Git.remotes Git.hub Git.git]; auto.
      * apply untouched_refl.
      * intros u Hu. apply find_store_string_neq. congruence.
      * intros k Hk. now rewrite mem_app, Hk.
      * intros (_ & _ & Hurl & _) r. apply Hurl.
      * exists []. cbn [trace]. now rewrite app_nil_r.
    + cbn [world Git.hub]. rewrite mem_app, mem_cons, String.eqb_refl.
      now rewrite Bool.orb_true_r.
Qed.

Lemma run_clone git_url p f w :
  valid_name p = true ->
  Git.run (clone_cmd git_url (REPOS_SUBDIR // p) true false) None f w =
  Git.clone true git_url (REPOS_SUBDIR // p) f w.
Proof.
  intros Hp. unfold Git.run.
  change (Git.parse (clone_cmd git_url (REPOS_SUBDIR // p) true false))
    with (Git.CmdClone true git_url (fspath (REPOS_SUBDIR // p))).
  cbv beta iota. now rewrite (parse_repo_dir p Hp).
Qed.

Lemma subprocess_run_clone_inv cmd chk (s : state Git.world) i s' :
  subprocess_run cmd None chk s = (Ok i, s') ->
  exists rc out f w,
    Git.run cmd None (fs s) (world s) = (rc, out, f, w) /\
    s' = record s f w (Invocation cmd None chk rc out) /\
    (chk = true -> rc = 0%Z).
Proof.
  unfold subprocess_run. cbn [spawn Git.outside].
  destruct (Git.run cmd None (fs s) (world s)) as [[[rc out] f] w].
  destruct (chk && negb (rc =? 0)%Z)%bool eqn:E; [discriminate |].
  intros H. exists rc, out, f, w. split; [reflexivity |].
  split; [now injection H as _ <- |].
  intros ->. simpl in E. apply Bool.negb_false_iff in E. now apply Z.eqb_eq.
Qed.

Lemma clone_ok single git_url d f w out f' w' :
  Git.clone single git_url d f w = (0%Z, out, f', w') ->
  exists h b,
    (get f d = None \/ get f d = Some (Dir [])) /\
    f' = put f d (Some (Dir ((".git", Dir []) :: Git.tip h))) /\
    w' = Git.set_local w d (Git.Repository b h (Git.tip h)
                                           (Git.followed single h) git_url).
Proof.
  unfold Git.clone, Git.fail.
  destruct (find_string git_url (Git.remotes w)) as [h |]; [| discriminate].
  destruct (get f d) as [[x | t | [| e es]] |]; try discriminate;
    intros E; exists h, (if is_nil h then Git.initial (Git.git w) else "master");
    (split; [auto |]); split; congruence.
Qed.

Lemma partial_decode X b (s : state X) (Q : string -> state X -> Prop) :
  Q b s -> partial (decode b) s Q.
Proof.
  intros H a s' E. unfold decode in E.
  destruct (Str.utf8_valid b); [| discriminate]. now injection E as <- <-.
Qed.

(** Bringing a mirror up to date touches that mirror only. *)
Lemma clone_git_repo_touches p s :
  fine s -> valid_name p = true ->
  partial (clone_git_repo (mirror_url tok p) (REPOS_SUBDIR // p) true false true) s
          (fun _ s' => touches p s s').
Proof.
  intros Hfine Hp. unfold clone_git_repo. apply partial_bind.
  intros d s0 [= <- <-].
  destruct (fs_is_dir (fs s) (REPOS_SUBDIR // p)) eqn:Hd; cbn [negb].
  - (* the directory is there *)
    apply partial_bind, partial_run_first; [assumption | reflexivity |].
    intros r es h Hat.
    apply partial_run_at with (r := r) (es := es) (h := h);
      [assumption | now apply effect_defined |].
    intros rc1 out1 es1 r1 h1 s1 _ _ Hat1 Ht1.
    apply partial_bind, partial_decode.
    apply partial_bind.
    apply partial_run_at with (r := r1) (es := es1) (h := h1);
      [assumption | now apply effect_defined |].
    intros rc2 out2 es2 r2 h2 s2 _ _ Hat2 Ht2.
    apply partial_bind.
    apply partial_run_at with (r := r2) (es := es2) (h := h2);
      [assumption | now apply effect_defined |].
    intros rc3 out3 es3 r3 h3 s3 _ _ Hat3 Ht3.
    assert (Ht : touches p s s3).
    { apply touches_trans with (t := s1); [assumption |].
      now apply touches_trans with (t := s2). }
    destruct (returncode _ =? 0)%Z.
    + apply partial_bind.
      apply partial_run_at with (r := r3) (es := es3) (h := h3);
        [assumption | now apply effect_defined |].
      intros rc4 out4 es4 r4 h4 s4 _ _ Hat4 Ht4. apply partial_ret.
      now apply touches_trans with (t := s3).
    + now apply partial_ret.
  - (* the repository is cloned *)
    intros [] s' E. unfold catch, bind in E.
    destruct (subprocess_run (clone_cmd (mirror_url tok p) (REPOS_SUBDIR // p) true false)
                None true s) as [[i | e] s1] eqn:Erun.
    + injection E as <-.
      apply subprocess_run_clone_inv in Erun as (rc & out & f' & w' & Hrun & -> & Hrc).
      rewrite (Hrc eq_refl), (run_clone _ _ _ _ Hp) in Hrun.
      apply clone_ok in Hrun as (h & b & Hes & -> & ->).
      destruct Hfine as ((rs & Hrs) & _ & _ & Hgit).
      apply (after_step p s rs ((".git", Dir []) :: Git.tip h)
               (Git.Repository b h (Git.tip h) (Git.followed true h)
                               (mirror_url tok p))
               (find_string (mirror_url tok p) (Git.remotes (world s)))
               (put (fs s) (REPOS_SUBDIR // p) (Some (Dir ((".git", Dir []) :: Git.tip h))))
               (Git.set_local (world s) (REPOS_SUBDIR // p)
                  (Git.Repository b h (Git.tip h) (Git.followed true h)
                                  (mirror_url tok p)))
               Hgit Hgit Hrs
               (or_intror eq_refl) (or_intror eq_refl) eq_refl
               (or_introl (conj eq_refl eq_refl)) eq_refl).
    + destruct e; discriminate.
Qed.

Lemma touches_fine p s s' : touches p s s' -> fine s -> fine s'.
Proof. intros (_ & _ & _ & _ & H & _). exact H. Qed.

Lemma clone_mirror_first args existing_repos p s :
  fine s -> valid_name p = true ->
  (forall k, Str.mem k existing_repos = true -> Str.mem k (Git.hub (world s)) = true) ->
  partial (clone_mirror tok args existing_repos p) s
          (fun _ s' => touches p s s' /\ True /\ Str.mem p (Git.hub (world s')) = true).
Proof.
  intros Hfine Hp Hex. unfold clone_mirror. apply partial_bind.
  eapply partial_weaken; [apply ensure_repo; exact Hex |].
  cbv beta. intros _ s1 (Ht1 & Hhub1).
  apply partial_bind. intros d s0 [= <- <-].
  destruct (Str.mem "--skip-mirror-pulls" args && fs_is_dir (fs s1) (REPOS_SUBDIR // p))%bool.
  - now apply partial_ret.
  - apply partial_bind, partial_log.
    set (s2 := State (fs s1) (world s1) _ (trace s1)).
    assert (Ht2 : touches p s s2).
    { apply touches_trans with (t := s1); [assumption | now apply touches_same]. }
    eapply partial_weaken.
    + apply clone_git_repo_touches; [| assumption]. now apply (touches_fine p s).
    + cbv beta. intros _ s3 Ht3.
      split; [now apply touches_trans with (t := s2) |]. split; [exact I |].
      now apply (touches_hub p s2).
Qed.

(** The mirror of [p] holds the tree [T] at the tip of its history and
    in its index. *)
Definition synced (T : entries_t) (p : string) (s : state Git.world) : Prop :=
  exists r es h, at_repo p r es h s /\ Git.tip (Git.history r) = T /\ Git.index r = T.

Lemma synced_frame T p q s s' :
  touches q s s' -> q <> p -> synced T p s -> synced T p s'.
Proof.
  intros Ht Hne (r & es & h & Hat & HT). exists r, es, h.
  split; [now apply (at_repo_frame p q _ _ _ s) | assumption].
Qed.

Lemma delete_contents_dir X d (s s' : state X) :
  delete_contents d s = (Ok tt, s') -> fs_is_dir (fs s) d = true.
Proof.
  unfold delete_contents, bind, iterdir, fs_is_dir.
  destruct (stat (fs s) d) as [[loc [[x | t | es] |]] |]; try discriminate. reflexivity.
Qed.

Lemma copy_package_dir X src dst (s s' : state X) :
  copy_package src dst s = (Ok tt, s') -> fs_is_dir (fs s) dst = true.
Proof.
  unfold copy_package. unfold bind at 1.
  destruct (delete_contents dst s) as [[[] | e] s1] eqn:E; [| discriminate].
  intros _. now apply delete_contents_dir with (s' := s1).
Qed.

Lemma write_mirror_list_dir X d packages (s s' : state X) :
  write_mirror_list d packages s = (Ok tt, s') -> fs_is_dir (fs s) d = true.
Proof.
  unfold write_mirror_list. unfold bind at 1.
  destruct (delete_contents d s) as [[[] | e] s1] eqn:E; [| discriminate].
  intros _. now apply delete_contents_dir with (s' := s1).
Qed.

(** After [stage_and_commit] the newest commit holds what is staged of
    the directory. *)
Lemma stage_and_commit_synced T p message data s :
  fine s ->
  (forall es, get (fs s) (REPOS_SUBDIR // p) = Some (Dir es) ->
              Git.stage tool (remove_entry ".git" es) = T) ->
  partial (stage_and_commit (REPOS_SUBDIR // p) message data) s
          (fun _ s' => touches p s s' /\ synced T p s').
Proof.
  intros Hfine Hes. unfold stage_and_commit.
  apply partial_bind, partial_run_first; [assumption | reflexivity |].
  intros r es h Hat. specialize (Hes es (proj1 Hat)).
  apply partial_run_at with (r := r) (es := es) (h := h);
    [assumption | now apply effect_defined |].
  intros rc1 out1 es1 r1 h1 s1 He1 _ Hat1 Ht1.
  change (Git.parse ["git"; "add"; "--all"; "--force"]) with Git.CmdAdd in He1.
  cbv beta iota zeta delta [effect] in He1. injection He1 as <- <- <- <- <-.
  rewrite Hes in Hat1.
  apply partial_bind.
  apply partial_run_at with (1 := Hat1); [now apply effect_defined |].
  intros rc2 out2 es2 r2 h2 s2 He2 _ Hat2 Ht2.
  change (Git.parse staged_check_cmd) with Git.CmdDiff in He2.
  cbv beta iota zeta delta [effect] in He2. cbn [Git.index Git.history] in He2.
  assert (Ht : touches p s s2) by now apply touches_trans with (t := s1).
  destruct (entries_eqb T (Git.tip (Git.history r))) eqn:Eeq;
    injection He2 as <- <- <- <- <-; cbn [returncode Z.eqb negb].
  - apply partial_log. split.
    + apply touches_trans with (t := s2); [assumption | now apply touches_same].
    + eexists _, _, _. split.
      * unfold at_repo in *. cbn [fs world]. exact Hat2.
      * cbn [Git.history Git.index]. apply entries_eqb_eq in Eeq. now split.
  - apply partial_bind.
    apply partial_run_at with (1 := Hat2); [now apply effect_defined |].
    intros rc3 out3 es3 r3 h3 s3 He3 Hrc3 Hat3 Ht3. apply partial_ret.
    change (Git.parse (commit_cmd message data))
      with (Git.CmdCommit (commit_message message data)) in He3.
    cbv beta iota zeta delta [effect] in He3. cbn [Git.index Git.history] in He3.
    rewrite Eeq in He3. injection He3 as <- <- <- <- <-.
    split; [now apply touches_trans with (t := s2) |].
    eexists _, _, _. split; [exact Hat3 |]. cbn [Git.history Git.tip Git.tree Git.index].
    now split.
Qed.

Lemma push_synced T p s :
  synced T p s ->
  Str.mem p (Git.hub (world s)) = true ->
  partial (subprocess_run push_cmd (Some (REPOS_SUBDIR // p)) true) s
          (fun _ s' => touches p s s' /\ ready T p s').
Proof.
  intros (r & es & h & Hat & HT & Hi) Hhub.
  apply partial_run_at with (1 := Hat); [now apply effect_defined |].
  intros rc out es1 r1 h1 s1 He Hrc Hat1 Ht1.
  change (Git.parse push_cmd) with Git.CmdPush in He.
  cbv beta iota zeta delta [effect] in He.
  destruct h as [h0 |]; [| injection He as <- <- <- <- <-; now specialize (Hrc eq_refl)].
  destruct ((Git.branch r =? "master")%string && negb (is_nil (Git.history r)) &&
            Git.extends (Git.history r) h0)%bool eqn:Ec;
    injection He as <- <- <- <- <-; [| now specialize (Hrc eq_refl)].
  apply Bool.andb_true_iff in Ec as [Ec _].
  apply Bool.andb_true_iff in Ec as [Hb Hn]. apply String.eqb_eq in Hb.
  split; [assumption |].
  eexists _, _. split; [exact Hat1 |]. cbn [Git.branch Git.history Git.index].
  split; [assumption |].
  split; [| split; [assumption | split; [assumption | now apply (touches_hub p s)]]].
  now destruct (Git.history r).
Qed.

Lemma update_package_first data pk p s :
  tidy_packages pk = true -> settled pk s -> In p (packages_of pk) ->
  partial (update_package data p) s
          (fun _ s' => touches p s s' /\ synced (Git.stage tool (expected pk p)) p s').
Proof.
  intros Htidy HG Hp. unfold update_package. apply partial_bind, partial_log.
  set (s0 := State (fs s) (world s) _ (trace s)).
  assert (HG0 : settled pk s0) by now apply (settled_same pk s).
  destruct (package_source pk p s0 Htidy HG0 Hp) as (src & Hsrc & -> & Hnodup & Hlinks).
  apply partial_bind. intros [] s1 E1.
  destruct (fine_real_dir s0 p (proj1 HG0) (copy_package_dir _ _ _ _ _ E1)) as (es & Hes).
  destruct (copy_package_spec _ s0 (GNU_ELPA_PACKAGES_SUBDIR // p) (REPOS_SUBDIR // p)
              src es Hsrc Hes eq_refl Hnodup Hlinks)
    as (s1' & cur & E1' & Hstep & _ & Htree).
  rewrite E1 in E1'. injection E1' as <-.
  assert (Ht1 : touches p s s1).
  { apply touches_trans with (t := s0); [now apply touches_same |].
    now apply (touches_dir_step p cur). }
  eapply partial_weaken.
  - apply (stage_and_commit_synced (Git.stage tool (package_tree (GNU_ELPA_PACKAGES_SUBDIR // p) src))).
    + apply (touches_fine p s s1 Ht1), HG.
    + intros es1 Hes1. destruct Hstep as (Hd & _). rewrite Hd in Hes1.
      injection Hes1 as <-. now rewrite Htree.
  - cbv beta. intros _ s2 (Ht2 & Hs2). split; [| assumption].
    now apply touches_trans with (t := s1).
Qed.

Lemma push_package_first T p s :
  synced T p s -> Str.mem p (Git.hub (world s)) = true ->
  partial (push_package p) s (fun _ s' => touches p s s' /\ ready T p s').
Proof.
  intros (r & es & h & Hat & HT) Hhub. unfold push_package.
  apply partial_bind, partial_log. apply partial_bind.
  eapply partial_weaken.
  - apply (push_synced T p).
    + exists r, es, h. split; [| exact HT]. exact Hat.
    + exact Hhub.
  - cbv beta. intros _ s' (Ht & Hr). apply partial_ret. split; [| assumption].
    eapply touches_trans; [| exact Ht]. now apply touches_same.
Qed.

Lemma publish_list_first existing_repos packages data s :
  fine s ->
  ~ In ".git" packages ->
  (forall k, Str.mem k existing_repos = true -> Str.mem k (Git.hub (world s)) = true) ->
  partial (publish_list tok existing_repos packages data) s
          (fun _ s' => touches "gnu-elpa-mirror" s s' /\
                       ready (Git.stage tool (listed packages [])) "gnu-elpa-mirror" s').
Proof.
  intros Hfine Hgit Hex. unfold publish_list.
  set (T := Git.stage tool (listed packages [])). set (p := "gnu-elpa-mirror").
  (* what holds from the creation of the repository on *)
  set (J := fun s' : state Git.world =>
              touches p s s' /\ Str.mem p (Git.hub (world s')) = true).
  assert (HJ : forall s1 s2, J s1 -> touches p s1 s2 -> J s2).
  { intros s1 s2 (Ht & Hh) Ht2.
    split; [now apply touches_trans with (t := s1) | now apply (touches_hub p s1)]. }
  assert (Hlog : forall (s1 : state Git.world) m (Q : unit -> state Git.world -> Prop),
             J s1 -> (forall s2, J s2 -> Q tt s2) -> partial (log m) s1 Q).
  { intros s1 m Q HJ1 HQ. apply partial_log. apply HQ. apply (HJ s1); [assumption |].
    apply touches_same; reflexivity. }
  apply partial_bind.
  eapply partial_weaken; [apply ensure_repo; exact Hex |].
  cbv beta. intros _ s1 H1. change (J s1) in H1.
  apply partial_bind, Hlog; [assumption |]. intros s2 H2.
  apply partial_bind. eapply partial_weaken.
  { apply clone_git_repo_touches; [apply (touches_fine p s); [apply H2 | assumption]
                                  | reflexivity]. }
  cbv beta. intros _ s3 Ht3. apply (HJ s2 s3 H2) in Ht3 as H3.
  apply partial_bind, Hlog; [assumption |]. intros s4 H4.
  pose proof (touches_fine p s s4 (proj1 H4) Hfine) as Hfine4.
  apply partial_bind. intros [] s5 E5.
  destruct (fine_real_dir s4 p Hfine4 (write_mirror_list_dir _ _ _ _ _ E5)) as (es & Hes).
  destruct (write_mirror_list_spec _ s4 (REPOS_SUBDIR // p) es packages Hes Hgit)
    as (s5' & cur & E5' & Hstep & _ & Htree).
  rewrite E5 in E5'. injection E5' as <-.
  assert (H5 : J s5) by (apply (HJ s4); [assumption | now apply (touches_dir_step p cur)]).
  apply partial_bind. eapply partial_weaken.
  { apply (stage_and_commit_synced T p).
    - apply (touches_fine p s); [apply H5 | assumption].
    - intros es5 Hes5. destruct Hstep as (Hd & _). rewrite Hd in Hes5.
      injection Hes5 as <-. now rewrite Htree. }
  cbv beta. intros _ s6 (Ht6 & Hs6). apply (HJ s5 s6 H5) in Ht6 as H6.
  apply partial_bind. apply partial_log.
  set (s7 := State (fs s6) (world s6) _ (trace s6)).
  assert (H7 : J s7) by (apply (HJ s6); [assumption | apply touches_same; reflexivity]).
  apply partial_bind. eapply partial_weaken.
  { apply (push_synced T p s7).
    - destruct Hs6 as (r & es6 & h & Hat & HT). now exists r, es6, h.
    - apply H7. }
  cbv beta. intros _ s8 (Ht8 & Hr8). apply partial_ret.
  split; [| assumption]. apply touches_trans with (t := s7); [apply H7 | assumption].
Qed.

(** *** The mirrors after a first run *)

Lemma find_path_In V k (v : V) l : find_path k l = Some v -> In (k, v) l.
Proof.
  induction l as [| [k' v'] l IH]; simpl; [discriminate |].
  destruct (path_eqb k' k) eqn:E.
  - intros [= ->]. apply path_eqb_eq in E. subst. now left.
  - intros H. right. now apply IH.
Qed.

Lemma urls_ok_spec w k r :
  urls_ok tok w = true ->
  find_path (REPOS_SUBDIR // k) (Git.locals w) = Some r ->
  Git.url r = mirror_url tok k.
Proof.
  unfold urls_ok. rewrite forallb_forall. intros H Hr.
  specialize (H _ (find_path_In _ _ _ _ Hr)). cbn in H. now apply String.eqb_eq.
Qed.

(** Once [repos] is there the mirrors are [fine]. *)
Lemma mkdir_repos_start (s s' : state Git.world) :
  repos_ok (fs s) = true ->
  urls_ok tok (world s) = true ->
  Git.git (world s) = tool ->
  mkdir_exist_ok REPOS_SUBDIR s = (Ok tt, s') ->
  fine s' /\ world s' = world s /\
  get (fs s') GNU_ELPA_PACKAGES_SUBDIR = get (fs s) GNU_ELPA_PACKAGES_SUBDIR.
Proof.
  intros Hrepos Hurls Hgit E. unfold repos_ok in Hrepos.
  destruct (get (fs s) REPOS_SUBDIR) as [[x | t | rs] |] eqn:Hget; try discriminate.
  - (* the directory is there *)
    unfold mkdir_exist_ok, lstat in E.
    rewrite (walk_get MAXSYMLINKS (fs s) false REPOS_SUBDIR [] (Dir rs) Hget
               (or_introl eq_refl)) in E.
    cbn [app] in E. rewrite (fs_is_dir_real _ _ _ Hget) in E. injection E as <-.
    split; [| now split]. split; [now exists rs |]. split; [| split; [| assumption]].
    + intros k t Hk. rewrite (get_child _ _ _ k Hget) in Hk.
      rewrite forallb_forall in Hrepos. now specialize (Hrepos _ (assoc_In _ _ _ Hk)).
    + intros k r. now apply urls_ok_spec.
  - (* the directory is made *)
    assert (Hroot : exists root, get (fs s) [] = Some (Dir root) /\
                                 assoc "repos" root = None).
    { destruct (fs s) as [x | t | root] eqn:Hfs;
        [exfalso; unfold mkdir_exist_ok in E; rewrite Hfs in E; discriminate E ..|].
      exists root. split; [reflexivity |]. cbn in Hget. now destruct (assoc "repos" root). }
    destruct Hroot as (root & Hroot & Hnone).
    unfold mkdir_exist_ok, lstat in E.
    change REPOS_SUBDIR with ([] // "repos") in E.
    rewrite (walk_missing MAXSYMLINKS (fs s) false [] root "repos" Hroot Hnone) in E.
    assert (Es : s' = set_fs s (put (fs s) ([] // "repos") (Some (Dir [])))) by congruence.
    subst s'. clear E. unfold fine. cbn [fs world set_fs].
    pose proof (get_put_child (fs s) [] root "repos" (Some (Dir [])) Hroot) as Hput.
    assert (Hnew : get (put (fs s) ([] // "repos") (Some (Dir []))) REPOS_SUBDIR
                   = Some (Dir [])).
    { change REPOS_SUBDIR with ([] // "repos").
      rewrite (get_child _ _ _ "repos" Hput). apply assoc_set_eq. }
    split; [| split; [reflexivity | now apply get_put_apart]].
    split; [now exists [] |]. split; [| split; [| assumption]].
    + intros k t. now rewrite (get_child _ _ _ k Hnew).
    + intros k r. now apply urls_ok_spec.
Qed.

Lemma partial_eq X A (m : M X A) s a s1 (Q : A -> state X -> Prop) :
  m s = (Ok a, s1) -> Q a s1 -> partial m s Q.
Proof. intros E H b s' E'. rewrite E in E'. now injection E' as <- <-. Qed.

(** A run that pushes and ends normally leaves every mirror in step
    with the packages directory. *)
Lemma sync_mirrors_first args data pk s :
  tidy_packages pk = true ->
  get (fs s) GNU_ELPA_PACKAGES_SUBDIR = Some (Dir pk) ->
  repos_ok (fs s) = true ->
  urls_ok tok (world s) = true ->
  Git.git (world s) = tool ->
  Str.mem "--skip-mirror-pushes" args = false ->
  partial (sync_mirrors tok args data) s
          (fun _ s' => settled pk s' /\ mirrors_ready pk s').
Proof.
  intros Htidy Hpk Hrepos Hurls Htool Hpush.
  set (existing_repos := Git.hub (world s)).
  set (l := packages_of pk).
  (* what the loops rely on *)
  set (G := fun s' : state Git.world =>
              settled pk s' /\
              forall k, Str.mem k existing_repos = true ->
                        Str.mem k (Git.hub (world s')) = true).
  assert (G_stable : forall p s1 s2, touches p s1 s2 -> G s1 -> G s2).
  { intros p s1 s2 Ht (HG1 & Hh1). split; [now apply (settled_stable pk p s1) |].
    intros k Hk. apply (touches_hub p s1); auto. }
  assert (G_same : forall s1 s2 : state Git.world,
             fs s2 = fs s1 -> world s2 = world s1 -> trace s2 = trace s1 -> G s1 -> G s2).
  { intros s1 s2 Hf Hw Htr HG1.
    apply (G_stable "" s1); [now apply touches_same | assumption]. }
  assert (Hgit : ~ In ".git" l).
  { intros Hin. now destruct (packages_of_spec _ _ Htidy Hin) as (_ & _ & _ & _ & Hne). }
  unfold sync_mirrors.
  apply partial_bind, partial_log.
  apply partial_bind. eapply partial_eq; [reflexivity |]. cbn [fs world stderr trace].
  fold existing_repos.
  apply partial_bind.
  eapply partial_eq; [apply (enumerate_tidy _ _ pk); [exact Hpk | exact Htidy] |]. fold l.
  apply partial_bind, partial_log.
  apply partial_bind. eapply partial_eq; [reflexivity |]. cbn [fs world stderr trace].
  apply partial_bind. intros [] s1 E1.
  apply mkdir_repos_start in E1 as (Hfine1 & Hw1 & Hpk1); [| assumption ..].
  cbn [fs world] in Hw1, Hpk1.
  assert (HG1 : G s1).
  { split; [split; [assumption | now rewrite Hpk1] |]. intros k Hk. now rewrite Hw1. }
  (* clone/update mirror repositories *)
  apply partial_bind. eapply partial_weaken.
  { apply (partial_sweep (clone_mirror tok args existing_repos) l (fun _ => True) G
             (fun _ _ => True)
             (fun p s' => Str.mem p (Git.hub (world s')) = true)
             (fun _ _ => True)); auto.
    - now apply packages_of_NoDup.
    - intros p q s2 s3 Ht _. now apply (touches_hub p s2).
    - intros p s2 Hp (HG2 & Hh2) _.
      destruct (packages_of_spec _ _ Htidy Hp) as (_ & _ & _ & Hv & _).
      apply clone_mirror_first; [apply HG2 | assumption | assumption]. }
  cbv beta. intros _ s2 (HG2 & _ & Hhub2 & _).
  apply partial_bind, partial_log.
  set (s3 := State (fs s2) (world s2) _ (trace s2)).
  assert (HG3 : G s3) by now apply (G_same s2).
  (* update mirrored packages *)
  apply partial_bind. eapply partial_weaken.
  { apply (partial_sweep (update_package data) l (fun p => In p l) G
             (fun p s' => Str.mem p (Git.hub (world s')) = true)
             (fun p s' => synced (Git.stage tool (expected pk p)) p s' /\
                          Str.mem p (Git.hub (world s')) = true)
             (fun _ _ => True)); auto.
    - now apply packages_of_NoDup.
    - intros p q s4 s5 Ht _. now apply (touches_hub p s4).
    - intros p q s4 s5 Ht Hne (Hs & Hh).
      split; [now apply (synced_frame _ q p s4) | now apply (touches_hub p s4)].
    - intros p s4 Hp (HG4 & _) Hh4. eapply partial_weaken.
      + now apply (update_package_first data pk p s4).
      + cbv beta. intros _ s5 (Ht5 & Hs5).
        split; [assumption |]. split; [exact I |]. split; [assumption |].
        now apply (touches_hub p s4). }
  cbv beta. intros _ s4 (HG4 & _ & Hs4 & _).
  (* publish *)
  unfold publish. rewrite Hpush. cbn [negb].
  apply partial_bind, partial_bind, partial_log.
  set (s5 := State (fs s4) (world s4) _ (trace s4)).
  assert (HG5 : G s5) by now apply (G_same s4).
  eapply partial_weaken.
  { apply (partial_sweep (fun p => push_package p) l (fun p => In p l) G
             (fun p s' => synced (Git.stage tool (expected pk p)) p s' /\
                          Str.mem p (Git.hub (world s')) = true)
             (fun p s' => ready (Git.stage tool (expected pk p)) p s')
             (fun _ _ => True)); auto.
    - now apply packages_of_NoDup.
    - intros p q s6 s7 Ht Hne (Hs & Hh).
      split; [now apply (synced_frame _ q p s6) | now apply (touches_hub p s6)].
    - intros p q s6 s7 Ht Hne. now apply ready_frame with (q := p).
    - intros p s6 Hp _ (Hs6 & Hh6). eapply partial_weaken.
      + now apply (push_package_first (Git.stage tool (expected pk p)) p s6).
      + cbv beta. intros _ s7 (Ht7 & Hr7). auto. }
  cbv beta. intros _ s6 (HG6 & _ & Hr6 & _).
  eapply partial_weaken.
  { apply (publish_list_first existing_repos l data s6); [apply HG6 | assumption | apply HG6]. }
  cbv beta. intros _ s7 (Ht7 & Hr7).
  split; [now apply (settled_stable pk "gnu-elpa-mirror" s6), HG6 |].
  intros p Hp. apply in_app_or in Hp as [Hp | [<- | []]].
  - apply ready_frame with (q := "gnu-elpa-mirror") (s := s6); [assumption | |].
    + destruct (packages_of_spec _ _ Htidy Hp) as (_ & _ & Hne & _). congruence.
    + now apply Hr6.
  - exact Hr7.
Qed.

(** ** From one run to the next *)

Lemma mirror_split args (s : state Git.world) :
  mirror tok args s = bind upstream_part (sync_mirrors tok args) s.
Proof.
  unfold mirror, mirror_from, upstream_part, bind.
  destruct (fetch_upstream s) as [[data | e] s1]; [| reflexivity].
  now destruct (prepare_upstream s1) as [[[] | e] s2].
Qed.

(** The processes of a statement commit nothing. *)
Definition quiet : delta_spec := fun dt _ _ => Forall commits_nothing dt.

Lemma quiet_sequential : sequential quiet.
Proof. intros d1 l1 d2 l2 r H1 H2. now apply Forall_app. Qed.

Lemma quiet_idle : idle quiet.
Proof. intros dl r. constructor. Qed.

Lemma quiet_run cmd dir chk :
  git_subcommand cmd <> Some "commit" -> cmd <> staged_check_cmd ->
  site_ok quiet (Run cmd dir chk).
Proof.
  intros Hc Hd rc out. constructor; [| constructor]. split; [exact Hc |].
  intros E. now apply Hd in E.
Qed.

Lemma quiet_clone git_url repo_dir ab pr :
  site_ok quiet (Clone git_url repo_dir false ab pr).
Proof.
  intros rc out.
  assert (H : commits_nothing
                (Invocation (clone_cmd git_url repo_dir false ab) None true rc out)).
  { split; [unfold is_commit; cbn; discriminate | cbn; discriminate]. }
  destruct (rc =? 0)%Z; [| destruct pr]; repeat constructor; apply H.
Qed.

Lemma upstream_quiet (s : state Git.world) : emits_at s upstream_part quiet.
Proof.
  pose proof quiet_sequential as Hseq. pose proof quiet_idle as Hidle.
  assert (Hclone : forall u d ab pr s', emits_at s' (clone_git_repo u d false ab pr) quiet).
  { intros u d ab pr s'. apply emits_clone_git_repo; try assumption.
    - apply quiet_clone.
    - apply quiet_run; discriminate.
    - apply quiet_run; discriminate.
    - intros b. apply quiet_run; discriminate.
    - intros b. apply quiet_run; discriminate. }
  unfold upstream_part, fetch_upstream, prepare_upstream.
  repeat first
    [ apply emits_log; assumption
    | apply Hclone
    | apply emits_run;
      [assumption
      | refine (quiet_run _ _ _ _ _); [cbn; discriminate | discriminate]]
    | apply emits_silent;
      [assumption
      | first [apply silent_ret | apply silent_decode | apply silent_datetime_now
              | apply silent_patch_build_script]]
    | apply emits_bind; [assumption | | intros ? ? _] ].
Qed.

Lemma upstream_calm (s : state Git.world) : calm s (final upstream_part s).
Proof.
  destruct (upstream_quiet s) as (dt & dl & Ht & _ & H). now exists dt.
Qed.

Lemma agree_get p (s s' : state Git.world) :
  mirrors_agree tok s s' ->
  get (fs s') (REPOS_SUBDIR // p) = get (fs s) (REPOS_SUBDIR // p).
Proof. intros (H & _). unfold div. now rewrite !get_app, H. Qed.

Lemma agree_local p (s s' : state Git.world) :
  mirrors_agree tok s s' ->
  find_path (REPOS_SUBDIR // p) (Git.locals (world s')) =
  find_path (REPOS_SUBDIR // p) (Git.locals (world s)).
Proof.
  intros (_ & H & _).
  rewrite <- (find_path_filter _ under_repos (REPOS_SUBDIR // p) (Git.locals (world s')))
    by reflexivity.
  rewrite H. now apply find_path_filter.
Qed.

Lemma agree_remote p (s s' : state Git.world) :
  mirrors_agree tok s s' ->
  find_string (mirror_url tok p) (Git.remotes (world s')) =
  find_string (mirror_url tok p) (Git.remotes (world s)).
Proof.
  intros (_ & _ & H & _).
  rewrite <- (find_string_filter _ (is_mirror_url tok) (mirror_url tok p)
                (Git.remotes (world s')))
    by apply is_mirror_url_mirror_url.
  rewrite H. apply find_string_filter, is_mirror_url_mirror_url.
Qed.

Lemma agree_ready T p s s' : mirrors_agree tok s s' -> ready T p s -> ready T p s'.
Proof.
  intros Ha (r & es & (Hes & Hr & Hu & Hh & Hgit) & Hb & Hn & HT & Hi & Hhub).
  exists r, es. split; [| repeat (split; [assumption |])].
  - split; [now rewrite (agree_get p s s' Ha) |].
    split; [now rewrite (agree_local p s s' Ha) |].
    split; [assumption |]. split; [now rewrite (agree_remote p s s' Ha) |].
    destruct Ha as (_ & _ & _ & _ & ->). assumption.
  - destruct Ha as (_ & _ & _ & -> & _). assumption.
Qed.

Lemma agree_fine s s' : mirrors_agree tok s s' -> fine s -> fine s'.
Proof.
  intros Ha ((rs & Hrs) & Hlink & Hurl & Hgit). split; [| split; [| split]].
  - exists rs. destruct Ha as (-> & _). assumption.
  - intros k t. rewrite (agree_get k s s' Ha). apply Hlink.
  - intros k r. rewrite (agree_local k s s' Ha). apply Hurl.
  - destruct Ha as (_ & _ & _ & _ & ->). assumption.
Qed.

End Mirrors.

(** *** C4 *)



(** The first run has to push: after a run with [--skip-mirror-pushes]
    the remotes are behind, the next run resets the mirrors to them and
    commits again. *)
Lemma run_after_dry_run_commits :
  existsb (fun i => match git_subcommand (argv i) with
                    | Some c => c =? "commit"
                    | None => false
                    end)
          (started (mirror Sample.TOKEN []) Sample.state_dry) = true.
Proof. vm_compute. reflexivity. Qed.


(** *** C5 *)

Lemma assoc_cons k a n t :
  assoc k ((a, n) :: remove_entry a t) = if (k =? a)%string then Some n else assoc k t.
Proof.
  cbn [assoc]. rewrite (String.eqb_sym k a).
  destruct (String.eqb_spec a k) as [-> | Hne]; [reflexivity |].
  now apply assoc_remove_neq.
Qed.

(** What the mirror list tracks: one empty file per package. *)
Lemma assoc_listed packages : forall t k,
  assoc k (listed packages t) = if Str.mem k packages then Some (File "") else assoc k t.
Proof.
  induction packages as [| p packages IH]; intros t k; [reflexivity |].
  cbn [listed]. rewrite IH. unfold Str.mem. cbn [existsb]. fold (Str.mem k packages).
  destruct (Str.mem k packages); [now rewrite Bool.orb_true_r |].
  rewrite Bool.orb_false_r. apply assoc_cons.
Qed.



(** * More of the script *)

(** ** [remove_prefix] and the branch of a repository *)

Lemma drop_append p s : Str.drop (String.length p) (p ++ s) = s.
Proof. induction p as [| c p IH]; [now destruct s | exact IH]. Qed.

Lemma prefix_drop p : forall s,
  String.prefix p s = true -> (p ++ Str.drop (String.length p) s)%string = s.
Proof.
  induction p as [| c p IH]; intros s H; [now destruct s |].
  destruct s as [| c' s]; [discriminate |]. simpl in H.
  destruct (ascii_dec c c') as [-> | _]; [| discriminate].
  simpl. now rewrite IH.
Qed.

Lemma remove_prefix_append p s : remove_prefix p (p ++ s) = s.
Proof. unfold remove_prefix. now rewrite prefix_append, drop_append. Qed.

(** X1: [remove_prefix] takes the prefix away where the string starts with
    it, once only, and returns every other string as it is. *)
Theorem remove_prefix_removes_one_prefix prefix s :
  remove_prefix prefix (prefix ++ s) = s /\
  (String.prefix prefix s = true -> (prefix ++ remove_prefix prefix s)%string = s) /\
  (String.prefix prefix s = false -> remove_prefix prefix s = s) /\
  String.length (remove_prefix prefix s) <= String.length s.
Proof.
  split; [apply remove_prefix_append |].
  unfold remove_prefix. destruct (String.prefix prefix s) eqn:E.
  - split; [intros _; now apply prefix_drop |]. split; [discriminate |].
    rewrite <- (prefix_drop prefix s E) at 2. rewrite length_append. lia.
  - split; [discriminate |]. split; [reflexivity | lia].
Qed.

(** A byte below 128 that is no white space stays where it is. *)
Lemma rstrip_keeps c s :
  Str.is_space c = false -> nat_of_ascii c < 128 ->
  Str.rstrip (String c s) = String c (Str.rstrip s).
Proof.
  intros Hs Hc. cbn [Str.rstrip]. cbv zeta.
  assert (E : Str.space_at (String c (Str.rstrip s)) = 0).
  { unfold Str.space_at. rewrite Hs.
    destruct (Str.rstrip s) as [| b [| d r]]; [reflexivity | |].
    - destruct (Nat.eqb_spec (nat_of_ascii c) 194) as [E | _]; [lia | reflexivity].
    - destruct (Nat.eqb_spec (nat_of_ascii c) 194) as [E | _]; [lia |].
      destruct (Nat.eqb_spec (nat_of_ascii c) 225) as [E | _]; [lia |].
      destruct (Nat.eqb_spec (nat_of_ascii c) 226) as [E | _]; [lia |].
      destruct (Nat.eqb_spec (nat_of_ascii c) 227) as [E | _]; [lia |].
      reflexivity. }
  now rewrite E.
Qed.

Lemma rstrip_line s : Str.rstrip (s ++ Str.nl) = Str.rstrip s.
Proof. induction s as [| c s IH]; [reflexivity |]. cbn [append Str.rstrip]. now rewrite IH. Qed.

(** Text that is well-formed stays so with a line feed after it. *)
Lemma utf8_valid_line a : forall st,
  Str.utf8_from st (a ++ Str.nl) = Str.utf8_from st a.
Proof.
  induction a as [| c a IH]; intros st; [now destruct st |].
  cbn [append Str.utf8_from]. destruct (Str.utf8_step st c); [apply IH | reflexivity].
Qed.

(** X2: [git symbolic-ref HEAD] prints [refs/heads/<branch>] and a line
    feed.  Where the name of the branch is well-formed UTF-8 the output
    is decoded as it is, and the branch the script reads from it is
    [<branch>] without the white space at its end, if any; white space
    is what [str.strip] takes for it, U+00A0 and the like included. *)
Theorem branch_of_symbolic_ref X (s : state X) branch :
  Str.utf8_valid branch = true ->
  decode ("refs/heads/" ++ branch ++ Str.nl)%string s
  = (Ok ("refs/heads/" ++ branch ++ Str.nl)%string, s) /\
  remove_prefix "refs/heads/" (Str.strip ("refs/heads/" ++ branch ++ Str.nl)%string)
  = Str.rstrip branch.
Proof.
  intros Hb. split.
  - unfold decode.
    replace (Str.utf8_valid ("refs/heads/" ++ branch ++ Str.nl)%string) with true;
      [reflexivity |].
    symmetry. unfold Str.utf8_valid in *. cbn [append Str.utf8_from].
    change (Str.utf8_from Str.U_start (branch ++ Str.nl) = true).
    now rewrite utf8_valid_line.
  - unfold Str.strip.
    change (Str.lstrip ("refs/heads/" ++ branch ++ Str.nl)%string)
      with ("refs/heads/" ++ branch ++ Str.nl)%string.
    cbn [append].
    rewrite !rstrip_keeps by (first [reflexivity | cbn; lia]).
    rewrite rstrip_line.
    apply (remove_prefix_append "refs/heads/").
Qed.

(** A branch whose name ends in a no-break space, U+00A0. *)
Lemma branch_of_symbolic_ref_witness :
  Str.utf8_valid ("rel" ++ String (ascii_of_nat 194) (String (ascii_of_nat 160) "")) = true /\
  decode ("refs/heads/" ++
          ("rel" ++ String (ascii_of_nat 194) (String (ascii_of_nat 160) "")) ++ Str.nl)%string
         Sample.state0
  = (Ok ("refs/heads/" ++
         ("rel" ++ String (ascii_of_nat 194) (String (ascii_of_nat 160) "")) ++ Str.nl)%string,
     Sample.state0) /\
  remove_prefix "refs/heads/"
    (Str.strip ("refs/heads/" ++
                ("rel" ++ String (ascii_of_nat 194) (String (ascii_of_nat 160) "")) ++
                Str.nl)%string)
  = Str.rstrip ("rel" ++ String (ascii_of_nat 194) (String (ascii_of_nat 160) "")) /\
  Str.rstrip ("rel" ++ String (ascii_of_nat 194) (String (ascii_of_nat 160) "")) = "rel".
Proof.
  split; [reflexivity |].
  split; [| split; [| reflexivity]];
    apply (branch_of_symbolic_ref Git.world Sample.state0
             ("rel" ++ String (ascii_of_nat 194) (String (ascii_of_nat 160) "")) eq_refl).
Defined.

(** ** One call of [clone_git_repo] or [stage_and_commit], whatever the
    processes do *)

Section Calls.

Variable X : Type.
Context {O : Outside X}.

Lemma skipn_own A (l l' : list A) : skipn (List.length l) (l ++ l') = l'.
Proof. now rewrite skipn_app, skipn_all, Nat.sub_diag. Qed.

(** How a call of [subprocess.run] ends: without a process when the
    working directory is missing, and with one process otherwise. *)
Lemma subprocess_run_cases cmd dir chk (s : state X) :
  (exists d, dir = Some d /\ fs_is_dir (fs s) d = false /\
             subprocess_run cmd dir chk s = (Raise (no_directory_error (fs s) d), s)) \/
  (exists rc out f w,
      let i := Invocation cmd dir chk rc out in
      subprocess_run cmd dir chk s =
      (if (chk && negb (rc =? 0)%Z)%bool then Raise (CalledProcessError rc cmd) else Ok i,
       State f w (stderr s) (trace s ++ [i]))).
Proof.
  unfold subprocess_run. destruct dir as [d |].
  - destruct (fs_is_dir (fs s) d) eqn:Hd; cbn [negb].
    + right. destruct (spawn cmd (Some d) (fs s) (world s)) as [[[rc out] f] w].
      exists rc, out, f, w. cbv zeta. now destruct (chk && negb (rc =? 0)%Z)%bool.
    + left. now exists d.
  - right. destruct (spawn cmd None (fs s) (world s)) as [[[rc out] f] w].
    exists rc, out, f, w. cbv zeta. now destruct (chk && negb (rc =? 0)%Z)%bool.
Qed.

Lemma subprocess_run_ok cmd dir chk (s : state X) i s' :
  subprocess_run cmd dir chk s = (Ok i, s') ->
  exists rc out,
    i = Invocation cmd dir chk rc out /\
    trace s' = trace s ++ [i] /\ stderr s' = stderr s /\
    (chk = true -> rc = 0%Z).
Proof.
  intros E.
  destruct (subprocess_run_cases cmd dir chk s)
    as [(d & _ & _ & E') | (rc & out & f & w & E')]; rewrite E' in E; [discriminate |].
  cbv zeta in E. exists rc, out.
  destruct (chk && negb (rc =? 0)%Z)%bool eqn:Hc; [discriminate |].
  injection E as <- <-. repeat split.
  intros ->. cbn in Hc. apply Bool.negb_false_iff in Hc. now apply Z.eqb_eq.
Qed.

(** X3: Where there is no directory yet, [clone_git_repo] starts one
    process, the clone.  When it fails, a clone from a private URL ends
    the run with status 1 and one fixed message; any other clone lets
    the error of the process through and writes nothing. *)
Theorem fresh_clone_is_one_process git_url repo_dir shallow all_branches private_url
    (s : state X) :
  fs_is_dir (fs s) repo_dir = false ->
  exists rc out,
    started (clone_git_repo git_url repo_dir shallow all_branches private_url) s =
    [Invocation (clone_cmd git_url repo_dir shallow all_branches) None true rc out] /\
    outcome (clone_git_repo git_url repo_dir shallow all_branches private_url) s =
    (if (rc =? 0)%Z then Ok tt
     else if private_url then Raise (SystemExit 1)
          else Raise (CalledProcessError rc
                        (clone_cmd git_url repo_dir shallow all_branches))) /\
    written (clone_git_repo git_url repo_dir shallow all_branches private_url) s =
    (if (negb (rc =? 0)%Z && private_url)%bool
     then ["gnu_elpa_mirror: cloning repository failed (details omitted for security)"]
     else []).
Proof.
  intros Hd.
  unfold started, outcome, written, final, clone_git_repo, bind, is_dir, catch,
    subprocess_run.
  rewrite Hd. cbn [negb].
  destruct (spawn (clone_cmd git_url repo_dir shallow all_branches) None (fs s) (world s))
    as [[[rc out] f] w].
  exists rc, out. cbn [andb]. destruct (rc =? 0)%Z; cbn [negb andb].
  - cbn [fst snd trace stderr ret]. now rewrite skipn_own, skipn_all.
  - destruct private_url; cbn; rewrite ?skipn_own, ?skipn_all; auto.
Qed.

(** X4: Where the directory is there, [clone_git_repo] never clones.  When
    it ends normally it has asked for the branch, fetched, asked
    whether the branch exists at the remote and, exactly when it does,
    reset to it: the reset follows a [show-ref] of the same ref that
    ended with status 0.  The answer to the first question was
    well-formed UTF-8, and the ref is made of it as decoded and
    stripped of the white space of [str.strip], U+00A0 and the like
    included.  It has written nothing. *)
Theorem update_resets_to_what_show_ref_found git_url repo_dir shallow all_branches
    private_url (s : state X) :
  fs_is_dir (fs s) repo_dir = true ->
  outcome (clone_git_repo git_url repo_dir shallow all_branches private_url) s = Ok tt ->
  exists out1 out2 rc3 out3 rest,
    started (clone_git_repo git_url repo_dir shallow all_branches private_url) s =
    Invocation ["git"; "symbolic-ref"; "HEAD"] (Some repo_dir) true 0 out1
    :: Invocation ["git"; "fetch"] (Some repo_dir) true 0 out2
    :: Invocation ["git"; "show-ref";
                   remote_ref (remove_prefix "refs/heads/" (Str.strip out1))]
                  (Some repo_dir) false rc3 out3
    :: rest /\
    Str.utf8_valid out1 = true /\
    ((rc3 = 0%Z /\
      exists out4,
        rest = [Invocation ["git"; "reset"; "--hard";
                            remote_ref (remove_prefix "refs/heads/" (Str.strip out1))]
                           (Some repo_dir) true 0 out4]) \/
     (rc3 <> 0%Z /\ rest = [])) /\
    written (clone_git_repo git_url repo_dir shallow all_branches private_url) s = [].
Proof.
  intros Hd Hok. unfold outcome in Hok. unfold started, written, final.
  destruct (clone_git_repo git_url repo_dir shallow all_branches private_url s)
    as [[[] | e] s'] eqn:E; [clear Hok | discriminate].
  cbn [snd]. revert E. unfold clone_git_repo. unfold bind at 1. unfold is_dir at 1.
  rewrite Hd. cbn [negb]. intros E.
  unfold bind at 1 in E.
  destruct (subprocess_run ["git"; "symbolic-ref"; "HEAD"] (Some repo_dir) true s)
    as [[i1 | e] s1] eqn:E1; [| discriminate].
  apply subprocess_run_ok in E1 as (rc1 & out1 & -> & Ht1 & Hl1 & Hrc1).
  rewrite (Hrc1 eq_refl) in *. cbn [stdout] in E.
  unfold bind at 1 in E. unfold decode at 1 in E.
  destruct (Str.utf8_valid out1) eqn:Hv; [| discriminate].
  unfold bind at 1 in E.
  destruct (subprocess_run ["git"; "fetch"] (Some repo_dir) true s1)
    as [[i2 | e] s2] eqn:E2; [| discriminate].
  apply subprocess_run_ok in E2 as (rc2 & out2 & -> & Ht2 & Hl2 & Hrc2).
  rewrite (Hrc2 eq_refl) in *.
  unfold bind at 1 in E.
  match type of E with
  | context [subprocess_run ?c ?d false s2] =>
      destruct (subprocess_run c d false s2) as [[i3 | e] s3] eqn:E3; [| discriminate]
  end.
  apply subprocess_run_ok in E3 as (rc3 & out3 & -> & Ht3 & Hl3 & _).
  cbn [returncode] in E.
  exists out1, out2, rc3, out3.
  destruct (Z.eqb_spec rc3 0) as [-> | Hne].
  - unfold bind at 1 in E.
    match type of E with
    | context [subprocess_run ?c ?d true s3] =>
        destruct (subprocess_run c d true s3) as [[i4 | e] s4] eqn:E4; [| discriminate]
    end.
    apply subprocess_run_ok in E4 as (rc4 & out4 & -> & Ht4 & Hl4 & Hrc4).
    rewrite (Hrc4 eq_refl) in *. injection E as <-.
    eexists.
    split; [| split; [exact Hv | split; [left; split; [reflexivity | now exists out4] |]]].
    + rewrite Ht4, Ht3, Ht2, Ht1, <- !app_assoc. cbn [app]. apply skipn_own.
    + rewrite Hl4, Hl3, Hl2, Hl1. apply skipn_all.
  - injection E as <-.
    exists []. split; [| split; [exact Hv | split; [right; now split |]]].
    + rewrite Ht3, Ht2, Ht1, <- !app_assoc. cbn [app]. apply skipn_own.
    + rewrite Hl3, Hl2, Hl1. apply skipn_all.
Qed.

(** The ways a call of [stage_and_commit] can go: the processes it
    started, what it wrote and how it ended. *)
Inductive staged (repo_dir : path) (message : string) (data : commit_data)
  : list invocation -> list string -> result unit -> Prop :=
| staged_nowhere e : staged repo_dir message data [] [] (Raise e)
| staged_add_failed rc out e :
    rc <> 0%Z ->
    staged repo_dir message data
      [Invocation ["git"; "add"; "--all"; "--force"] (Some repo_dir) true rc out] []
      (Raise e)
| staged_gone out e :
    staged repo_dir message data
      [Invocation ["git"; "add"; "--all"; "--force"] (Some repo_dir) true 0 out] []
      (Raise e)
| staged_nothing out out' :
    staged repo_dir message data
      [Invocation ["git"; "add"; "--all"; "--force"] (Some repo_dir) true 0 out;
       Invocation staged_check_cmd (Some repo_dir) false 0 out']
      ["(no changes)"] (Ok tt)
| staged_gone_later out rc' out' e :
    rc' <> 0%Z ->
    staged repo_dir message data
      [Invocation ["git"; "add"; "--all"; "--force"] (Some repo_dir) true 0 out;
       Invocation staged_check_cmd (Some repo_dir) false rc' out']
      [] (Raise e)
| staged_commit out rc' out' rc'' out'' r :
    rc' <> 0%Z ->
    staged repo_dir message data
      [Invocation ["git"; "add"; "--all"; "--force"] (Some repo_dir) true 0 out;
       Invocation staged_check_cmd (Some repo_dir) false rc' out';
       Invocation (commit_cmd message data) (Some repo_dir) true rc'' out'']
      [] r.

Lemma stage_and_commit_staged repo_dir message data (s : state X) :
  exists dt dl,
    trace (final (stage_and_commit repo_dir message data) s) = trace s ++ dt /\
    stderr (final (stage_and_commit repo_dir message data) s) = stderr s ++ dl /\
    staged repo_dir message data dt dl (outcome (stage_and_commit repo_dir message data) s).
Proof.
  assert (Hnil : forall l : list string, l = l ++ []) by (intros; now rewrite app_nil_r).
  unfold final, outcome, stage_and_commit.
  destruct (subprocess_run_cases ["git"; "add"; "--all"; "--force"] (Some repo_dir) true s)
    as [(d & _ & _ & E1) | (rc1 & out1 & f1 & w1 & E1)]; cbv zeta in E1.
  { rewrite (bind_raise _ _ _ _ _ _ _ _ E1). exists [], []. cbn [fst snd].
    split; [now rewrite app_nil_r |]. split; [apply Hnil | apply staged_nowhere]. }
  destruct (Z.eqb_spec rc1 0) as [-> | Hrc1]; cbn [andb negb Z.eqb] in E1.
  2:{ rewrite (bind_raise _ _ _ _ _ _ _ _ E1). eexists _, []. cbn [fst snd trace stderr].
      split; [reflexivity |]. split; [apply Hnil | now apply staged_add_failed]. }
  rewrite (bind_ok _ _ _ _ _ _ _ _ E1). clear E1.
  set (s1 := State f1 w1 (stderr s) (trace s ++ [_])).
  destruct (subprocess_run_cases staged_check_cmd (Some repo_dir) false s1)
    as [(d & _ & _ & E2) | (rc2 & out2 & f2 & w2 & E2)]; cbv zeta in E2; cbn [andb] in E2.
  { rewrite (bind_raise _ _ _ _ _ _ _ _ E2). eexists _, []. cbn [fst snd trace stderr s1].
    split; [reflexivity |]. split; [apply Hnil | apply staged_gone]. }
  rewrite (bind_ok _ _ _ _ _ _ _ _ E2). clear E2. cbn [returncode].
  set (s2 := State f2 w2 (stderr s1) (trace s1 ++ [_])).
  destruct (Z.eqb_spec rc2 0) as [-> | Hrc2]; cbn [negb].
  - eexists _, _. cbn [log fst snd trace stderr s2 s1]. rewrite <- app_assoc.
    split; [reflexivity |]. split; [reflexivity | apply staged_nothing].
  - destruct (subprocess_run_cases (commit_cmd message data) (Some repo_dir) true s2)
      as [(d & _ & _ & E3) | (rc3 & out3 & f3 & w3 & E3)]; cbv zeta in E3.
    { rewrite (bind_raise _ _ _ _ _ _ _ _ E3). eexists _, [].
      cbn [fst snd trace stderr s2 s1]. rewrite <- app_assoc.
      split; [reflexivity |]. split; [apply Hnil | now apply staged_gone_later]. }
    unfold bind. rewrite E3.
    exists [Invocation ["git"; "add"; "--all"; "--force"] (Some repo_dir) true 0 out1;
            Invocation staged_check_cmd (Some repo_dir) false rc2 out2;
            Invocation (commit_cmd message data) (Some repo_dir) true rc3 out3], [].
    destruct (true && negb (rc3 =? 0)%Z)%bool; cbn [ret fst snd trace stderr s2 s1];
      rewrite <- !app_assoc; (split; [reflexivity |]); (split; [apply Hnil |]);
      now apply staged_commit.
Qed.

(** X5: [stage_and_commit] commits exactly when the staged-changes check
    says that something is staged: a commit is the third process, after
    [git add] and a check that ended with a nonzero status; and after a
    check that ended with status 0 nothing more is started, the call
    ends normally and its one message is [(no changes)]. *)
Theorem commit_only_after_staged_changes repo_dir message data (s : state X) :
  (forall i,
      In i (started (stage_and_commit repo_dir message data) s) -> is_commit i ->
      exists add check,
        started (stage_and_commit repo_dir message data) s = [add; check; i] /\
        argv add = ["git"; "add"; "--all"; "--force"] /\ returncode add = 0%Z /\
        argv check = staged_check_cmd /\ returncode check <> 0%Z /\
        argv i = commit_cmd message data) /\
  (forall check,
      In check (started (stage_and_commit repo_dir message data) s) ->
      argv check = staged_check_cmd -> returncode check = 0%Z ->
      (exists add, started (stage_and_commit repo_dir message data) s = [add; check]) /\
      outcome (stage_and_commit repo_dir message data) s = Ok tt /\
      written (stage_and_commit repo_dir message data) s = ["(no changes)"]).
Proof.
  destruct (stage_and_commit_staged repo_dir message data s) as (dt & dl & Ht & Hl & H).
  rewrite (started_app _ _ _ _ _ Ht), (written_app _ _ _ _ _ Hl).
  remember (outcome (stage_and_commit repo_dir message data) s) as r eqn:Er.
  clear Er Ht Hl. split.
  - intros i Hi Hc.
    destruct H; cbn in Hi;
      repeat (destruct Hi as [<- | Hi]; [try discriminate Hc |]); try contradiction.
    eexists _, _. split; [reflexivity |]. cbn [argv returncode]. auto.
  - intros i Hi Ha Hr.
    destruct H; cbn in Hi;
      repeat (destruct Hi as [<- | Hi]; [try discriminate Ha; cbn in Hr |]);
      try contradiction; eauto.
Qed.

End Calls.

(** Where nothing is there yet: the first clone of GNU ELPA. *)
Lemma fresh_clone_is_one_process_witness :
  fs_is_dir (fs Sample.state0) GNU_ELPA_SUBDIR = false /\
  exists rc out,
    started (clone_git_repo GNU_ELPA_GIT_URL GNU_ELPA_SUBDIR false true false) Sample.state0 =
    [Invocation (clone_cmd GNU_ELPA_GIT_URL GNU_ELPA_SUBDIR false true) None true rc out] /\
    outcome (clone_git_repo GNU_ELPA_GIT_URL GNU_ELPA_SUBDIR false true false) Sample.state0 =
    (if (rc =? 0)%Z then Ok tt
     else if false then Raise (SystemExit 1)
          else Raise (CalledProcessError rc
                        (clone_cmd GNU_ELPA_GIT_URL GNU_ELPA_SUBDIR false true))) /\
    written (clone_git_repo GNU_ELPA_GIT_URL GNU_ELPA_SUBDIR false true false) Sample.state0 =
    (if (negb (rc =? 0)%Z && false)%bool
     then ["gnu_elpa_mirror: cloning repository failed (details omitted for security)"]
     else []).
Proof.
  split; [reflexivity |].
  exact (fresh_clone_is_one_process Git.world GNU_ELPA_GIT_URL GNU_ELPA_SUBDIR false true
           false Sample.state0 eq_refl).
Defined.

(** The clone of GNU ELPA at the start of a second run. *)
Lemma update_resets_to_what_show_ref_found_witness :
  fs_is_dir (fs Sample.state1) GNU_ELPA_SUBDIR = true /\
  outcome (clone_git_repo GNU_ELPA_GIT_URL GNU_ELPA_SUBDIR false true false) Sample.state1
  = Ok tt /\
  exists out1 out2 rc3 out3 rest,
    started (clone_git_repo GNU_ELPA_GIT_URL GNU_ELPA_SUBDIR false true false) Sample.state1 =
    Invocation ["git"; "symbolic-ref"; "HEAD"] (Some GNU_ELPA_SUBDIR) true 0 out1
    :: Invocation ["git"; "fetch"] (Some GNU_ELPA_SUBDIR) true 0 out2
    :: Invocation ["git"; "show-ref";
                   remote_ref (remove_prefix "refs/heads/" (Str.strip out1))]
                  (Some GNU_ELPA_SUBDIR) false rc3 out3
    :: rest /\
    Str.utf8_valid out1 = true /\
    ((rc3 = 0%Z /\
      exists out4,
        rest = [Invocation ["git"; "reset"; "--hard";
                            remote_ref (remove_prefix "refs/heads/" (Str.strip out1))]
                           (Some GNU_ELPA_SUBDIR) true 0 out4]) \/
     (rc3 <> 0%Z /\ rest = [])) /\
    written (clone_git_repo GNU_ELPA_GIT_URL GNU_ELPA_SUBDIR false true false) Sample.state1
    = [].
Proof.
  assert (H1 : fs_is_dir (fs Sample.state1) GNU_ELPA_SUBDIR = true)
    by (vm_compute; reflexivity).
  assert (H2 : outcome (clone_git_repo GNU_ELPA_GIT_URL GNU_ELPA_SUBDIR false true false)
                 Sample.state1 = Ok tt)
    by (vm_compute; reflexivity).
  exact (conj H1 (conj H2
           (update_resets_to_what_show_ref_found Git.world GNU_ELPA_GIT_URL GNU_ELPA_SUBDIR
              false true false Sample.state1 H1 H2))).
Defined.

(** ** Directories that are missing, in the way, or already clean *)

Section Directories.

Variable X : Type.
Context {O : Outside X}.

Lemma skip_dot_git (s : state X) l :
  Forall (fun p => name p = ".git") l -> for_each l delete_entry s = (Ok tt, s).
Proof.
  induction 1 as [| p l Hp _ IH]; [reflexivity |].
  cbn [for_each]. unfold bind, delete_entry. now rewrite Hp.
Qed.

Lemma delete_contents_nothing_to_do (s : state X) d cur :
  get (fs s) d = Some (Dir cur) ->
  (forall k, In k (map fst cur) -> k = ".git") ->
  delete_contents d s = (Ok tt, s).
Proof.
  intros Hd Hall.
  destruct (sorted_children d (map fst cur)) as (names & _ & Es & HP).
  unfold delete_contents, bind, iterdir. rewrite (stat_dir _ _ _ Hd).
  rewrite <- map_map, Es. apply skip_dot_git.
  apply Forall_forall. intros p Hp. apply in_map_iff in Hp as (k & <- & Hk).
  rewrite name_div. apply Hall. apply (Permutation_in _ (Permutation_sym HP) Hk).
Qed.

(** X6: [delete_contents] is idempotent: on a directory it has emptied, a
    second call ends normally and changes nothing at all. *)
Theorem delete_contents_twice (s : state X) d cur :
  get (fs s) d = Some (Dir cur) ->
  delete_contents d (final (delete_contents d) s) =
  (Ok tt, final (delete_contents d) s).
Proof.
  intros Hd.
  destruct (delete_contents_spec X s d cur Hd) as (s' & E & Hd' & _).
  unfold final. rewrite E. cbn [snd].
  apply (delete_contents_nothing_to_do s' d _ Hd').
  intros k Hk. apply in_map_iff in Hk as ([k' n] & <- & Hin).
  apply filter_In in Hin as [_ Hgit]. now apply String.eqb_eq in Hgit.
Qed.

(** X7: [delete_contents] needs a directory: on a name that is not there it
    raises [FileNotFoundError], on a regular file [NotADirectoryError],
    and in both cases nothing has changed. *)
Theorem delete_contents_needs_a_directory (s : state X) d es k :
  get (fs s) d = Some (Dir es) ->
  (assoc k es = None ->
   delete_contents (d // k) s = (Raise (FileNotFoundError (d // k)), s)) /\
  (forall data, assoc k es = Some (File data) ->
   delete_contents (d // k) s = (Raise (NotADirectoryError (d // k)), s)).
Proof.
  intros Hd. split.
  - intros Hk. unfold delete_contents, bind, iterdir.
    rewrite (stat_child _ _ _ k Hd) by (rewrite Hk; discriminate).
    now rewrite Hk, (missing_error_child _ _ _ k Hd).
  - intros data Hk. unfold delete_contents, bind, iterdir.
    rewrite (stat_child _ _ _ k Hd) by (rewrite Hk; discriminate). now rewrite Hk.
Qed.

Lemma for_fold_keeps_state A B (body : A -> B -> M X B) l :
  (forall a acc s, snd (body a acc s) = s) ->
  forall acc s, snd (for_fold l acc body s) = s.
Proof.
  intros Hb. induction l as [| a l IH]; intros acc s; [reflexivity |].
  cbn [for_fold]. unfold bind. specialize (Hb a acc s).
  destruct (body a acc s) as [[acc' | e] s1]; cbn [snd] in *; subst s1; [apply IH | reflexivity].
Qed.

Lemma enumerate_packages_keeps_state (s : state X) : snd (enumerate_packages s) = s.
Proof.
  unfold enumerate_packages, bind, iterdir.
  destruct (stat (fs s) GNU_ELPA_PACKAGES_SUBDIR) as [[loc [[x | t | es] |]] |];
    try reflexivity.
  apply for_fold_keeps_state. intros a acc s0. unfold bind, is_dir.
  destruct (negb (fs_is_dir (fs s0) a)); [reflexivity |].
  now destruct (name a =? "gnu-elpa-mirror")%string.
Qed.

(** X8: When [repos] is there but is a regular file, the part of the run
    that handles the mirrors raises before it has started a process or
    changed a file. *)
Theorem repos_must_be_a_directory tok args data (s : state X) contents :
  get (fs s) REPOS_SUBDIR = Some (File contents) ->
  (exists e, outcome (sync_mirrors tok args data) s = Raise e) /\
  started (sync_mirrors tok args data) s = [] /\
  fs (final (sync_mirrors tok args data) s) = fs s.
Proof.
  intros Hrepos.
  assert (Hmk : forall s1 : state X, fs s1 = fs s ->
                  mkdir_exist_ok REPOS_SUBDIR s1 = (Raise (FileExistsError REPOS_SUBDIR), s1)).
  { intros s1 Hf. unfold mkdir_exist_ok, lstat, fs_is_dir, stat. rewrite Hf.
    rewrite (walk_get MAXSYMLINKS (fs s) false REPOS_SUBDIR [] _ Hrepos (or_introl eq_refl)).
    now rewrite (walk_get MAXSYMLINKS (fs s) true REPOS_SUBDIR [] _ Hrepos
                   (or_intror eq_refl)). }
  assert (Hgoal : exists e s', sync_mirrors tok args data s = (Raise e, s') /\
                               trace s' = trace s /\ fs s' = fs s).
  { unfold sync_mirrors. unfold bind at 1. cbn [log].
    set (s1 := State (fs s) (world s) _ (trace s)).
    unfold bind at 1. unfold github_call at 1.
    destruct (github (GetUserRepos tok "emacs-straight") (world s1)) as [[repos | e] w2];
      [| now eexists _, _].
    set (s2 := State (fs s1) w2 (stderr s1) (trace s1)).
    unfold bind at 1. pose proof (enumerate_packages_keeps_state s2) as Hen.
    destruct (enumerate_packages s2) as [[packages | e] s3]; cbn [snd] in Hen; subst s3;
      [| now eexists _, _].
    unfold bind at 1. cbn [log].
    set (s3 := State (fs s2) (world s2) _ (trace s2)).
    unfold bind at 1. unfold github_call at 1.
    destruct (github (GetOrganization tok "emacs-straight") (world s3)) as [[org | e] w4];
      [| now eexists _, _].
    set (s4 := State (fs s3) w4 (stderr s3) (trace s3)).
    unfold bind at 1. rewrite (Hmk s4 eq_refl). now eexists _, _. }
  destruct Hgoal as (e & s' & E & Ht & Hf).
  unfold outcome, started, final. rewrite E. cbn [fst snd]. rewrite Ht, skipn_all.
  split; [now exists e |]. now split.
Qed.

End Directories.

(** A directory with a stale file, a directory and a link in it. *)
Lemma delete_contents_twice_witness :
  get (fs Sample.cluttered) ["repos"; "foo"] = Some (Dir Sample.cluttered_mirror) /\
  delete_contents ["repos"; "foo"] (final (delete_contents ["repos"; "foo"]) Sample.cluttered) =
  (Ok tt, final (delete_contents ["repos"; "foo"]) Sample.cluttered).
Proof.
  split; [reflexivity |].
  exact (delete_contents_twice unit Sample.cluttered ["repos"; "foo"]
           Sample.cluttered_mirror eq_refl).
Defined.

(** [repos] holds the mirror [foo] and nothing else: [bar] is missing,
    and [foo/old.el] is a regular file. *)
Lemma delete_contents_needs_a_directory_witness :
  get (fs Sample.cluttered) ["repos"] = Some (Dir [("foo", Dir Sample.cluttered_mirror)]) /\
  (assoc "bar" [("foo", Dir Sample.cluttered_mirror)] = None ->
   delete_contents (["repos"] // "bar") Sample.cluttered =
   (Raise (FileNotFoundError (["repos"] // "bar")), Sample.cluttered)) /\
  (forall data, assoc "bar" [("foo", Dir Sample.cluttered_mirror)] = Some (File data) ->
   delete_contents (["repos"] // "bar") Sample.cluttered =
   (Raise (NotADirectoryError (["repos"] // "bar")), Sample.cluttered)).
Proof.
  split; [reflexivity |].
  exact (delete_contents_needs_a_directory unit Sample.cluttered ["repos"]
           [("foo", Dir Sample.cluttered_mirror)] "bar" eq_refl).
Defined.

(** A working directory in which [repos] is a regular file. *)
Definition repos_in_the_way : state Git.world :=
  State (Dir [("repos", File "not a directory")]) Sample.world0 [] [].

Lemma repos_must_be_a_directory_witness :
  get (fs repos_in_the_way) REPOS_SUBDIR = Some (File "not a directory") /\
  (exists e,
      outcome (sync_mirrors Sample.TOKEN [] (CommitData "" "" "")) repos_in_the_way
      = Raise e) /\
  started (sync_mirrors Sample.TOKEN [] (CommitData "" "" "")) repos_in_the_way = [] /\
  fs (final (sync_mirrors Sample.TOKEN [] (CommitData "" "" "")) repos_in_the_way)
  = fs repos_in_the_way.
Proof.
  split; [reflexivity |].
  exact (repos_must_be_a_directory Git.world Sample.TOKEN [] (CommitData "" "" "")
           repos_in_the_way "not a directory" eq_refl).
Defined.

(** ** What runs, and where *)

(** [git add]. *)
Definition is_add (i : invocation) : Prop := git_subcommand (argv i) = Some "add".

(** What a process of a run may be. *)
Definition in_place (i : invocation) : Prop :=
  (hd_error (argv i) = Some "git" \/ argv i = ["make"; "externals"]) /\
  (cwd i = None -> is_clone i /\ check i = true) /\
  (forall d, cwd i = Some d ->
             ~ is_clone i /\
             (d = GNU_ELPA_SUBDIR \/ d = EMACS_SUBDIR \/ exists p, d = REPOS_SUBDIR // p)) /\
  (is_add i \/ is_commit i \/ is_push i ->
   check i = true /\ exists p, cwd i = Some (REPOS_SUBDIR // p)).

Definition all_of (Q : invocation -> Prop) : delta_spec := fun dt _ _ => Forall Q dt.

Lemma all_of_sequential Q : sequential (all_of Q).
Proof. intros d1 l1 d2 l2 r H1 H2. apply Forall_app. now split. Qed.

Lemma all_of_idle Q : idle (all_of Q).
Proof. intros dl r. constructor. Qed.

Lemma all_of_run Q cmd dir chk :
  (forall rc out, Q (Invocation cmd dir chk rc out)) -> site_ok (all_of Q) (Run cmd dir chk).
Proof. intros H rc out. constructor; [apply H | constructor]. Qed.

Lemma all_of_clone Q u d sh ab pr :
  (forall rc out, Q (Invocation (clone_cmd u d sh ab) None true rc out)) ->
  site_ok (all_of Q) (Clone u d sh ab pr).
Proof.
  intros H rc out. cbv zeta.
  destruct (rc =? 0)%Z; [| destruct pr]; (constructor; [apply H | constructor]).
Qed.

Lemma clone_cmd_is_clone u d sh ab :
  hd_error (clone_cmd u d sh ab) = Some "git" /\
  git_subcommand (clone_cmd u d sh ab) = Some "clone".
Proof. now destruct sh, ab. Qed.

Lemma cloned_places tok u d sh ab pr :
  cloned tok u d sh ab pr ->
  d = GNU_ELPA_SUBDIR \/ d = EMACS_SUBDIR \/ exists p, d = REPOS_SUBDIR // p.
Proof. intros []; eauto. Qed.

Lemma committed_places d m : committed d m -> exists p, d = REPOS_SUBDIR // p.
Proof. intros []; eauto. Qed.

Ltac in_place_run :=
  unfold in_place, is_add, is_commit, is_push, is_clone;
  cbn [argv cwd check git_subcommand after_options String.eqb Ascii.eqb Bool.eqb hd_error];
  (split; [| split; [| split]]);
  [ auto
  | discriminate
  | intros ? [= <-]; split; [discriminate | eauto]
  | try (intros [? | [? | ?]]; discriminate); intros _; split; eauto ].

Lemma sites_in_place tok args data c : sites tok args data c -> site_ok (all_of in_place) c.
Proof.
  intros [u d sh ab pr H | u d sh ab pr H | u d sh ab pr H | u d sh ab pr b H
         | u d sh ab pr b H | | | | | d m H | d m H | d m H | p H | ].
  - apply all_of_clone. intros rc out.
    destruct (clone_cmd_is_clone u d sh ab) as [Hg Hc].
    unfold in_place, is_add, is_commit, is_push, is_clone. cbn [argv cwd check].
    rewrite Hc. split; [now left |]. split; [now split |]. split; [discriminate |].
    intros [? | [? | ?]]; discriminate.
  - apply all_of_run. intros rc out. pose proof (cloned_places _ _ _ _ _ _ H). in_place_run.
  - apply all_of_run. intros rc out. pose proof (cloned_places _ _ _ _ _ _ H). in_place_run.
  - apply all_of_run. intros rc out. pose proof (cloned_places _ _ _ _ _ _ H). in_place_run.
  - apply all_of_run. intros rc out. pose proof (cloned_places _ _ _ _ _ _ H). in_place_run.
  - apply all_of_run. intros rc out. in_place_run.
  - apply all_of_run. intros rc out. in_place_run.
  - apply all_of_run. intros rc out. in_place_run.
  - apply all_of_run. intros rc out. in_place_run.
  - apply all_of_run. intros rc out. destruct (committed_places _ _ H) as [p ->]. in_place_run.
  - apply all_of_run. intros rc out. destruct (committed_places _ _ H) as [p ->]. in_place_run.
  - apply all_of_run. intros rc out. destruct (committed_places _ _ H) as [p ->]. in_place_run.
  - apply all_of_run. intros rc out. in_place_run.
  - apply all_of_run. intros rc out. in_place_run.
Qed.

(** X9: A run starts nothing but Git and [make externals].  A process
    without a working directory is a checked clone; every other one runs
    in [gnu-elpa], in [gnu-elpa/emacs] or in a directory of [repos] and
    is no clone.  What is added, committed or pushed is so in a
    directory of [repos], by a checked process: the two upstream clones
    are never committed to or pushed. *)
Theorem processes_stay_in_place X {O : Outside X} tok args (s : state X) i :
  In i (started (mirror tok args) s) ->
  (hd_error (argv i) = Some "git" \/ argv i = ["make"; "externals"]) /\
  (cwd i = None -> is_clone i /\ check i = true) /\
  (forall d, cwd i = Some d ->
             ~ is_clone i /\
             (d = GNU_ELPA_SUBDIR \/ d = EMACS_SUBDIR \/ exists p, d = REPOS_SUBDIR // p)) /\
  (is_add i \/ is_commit i \/ is_push i ->
   check i = true /\ exists p, cwd i = Some (REPOS_SUBDIR // p)).
Proof.
  intros Hi.
  pose proof (emits_started _ _ _ _ _
                (mirror_sites X tok args s (all_of in_place)
                   (all_of_sequential _) (all_of_idle _)
                   (fun c Hc => sites_in_place tok args _ c Hc))) as H.
  unfold all_of in H. rewrite Forall_forall in H. exact (H i Hi).
Qed.

(** The last process of the first run of the sample: the push of the
    mirror list. *)
Definition last_of_first_run : invocation :=
  Eval vm_compute in
    last (started (mirror Sample.TOKEN []) Sample.state0) (Invocation [] None false 0 "").

Lemma processes_stay_in_place_witness :
  In last_of_first_run (started (mirror Sample.TOKEN []) Sample.state0) /\
  (hd_error (argv last_of_first_run) = Some "git" \/
   argv last_of_first_run = ["make"; "externals"]) /\
  (cwd last_of_first_run = None -> is_clone last_of_first_run /\ check last_of_first_run = true) /\
  (forall d, cwd last_of_first_run = Some d ->
             ~ is_clone last_of_first_run /\
             (d = GNU_ELPA_SUBDIR \/ d = EMACS_SUBDIR \/ exists p, d = REPOS_SUBDIR // p)) /\
  (is_add last_of_first_run \/ is_commit last_of_first_run \/ is_push last_of_first_run ->
   check last_of_first_run = true /\
   exists p, cwd last_of_first_run = Some (REPOS_SUBDIR // p)).
Proof.
  assert (H : In last_of_first_run (started (mirror Sample.TOKEN []) Sample.state0))
    by (apply in_rev; vm_compute; left; reflexivity).
  exact (conj H (processes_stay_in_place Git.world Sample.TOKEN [] Sample.state0
                   last_of_first_run H)).
Defined.

(** ** Pushing comes last *)

Section Phases.

Variable X : Type.
Context {O : Outside X}.

Local Open Scope prog_scope.

(** A first part of the trace made of [Q1], then a rest made of [Q2]. *)
Definition phased (Q1 Q2 : invocation -> Prop) : delta_spec :=
  fun dt _ _ => exists d1 d2, dt = d1 ++ d2 /\ Forall Q1 d1 /\ Forall Q2 d2.

Lemma emits_first A B (m : M X A) (k : A -> M X B) Q1 Q2 s :
  emits_at s m (all_of Q1) ->
  (forall a s', m s = (Ok a, s') -> emits_at s' (k a) (phased Q1 Q2)) ->
  emits_at s (bind m k) (phased Q1 Q2).
Proof.
  intros (d1 & l1 & Ht & Hl & HP) Hk.
  unfold emits_at, final, outcome in *.
  destruct (m s) as [[a | e] s1] eqn:E; cbn [fst snd] in *.
  - destruct (Hk a s1 eq_refl) as (d2 & l2 & Ht2 & Hl2 & (d3 & d4 & -> & H3 & H4)).
    rewrite (bind_ok _ _ _ m k _ _ _ E).
    exists (d1 ++ d3 ++ d4), (l1 ++ l2).
    rewrite Ht2, Hl2, Ht, Hl, <- !app_assoc. repeat split.
    exists (d1 ++ d3), d4. rewrite <- app_assoc.
    repeat split; [apply Forall_app; now split | assumption].
  - rewrite (bind_raise _ _ _ m k _ _ _ E). cbn [fst snd].
    exists d1, l1. repeat split; try assumption.
    exists d1, []. rewrite app_nil_r. repeat split; [exact HP | constructor].
Qed.

Lemma emits_rest A (m : M X A) Q1 Q2 s :
  emits_at s m (all_of Q2) -> emits_at s m (phased Q1 Q2).
Proof.
  intros (d & l & Ht & Hl & HP). exists d, l. repeat split; try assumption.
  exists [], d. repeat split; [constructor | exact HP].
Qed.

(** No push. *)
Definition no_push_yet (i : invocation) : Prop := ~ is_push i.

(** A push, or a process of the mirror list: one that runs in
    [repos/gnu-elpa-mirror], or the clone that makes this directory. *)
Definition publishing (tok : string) (i : invocation) : Prop :=
  argv i = push_cmd \/
  cwd i = Some MIRROR_LIST_DIR \/
  argv i = clone_cmd (mirror_url tok "gnu-elpa-mirror") MIRROR_LIST_DIR true false.

Ltac early :=
  intros; apply all_of_run; intros rc out; unfold no_push_yet, is_push; cbn; discriminate.

Lemma no_push_in_clone u d sh ab pr (s : state X) :
  emits_at s (clone_git_repo u d sh ab pr) (all_of no_push_yet).
Proof.
  apply emits_clone_git_repo;
    try apply all_of_sequential; try apply all_of_idle; try early.
  apply all_of_clone. intros rc out. unfold no_push_yet, is_push. cbn [argv].
  destruct (clone_cmd_is_clone u d sh ab) as [_ ->]. discriminate.
Qed.

Lemma no_push_in_commit d m data (s : state X) :
  emits_at s (stage_and_commit d m data) (all_of no_push_yet).
Proof.
  apply emits_stage_and_commit;
    try apply all_of_sequential; try apply all_of_idle; early.
Qed.

Ltac step Q :=
  first
    [ apply emits_log; apply all_of_idle
    | apply emits_bind; [apply (all_of_sequential Q) | | intros ? ? _] ].

Ltac quiet := apply emits_silent; [apply all_of_idle |].

Lemma no_push_in_fetch_upstream (s : state X) :
  emits_at s fetch_upstream (all_of no_push_yet).
Proof.
  unfold fetch_upstream.
  step no_push_yet; [step no_push_yet |].
  step no_push_yet; [apply no_push_in_clone |].
  step no_push_yet; [step no_push_yet |].
  step no_push_yet; [apply no_push_in_clone |].
  step no_push_yet; [step no_push_yet |].
  step no_push_yet; [quiet; apply silent_datetime_now |].
  step no_push_yet; [apply emits_run; [apply all_of_idle | early] |].
  step no_push_yet; [quiet; apply silent_decode |].
  step no_push_yet; [apply emits_run; [apply all_of_idle | early] |].
  step no_push_yet; [quiet; apply silent_decode |].
  quiet. apply silent_ret.
Qed.

Lemma no_push_in_prepare_upstream (s : state X) :
  emits_at s prepare_upstream (all_of no_push_yet).
Proof.
  unfold prepare_upstream.
  step no_push_yet; [step no_push_yet |].
  step no_push_yet; [apply emits_run; [apply all_of_idle | early] |].
  step no_push_yet; [quiet; apply silent_patch_build_script |].
  step no_push_yet; [step no_push_yet |].
  apply emits_run_unit;
    [apply all_of_sequential | apply all_of_idle | early].
Qed.

Lemma no_push_in_clone_mirror tok args existing_repos package (s : state X) :
  emits_at s (clone_mirror tok args existing_repos package) (all_of no_push_yet).
Proof.
  unfold clone_mirror.
  step no_push_yet.
  - destruct (negb (Str.mem package existing_repos)).
    + step no_push_yet; [step no_push_yet |]. quiet. apply silent_create_repo.
    + quiet. apply silent_ret.
  - step no_push_yet; [quiet; apply silent_is_dir |].
    destruct (Str.mem "--skip-mirror-pulls" args && _)%bool.
    + quiet. apply silent_ret.
    + step no_push_yet; [step no_push_yet |]. apply no_push_in_clone.
Qed.

Lemma no_push_in_update_package data package (s : state X) :
  emits_at s (update_package data package) (all_of no_push_yet).
Proof.
  unfold update_package.
  step no_push_yet; [step no_push_yet |].
  step no_push_yet; [quiet; apply silent_copy_package |].
  apply no_push_in_commit.
Qed.

Ltac late :=
  intros; apply all_of_run; intros rc out; unfold publishing; cbn [argv cwd]; auto.

Lemma publish_is_publishing tok args existing_repos packages data (s : state X) :
  emits_at s (publish tok args existing_repos packages data) (all_of (publishing tok)).
Proof.
  unfold publish, publish_list.
  step (publishing tok).
  - destruct (negb (Str.mem "--skip-mirror-pushes" args)).
    + step (publishing tok); [step (publishing tok) |].
      apply emits_for_each; [apply all_of_sequential | apply all_of_idle |].
      intros package t _. unfold push_package.
      step (publishing tok); [step (publishing tok) |].
      apply emits_run_unit; [apply all_of_sequential | apply all_of_idle | late].
    + quiet. apply silent_ret.
  - step (publishing tok).
    + destruct (negb (Str.mem "gnu-elpa-mirror" existing_repos)).
      * step (publishing tok); [step (publishing tok) |]. quiet. apply silent_create_repo.
      * quiet. apply silent_ret.
    + step (publishing tok); [step (publishing tok) |].
      step (publishing tok).
      { apply emits_clone_git_repo;
          try apply all_of_sequential; try apply all_of_idle; try late.
        apply all_of_clone. intros rc out. unfold publishing. cbn [argv cwd]. auto. }
      step (publishing tok); [step (publishing tok) |].
      step (publishing tok); [quiet; apply silent_write_mirror_list |].
      step (publishing tok).
      { apply emits_stage_and_commit;
          try apply all_of_sequential; try apply all_of_idle; late. }
      step (publishing tok); [step (publishing tok) |].
      apply emits_run_unit; [apply all_of_sequential | apply all_of_idle | late].
Qed.

Ltac first_step := apply emits_first; [| intros ? ? _].

Lemma mirror_phased tok args (s : state X) :
  emits_at s (mirror tok args) (phased no_push_yet (publishing tok)).
Proof.
  unfold mirror, mirror_from, sync_mirrors.
  first_step; [apply no_push_in_fetch_upstream |].
  first_step; [apply no_push_in_prepare_upstream |].
  first_step; [apply emits_log, all_of_idle |].
  first_step; [quiet; apply silent_github_call |].
  first_step; [quiet; apply silent_enumerate_packages |].
  first_step; [apply emits_log, all_of_idle |].
  first_step; [quiet; apply silent_github_call |].
  first_step; [quiet; apply silent_mkdir_exist_ok |].
  first_step.
  { apply emits_for_each; [apply all_of_sequential | apply all_of_idle |].
    intros. apply no_push_in_clone_mirror. }
  first_step; [apply emits_log, all_of_idle |].
  first_step.
  { apply emits_for_each; [apply all_of_sequential | apply all_of_idle |].
    intros. apply no_push_in_update_package. }
  apply emits_rest, publish_is_publishing.
Qed.

(** X10: Nothing is pushed before every package is cloned, copied and
    committed: the processes of a run are a first part without a push,
    and from the first push on every process is a push or belongs to the
    mirror list.  A run that fails in its first part has pushed
    nothing. *)
Theorem pushing_comes_last tok args (s : state X) :
  exists before after,
    started (mirror tok args) s = before ++ after /\
    (forall i, In i before -> ~ is_push i) /\
    (forall i, In i after ->
       argv i = push_cmd \/
       cwd i = Some (REPOS_SUBDIR // "gnu-elpa-mirror") \/
       argv i = clone_cmd (mirror_url tok "gnu-elpa-mirror")
                          (REPOS_SUBDIR // "gnu-elpa-mirror") true false).
Proof.
  destruct (emits_started _ _ _ _ _ (mirror_phased tok args s))
    as (before & after & E & H1 & H2).
  exists before, after. split; [exact E |].
  split; [exact (proj1 (Forall_forall _ _) H1) | exact (proj1 (Forall_forall _ _) H2)].
Qed.

End Phases.

(** ** The flag that skips the pulls *)

Section Pulls.

Variable X : Type.
Context {O : Outside X}.

(** X11: With [--skip-mirror-pulls] a mirror whose directory is there is left
    alone: no process is started for it and no file changes.  The flag
    does not spare a mirror whose directory is missing: it is cloned,
    with depth 1 and from the URL that carries the token. *)
Theorem skip_pulls_spares_present_mirrors tok args existing package (s : state X) :
  Str.mem "--skip-mirror-pulls" args = true ->
  (fs_is_dir (fs s) (REPOS_SUBDIR // package) = true ->
   started (clone_mirror tok args existing package) s = [] /\
   fs (final (clone_mirror tok args existing package) s) = fs s) /\
  (fs_is_dir (fs s) (REPOS_SUBDIR // package) = false ->
   Str.mem package existing = true ->
   exists rc out,
     started (clone_mirror tok args existing package) s =
     [Invocation (clone_cmd (mirror_url tok package) (REPOS_SUBDIR // package) true false)
                 None true rc out]).
Proof.
  intros Hflag. split.
  - intros Hd.
    unfold started, final, clone_mirror, bind, log, create_repo, bind, github_call, is_dir, ret.
    destruct (negb (Str.mem package existing)); cbn [fs world stderr trace fst snd].
    + destruct (github _ (world s)) as [[r | e] w]; cbn [fs world stderr trace fst snd].
      * rewrite Hflag, Hd. cbn [andb snd fs trace]. now rewrite skipn_all.
      * now rewrite skipn_all.
    + rewrite Hflag, Hd. cbn [andb snd fs trace]. now rewrite skipn_all.
  - intros Hd Hmem.
    unfold started, final, clone_mirror, clone_git_repo, bind, log, is_dir, ret, catch,
      subprocess_run.
    rewrite Hmem. cbn [negb fs world stderr trace fst snd].
    rewrite Hd, Bool.andb_false_r. cbn [negb fs world stderr trace fst snd].
    rewrite Hd. cbn [negb fs world stderr trace fst snd].
    destruct (spawn (clone_cmd (mirror_url tok package) (REPOS_SUBDIR // package) true false)
                    None (fs s) (world s)) as [[[rc out] f] w].
    exists rc, out. cbn [andb].
    destruct (rc =? 0)%Z; cbn [negb fst snd trace]; [now rewrite skipn_own |].
    unfold die, bind, log, raise. cbn [fst snd trace]. now rewrite skipn_own.
Qed.

End Pulls.

Lemma skip_pulls_spares_present_mirrors_witness :
  Str.mem "--skip-mirror-pulls" ["--skip-mirror-pulls"] = true /\
  (fs_is_dir (fs Sample.state1) (REPOS_SUBDIR // "foo") = true ->
   started (clone_mirror Sample.TOKEN ["--skip-mirror-pulls"] ["foo"] "foo") Sample.state1 = [] /\
   fs (final (clone_mirror Sample.TOKEN ["--skip-mirror-pulls"] ["foo"] "foo") Sample.state1)
   = fs Sample.state1) /\
  (fs_is_dir (fs Sample.state1) (REPOS_SUBDIR // "foo") = false ->
   Str.mem "foo" ["foo"] = true ->
   exists rc out,
     started (clone_mirror Sample.TOKEN ["--skip-mirror-pulls"] ["foo"] "foo") Sample.state1 =
     [Invocation (clone_cmd (mirror_url Sample.TOKEN "foo") (REPOS_SUBDIR // "foo") true false)
                 None true rc out]).
Proof.
  split; [reflexivity |].
  exact (skip_pulls_spares_present_mirrors Git.world Sample.TOKEN ["--skip-mirror-pulls"] ["foo"]
           "foo" Sample.state1 eq_refl).
Defined.

(** ** How a run begins and ends *)

Section Ends.

Variable X : Type.
Context {O : Outside X}.

Local Open Scope prog_scope.

Definition any_process : invocation -> Prop := fun _ => True.

Lemma any_site c : site_ok (all_of any_process) c.
Proof.
  destruct c as [cmd dir chk | u d sh ab pr].
  - now apply all_of_run.
  - now apply all_of_clone.
Qed.

Lemma bind_ok_inv A B (m : M X A) (k : A -> M X B) s b s2 :
  bind m k s = (Ok b, s2) -> exists a s1, m s = (Ok a, s1) /\ k a s1 = (Ok b, s2).
Proof.
  unfold bind. destruct (m s) as [[a | e] s1]; [eauto | discriminate].
Qed.

Lemma emits_trace A (m : M X A) P s r s1 :
  emits_at s m P -> m s = (r, s1) -> exists dt, trace s1 = trace s ++ dt.
Proof.
  intros (dt & dl & Ht & _) E. unfold final in Ht. rewrite E in Ht. now exists dt.
Qed.

Lemma silent_trace A (m : M X A) s r s1 :
  silent m -> m s = (r, s1) -> trace s1 = trace s.
Proof.
  intros Hm E. destruct (Hm s) as [Ht _]. unfold final in Ht. now rewrite E in Ht.
Qed.

Lemma log_trace msg (s : state X) r s1 : log msg s = (r, s1) -> trace s1 = trace s.
Proof. unfold log. intros H. injection H as _ <-. reflexivity. Qed.

Lemma clone_git_repo_trace u d sh ab pr (s : state X) r s1 :
  clone_git_repo u d sh ab pr s = (r, s1) -> exists dt, trace s1 = trace s ++ dt.
Proof.
  apply emits_trace with (P := all_of any_process).
  apply emits_clone_git_repo;
    try apply all_of_sequential; try apply all_of_idle; intros; apply any_site.
Qed.

Lemma decode_ok b (s : state X) t s' : decode b s = (Ok t, s') -> t = b /\ s' = s.
Proof.
  unfold decode. destruct (Str.utf8_valid b); [| discriminate].
  intros H. now injection H as <- <-.
Qed.

(** X12: The commit data of a run are what the two [git rev-parse HEAD]
    processes print, stripped: the hash of [gnu-elpa] and the hash of
    [gnu-elpa/emacs].  These two processes are the last ones of the
    first part of the run, and both succeeded. *)
Theorem commit_data_are_the_two_heads (s : state X) data :
  outcome fetch_upstream s = Ok data ->
  exists earlier out1 out2,
    started fetch_upstream s =
    earlier ++ [Invocation ["git"; "rev-parse"; "HEAD"] (Some GNU_ELPA_SUBDIR) true 0 out1;
                Invocation ["git"; "rev-parse"; "HEAD"] (Some EMACS_SUBDIR) true 0 out2] /\
    gnu_elpa_commit data = Str.strip out1 /\
    emacs_commit data = Str.strip out2.
Proof.
  unfold outcome, started, final. intros H.
  destruct (fetch_upstream s) as [r s9] eqn:E. cbn [fst snd] in *. subst r.
  unfold fetch_upstream in E.
  apply bind_ok_inv in E as (? & s1 & E1 & E).
  apply bind_ok_inv in E as (? & s2 & E2 & E).
  apply bind_ok_inv in E as (? & s3 & E3 & E).
  apply bind_ok_inv in E as (? & s4 & E4 & E).
  apply bind_ok_inv in E as (? & s5 & E5 & E).
  apply bind_ok_inv in E as (ts & s6 & E6 & E).
  apply bind_ok_inv in E as (i1 & s7 & E7 & E).
  apply bind_ok_inv in E as (t1 & s7' & D1 & E).
  apply decode_ok in D1 as [-> ->].
  apply bind_ok_inv in E as (i2 & s8 & E8 & E).
  apply bind_ok_inv in E as (t2 & s8' & D2 & E).
  apply decode_ok in D2 as [-> ->].
  injection E as <- <-.
  apply log_trace in E1. apply log_trace in E3. apply log_trace in E5.
  apply (silent_trace _ _ _ _ _ (silent_datetime_now X)) in E6.
  destruct (clone_git_repo_trace _ _ _ _ _ _ _ _ E2) as (d1 & T2).
  destruct (clone_git_repo_trace _ _ _ _ _ _ _ _ E4) as (d2 & T4).
  destruct (subprocess_run_ok X _ _ _ _ _ _ E7) as (rc1 & out1 & -> & T7 & _ & R1).
  destruct (subprocess_run_ok X _ _ _ _ _ _ E8) as (rc2 & out2 & -> & T8 & _ & R2).
  rewrite (R1 eq_refl) in *. rewrite (R2 eq_refl) in *.
  exists (d1 ++ d2), out1, out2.
  split; [| split; reflexivity].
  rewrite T8, T7, E6, E5, T4, E3, T2, E1, <- !app_assoc.
  rewrite skipn_own. reflexivity.
Qed.

(** The trace ends in a process of [Q] when the statement ends
    normally. *)
Definition ends_with (Q : invocation -> Prop) : delta_spec :=
  fun dt _ r => r = None -> exists pre i, dt = pre ++ [i] /\ Q i.

Lemma emits_before A B (m : M X A) (k : A -> M X B) Q s :
  emits_at s m (all_of any_process) ->
  (forall a s', m s = (Ok a, s') -> emits_at s' (k a) (ends_with Q)) ->
  emits_at s (bind m k) (ends_with Q).
Proof.
  intros (d1 & l1 & Ht & Hl & _) Hk.
  unfold emits_at, final, outcome in *.
  destruct (m s) as [[a | e] s1] eqn:E; cbn [fst snd] in *.
  - destruct (Hk a s1 eq_refl) as (d2 & l2 & Ht2 & Hl2 & H2).
    rewrite (bind_ok _ _ _ m k _ _ _ E).
    exists (d1 ++ d2), (l1 ++ l2).
    rewrite Ht2, Hl2, Ht, Hl, <- !app_assoc. repeat split.
    intros Hr. destruct (H2 Hr) as (pre & i & -> & Hi).
    exists (d1 ++ pre), i. now rewrite <- app_assoc.
  - rewrite (bind_raise _ _ _ m k _ _ _ E). cbn [fst snd].
    exists d1, l1. repeat split; try assumption. discriminate.
Qed.

(** A checked push that went well. *)
Definition pushed (d : path) (i : invocation) : Prop :=
  exists out, i = Invocation push_cmd (Some d) true 0 out.

Lemma push_ends d (s : state X) :
  emits_at s (subprocess_run push_cmd (Some d) true ;; ret tt) (ends_with (pushed d)).
Proof.
  unfold emits_at, final, outcome, bind.
  destruct (subprocess_run_cases X push_cmd (Some d) true s)
    as [(d' & _ & _ & E) | (rc & out & f & w & E)]; rewrite E.
  - exists [], []. cbn [fst snd raised]. rewrite !app_nil_r. repeat split. discriminate.
  - cbv zeta. cbn [andb]. destruct (rc =? 0)%Z eqn:Hrc; cbn [negb fst snd ret raised trace stderr].
    + apply Z.eqb_eq in Hrc. subst rc.
      exists [Invocation push_cmd (Some d) true 0 out], [].
      split; [reflexivity |]. split; [now rewrite app_nil_r |].
      intros _. exists [], (Invocation push_cmd (Some d) true 0 out).
      split; [reflexivity | now exists out].
    + exists [Invocation push_cmd (Some d) true rc out], [].
      split; [reflexivity |]. split; [now rewrite app_nil_r |]. discriminate.
Qed.

Ltac anyhow :=
  first
    [ apply emits_log; apply all_of_idle
    | apply emits_silent; [apply all_of_idle |] ].

Ltac before := apply emits_before; [| intros ? ? _].

Lemma mirror_ends tok args (s : state X) :
  emits_at s (mirror tok args) (ends_with (pushed (REPOS_SUBDIR // "gnu-elpa-mirror"))).
Proof.
  pose proof (all_of_sequential any_process) as Hseq.
  pose proof (all_of_idle any_process) as Hidle.
  assert (Hsites : forall data c, sites tok args data c -> site_ok (all_of any_process) c)
    by (intros; apply any_site).
  unfold mirror.
  apply emits_before;
    [exact (emits_fetch_upstream X _ Hseq Hidle tok args (CommitData "" "" "")
              (Hsites _) s) |].
  intros data s0 _. unfold mirror_from, sync_mirrors, publish, publish_list.
  before; [exact (emits_prepare_upstream X _ Hseq Hidle tok args data (Hsites _) _) |].
  before; [anyhow |].
  before; [anyhow; apply silent_github_call |].
  before; [anyhow; apply silent_enumerate_packages |].
  before; [anyhow |].
  before; [anyhow; apply silent_github_call |].
  before; [anyhow; apply silent_mkdir_exist_ok |].
  before.
  { apply emits_for_each; try assumption. intros.
    exact (emits_clone_mirror X _ Hseq Hidle tok args data (Hsites _) _ _ _). }
  before; [anyhow |].
  before.
  { apply emits_for_each; try assumption. intros.
    exact (emits_update_package X _ Hseq Hidle tok args data (Hsites _) _ _). }
  before.
  { destruct (negb (Str.mem "--skip-mirror-pushes" args)).
    - apply emits_bind; [assumption | anyhow |]. intros _ ? _.
      apply emits_for_each; try assumption. intros. unfold push_package.
      apply emits_bind; [assumption | anyhow |]. intros _ ? _.
      apply emits_run_unit; try assumption. apply any_site.
    - anyhow. apply silent_ret. }
  before.
  { destruct (negb (Str.mem "gnu-elpa-mirror" _)).
    - apply emits_bind; [assumption | anyhow |]. intros _ ? _.
      anyhow. apply silent_create_repo.
    - anyhow. apply silent_ret. }
  before; [anyhow |].
  before.
  { apply emits_clone_git_repo; try assumption; intros; apply any_site. }
  before; [anyhow |].
  before; [anyhow; apply silent_write_mirror_list |].
  before.
  { apply emits_stage_and_commit; try assumption; apply any_site. }
  before; [anyhow |].
  apply push_ends.
Qed.

(** X13: A run that ends normally has pushed the mirror list: its last
    process is [git push origin master] in [repos/gnu-elpa-mirror], and
    that push succeeded. *)
Theorem successful_run_pushed_the_list tok args (s : state X) :
  outcome (mirror tok args) s = Ok tt ->
  exists earlier out,
    started (mirror tok args) s =
    earlier ++ [Invocation push_cmd (Some (REPOS_SUBDIR // "gnu-elpa-mirror")) true 0 out].
Proof.
  intros Hok.
  pose proof (emits_started _ _ _ _ _ (mirror_ends tok args s)) as H.
  unfold ends_with in H. rewrite Hok in H.
  destruct (H eq_refl) as (pre & i & E & out & ->).
  now exists pre, out.
Qed.

(** X14: Without [ACCESS_TOKEN] in the environment nothing is done: the
    script writes one message and exits with status 1 before any process
    is started, any file touched or anything asked of GitHub. *)
Theorem main_needs_the_token environ args (s : state X) :
  environ "ACCESS_TOKEN" = None ->
  outcome (main environ args) s = Raise (SystemExit 1) /\
  started (main environ args) s = [] /\
  written (main environ args) s =
  ["gnu_elpa_mirror: please export ACCESS_TOKEN to a valid GitHub API token"] /\
  fs (final (main environ args) s) = fs s /\
  world (final (main environ args) s) = world s.
Proof.
  intros H. unfold outcome, started, written, final, main. rewrite H.
  cbn. rewrite skipn_all, skipn_own. repeat split.
Qed.

End Ends.

(** The first run of the sample: both upstream repositories are at the
    commit [c]. *)
Lemma commit_data_are_the_two_heads_witness :
  outcome fetch_upstream Sample.state0 = Ok (CommitData "2020-01-01 00:00:00" "c" "c") /\
  exists earlier out1 out2,
    started fetch_upstream Sample.state0 =
    earlier ++ [Invocation ["git"; "rev-parse"; "HEAD"] (Some GNU_ELPA_SUBDIR) true 0 out1;
                Invocation ["git"; "rev-parse"; "HEAD"] (Some EMACS_SUBDIR) true 0 out2] /\
    gnu_elpa_commit (CommitData "2020-01-01 00:00:00" "c" "c") = Str.strip out1 /\
    emacs_commit (CommitData "2020-01-01 00:00:00" "c" "c") = Str.strip out2.
Proof.
  assert (H : outcome fetch_upstream Sample.state0 =
              Ok (CommitData "2020-01-01 00:00:00" "c" "c"))
    by (vm_compute; reflexivity).
  exact (conj H (commit_data_are_the_two_heads Git.world Sample.state0 _ H)).
Defined.

Lemma successful_run_pushed_the_list_witness :
  outcome (mirror Sample.TOKEN []) Sample.state0 = Ok tt /\
  exists earlier out,
    started (mirror Sample.TOKEN []) Sample.state0 =
    earlier ++ [Invocation push_cmd (Some (REPOS_SUBDIR // "gnu-elpa-mirror")) true 0 out].
Proof.
  assert (H : outcome (mirror Sample.TOKEN []) Sample.state0 = Ok tt)
    by (vm_compute; reflexivity).
  exact (conj H (successful_run_pushed_the_list Git.world Sample.TOKEN [] Sample.state0 H)).
Defined.

(** An environment with nothing in it. *)
Definition empty_environ : string -> option string := fun _ => None.

Lemma main_needs_the_token_witness :
  empty_environ "ACCESS_TOKEN" = None /\
  outcome (main empty_environ []) Sample.state0 = Raise (SystemExit 1) /\
  started (main empty_environ []) Sample.state0 = [] /\
  written (main empty_environ []) Sample.state0 =
  ["gnu_elpa_mirror: please export ACCESS_TOKEN to a valid GitHub API token"] /\
  fs (final (main empty_environ []) Sample.state0) = fs Sample.state0 /\
  world (final (main empty_environ []) Sample.state0) = world Sample.state0.
Proof.
  split; [reflexivity |].
  exact (main_needs_the_token Git.world empty_environ [] Sample.state0 eq_refl).
Defined.

(** ** The order of the packages *)

Lemma leb_refl a : String.leb a a = true.
Proof.
  unfold String.leb. induction a as [| x a IH]; cbn [String.compare]; [reflexivity |].
  unfold Ascii.compare. now rewrite N.compare_refl.
Qed.

Lemma leb_trans : forall a b c,
  String.leb a b = true -> String.leb b c = true -> String.leb a c = true.
Proof.
  unfold String.leb.
  induction a as [| x a IH]; intros [| y b] [| z c]; cbn [String.compare];
    try discriminate; try reflexivity.
  unfold Ascii.compare.
  destruct (N.compare_spec (N_of_ascii x) (N_of_ascii y)) as [E1 | L1 | G1];
    destruct (N.compare_spec (N_of_ascii y) (N_of_ascii z)) as [E2 | L2 | G2];
    destruct (N.compare_spec (N_of_ascii x) (N_of_ascii z)) as [E3 | L3 | G3];
    try discriminate; try reflexivity; try lia.
  apply IH.
Qed.

(** Each element is at most every later one. *)
Fixpoint ascending (l : list string) : Prop :=
  match l with
  | [] => True
  | a :: l' => Forall (fun b => String.leb a b = true) l' /\ ascending l'
  end.

Fixpoint insert_name (k : string) (l : list string) : list string :=
  match l with
  | [] => [k]
  | a :: l' => if String.leb k a then k :: l else a :: insert_name k l'
  end.

Fixpoint sort_names (l : list string) : list string :=
  match l with
  | [] => []
  | k :: l' => insert_name k (sort_names l')
  end.

Lemma path_leb_siblings d a b : path_leb (d // a) (d // b) = String.leb a b.
Proof.
  unfold div. induction d as [| c d IH]; cbn [app path_leb].
  - destruct (String.eqb_spec a b) as [-> | _]; [now rewrite leb_refl | reflexivity].
  - now rewrite String.eqb_refl.
Qed.

Lemma insert_sorted_children d k l :
  insert_sorted (d // k) (map (div d) l) = map (div d) (insert_name k l).
Proof.
  induction l as [| a l IH]; [reflexivity |].
  cbn [map insert_sorted insert_name]. rewrite path_leb_siblings.
  destruct (String.leb k a); [reflexivity |]. cbn [map]. now rewrite IH.
Qed.

Lemma sorted_names d l : sorted (map (div d) l) = map (div d) (sort_names l).
Proof.
  induction l as [| k l IH]; [reflexivity |].
  cbn [map sorted sort_names]. now rewrite IH, insert_sorted_children.
Qed.

Lemma insert_name_In x k l : In x (insert_name k l) -> x = k \/ In x l.
Proof.
  induction l as [| a l IH]; cbn [insert_name].
  - intros [<- | []]. now left.
  - destruct (String.leb k a).
    + intros [<- | H]; [now left | now right].
    + intros [<- | H]; [right; now left |].
      destruct (IH H) as [-> | Hl]; [now left | right; now right].
Qed.

Lemma insert_name_ascending k l : ascending l -> ascending (insert_name k l).
Proof.
  induction l as [| a l IH]; cbn [insert_name ascending].
  - intros _. split; [constructor | exact I].
  - intros [Ha Hl]. destruct (String.leb k a) eqn:E; cbn [ascending].
    + split; [| now split]. constructor; [exact E |].
      apply Forall_forall. intros b Hb. apply (leb_trans k a b E).
      exact (proj1 (Forall_forall _ _) Ha b Hb).
    + split; [| now apply IH].
      apply Forall_forall. intros b Hb.
      destruct (insert_name_In _ _ _ Hb) as [-> | Hb'].
      * destruct (String.leb_total k a) as [H | H]; [congruence | exact H].
      * exact (proj1 (Forall_forall _ _) Ha b Hb').
Qed.

Lemma sort_names_ascending l : ascending (sort_names l).
Proof.
  induction l as [| k l IH]; [exact I |]. now apply insert_name_ascending.
Qed.

Lemma filter_ascending f l : ascending l -> ascending (filter f l).
Proof.
  induction l as [| a l IH]; [trivial |].
  intros [Ha Hl]. cbn [filter]. destruct (f a); [| now apply IH].
  split; [| now apply IH].
  apply Forall_forall. intros b Hb. apply filter_In in Hb as [Hb _].
  exact (proj1 (Forall_forall _ _) Ha b Hb).
Qed.



(** ** The bug fix in the build script *)

(** The text the script looks for, and the text it puts there. *)
Definition BUG : string :=
  Eval cbv in ("(cons file-pattern " ++ Str.dquote ++ Str.dquote ++ ")")%string.

Definition FIX : string := "(cons file-pattern (file-name-nondirectory file-pattern))".

Definition BUILD_SCRIPT : path := GNU_ELPA_SUBDIR // "admin" // "archive-contents.el".

Fixpoint tails (s : string) : list string :=
  match s with
  | EmptyString => [EmptyString]
  | String _ s' => s :: tails s'
  end.

Definition open_paren : ascii := "("%char.

(** No text that [BUG] ends in starts with a parenthesis. *)
Lemma tails_step c u :
  In (String c u) (tails (Str.drop 1 BUG)) ->
  c <> open_paren /\ In u (tails (Str.drop 1 BUG)).
Proof.
  intros H. vm_compute in H.
  repeat (destruct H as [H | H];
          [injection H as <- <-; split; [discriminate | vm_compute; tauto] |]).
  destruct H as [H | []]. discriminate H.
Qed.

(** [FIX] is passed over unchanged. *)
Lemma fix_passes t :
  Str.replace_from BUG FIX 0 (FIX ++ t) = (FIX ++ Str.replace_from BUG FIX 0 t)%string.
Proof. reflexivity. Qed.

Lemma prefix_cons a u b t :
  String.prefix (String a u) (String b t) = true <-> a = b /\ String.prefix u t = true.
Proof.
  cbn [String.prefix]. destruct (ascii_dec a b) as [-> | Hne]; split.
  - now split.
  - now intros [_ H].
  - discriminate.
  - intros [E _]. contradiction.
Qed.

(** What the result starts with, the text started with. *)
Lemma tail_survives s : forall u,
  In u (tails (Str.drop 1 BUG)) ->
  String.prefix u (Str.replace_from BUG FIX 0 s) = true -> String.prefix u s = true.
Proof.
  induction s as [| c s IH]; intros u Hu H; [exact H |].
  destruct u as [| a u]; [reflexivity |].
  destruct (tails_step a u Hu) as [Ha Hu'].
  cbn [Str.replace_from] in H.
  destruct (String.prefix BUG (String c s)).
  - change (FIX ++ ?t)%string with (String open_paren (Str.drop 1 FIX ++ t)) in H.
    apply prefix_cons in H as [E _]. contradiction.
  - apply prefix_cons in H as [-> H]. apply prefix_cons. split; [reflexivity |].
    now apply IH.
Qed.

Lemma bug_here c t :
  String.prefix BUG (String c t) = true <->
  c = open_paren /\ String.prefix (Str.drop 1 BUG) t = true.
Proof.
  change BUG with (String open_paren (Str.drop 1 BUG)) at 1.
  rewrite prefix_cons. intuition congruence.
Qed.

(** The replacement makes no new occurrence. *)
Lemma no_new_bug c s :
  String.prefix BUG (String c s) = false ->
  String.prefix BUG (String c (Str.replace_from BUG FIX 0 s)) = false.
Proof.
  intros H. destruct (String.prefix BUG (String c (Str.replace_from BUG FIX 0 s))) eqn:E;
    [| reflexivity].
  apply bug_here in E as [Hc E].
  apply tail_survives in E; [| vm_compute; tauto].
  rewrite (proj2 (bug_here c s) (conj Hc E)) in H. discriminate H.
Qed.

Lemma replace_from_again s : forall skip,
  Str.replace_from BUG FIX 0 (Str.replace_from BUG FIX skip s) =
  Str.replace_from BUG FIX skip s.
Proof.
  induction s as [| c s IH]; intros skip; [reflexivity |].
  destruct skip as [| k]; [| apply IH].
  cbn [Str.replace_from].
  destruct (String.prefix BUG (String c s)) eqn:E.
  - rewrite fix_passes. now rewrite IH.
  - cbn [Str.replace_from]. rewrite (no_new_bug c s E). now rewrite IH.
Qed.

Lemma replace_again s : Str.replace BUG FIX (Str.replace BUG FIX s) = Str.replace BUG FIX s.
Proof. apply replace_from_again. Qed.

Lemma remove_entry_twice k es : remove_entry k (remove_entry k es) = remove_entry k es.
Proof.
  unfold remove_entry. rewrite filter_filter. apply filter_ext.
  intros e. now destruct (negb (fst e =? k)%string).
Qed.

Lemma set_entry_twice k v w es : set_entry k v (set_entry k w es) = set_entry k v es.
Proof.
  destruct v as [n |], w as [m |]; cbn [set_entry remove_entry filter fst];
    rewrite ?String.eqb_refl; cbn [negb]; fold (remove_entry k es);
    fold (remove_entry k (remove_entry k es)); now rewrite remove_entry_twice.
Qed.

Lemma put_twice p : forall root v, put (put root p v) p v = put root p v.
Proof.
  induction p as [| c p IH]; intros root v.
  - now destruct v.
  - destruct root as [x | t | es]; try reflexivity.
    destruct p as [| c' p'].
    + cbn [put]. now rewrite set_entry_twice.
    + rewrite (put_cons es c (c' :: p') v) by discriminate.
      destruct (assoc c es) as [m |] eqn:Ec.
      * rewrite put_cons by discriminate. rewrite assoc_set_eq.
        now rewrite IH, set_entry_twice.
      * rewrite put_cons by discriminate. now rewrite Ec.
Qed.

(** *** The text that is read and written *)

(** After [skip] characters are passed over the replacement goes on as
    from the start. *)
Lemma replace_from_skip old new s : forall skip,
  Str.replace_from old new skip s = Str.replace_from old new 0 (Str.drop skip s).
Proof.
  induction s as [| c s IH]; intros [| k]; try reflexivity. apply IH.
Qed.

Lemma drop_length k : forall s, String.length (Str.drop k s) <= String.length s.
Proof.
  induction k as [| k IH]; intros [| c s]; cbn [Str.drop String.length]; try lia.
  specialize (IH s). lia.
Qed.

(** Where [BUG] is, [FIX] is put and the replacement goes on after it. *)
Lemma replace_at_bug c s :
  String.prefix BUG (String c s) = true ->
  String c s = (BUG ++ Str.drop (String.length BUG - 1) s)%string /\
  Str.replace_from BUG FIX 0 (String c s) =
  (FIX ++ Str.replace_from BUG FIX 0 (Str.drop (String.length BUG - 1) s))%string.
Proof.
  intros H. split.
  - symmetry. exact (prefix_drop BUG (String c s) H).
  - cbn [Str.replace_from]. rewrite H. now rewrite replace_from_skip.
Qed.

(** No carriage return in the text. *)
Fixpoint no_cr (s : string) : bool :=
  match s with
  | EmptyString => true
  | String c s' => (negb (Nat.eqb (nat_of_ascii c) 13) && no_cr s')%bool
  end.

(** A text read with universal newlines has no carriage return, and a
    text without one is read as it is. *)
Lemma universal_newlines_no_cr n : forall s,
  String.length s <= n -> no_cr (Str.universal_newlines s) = true.
Proof.
  induction n as [| n IH]; intros [| c s] Hn; try reflexivity;
    cbn [String.length] in Hn; [lia |].
  cbn [Str.universal_newlines].
  destruct (Nat.eqb (nat_of_ascii c) 13) eqn:Ec.
  - destruct s as [| d s]; [reflexivity |].
    destruct (Nat.eqb (nat_of_ascii d) 10) eqn:Ed.
    + cbn [no_cr]. apply Nat.eqb_eq in Ed. rewrite Ed. cbn [Nat.eqb negb andb].
      apply IH. cbn [String.length] in Hn. lia.
    + change (no_cr (Str.universal_newlines (String d s)) = true). apply IH. lia.
  - cbn [no_cr]. rewrite Ec. cbn [negb andb]. apply IH. lia.
Qed.

Lemma universal_newlines_plain s : no_cr s = true -> Str.universal_newlines s = s.
Proof.
  induction s as [| c s IH]; [reflexivity |]. cbn [no_cr Str.universal_newlines].
  destruct (Nat.eqb (nat_of_ascii c) 13); [discriminate |]. cbn [negb andb].
  intros H. now rewrite IH.
Qed.

(** The replacement brings no carriage return. *)
Lemma replace_no_cr n : forall s,
  String.length s <= n -> no_cr s = true -> no_cr (Str.replace_from BUG FIX 0 s) = true.
Proof.
  induction n as [| n IH]; intros [| c s] Hn Hs; try reflexivity;
    cbn [String.length] in Hn; [lia |].
  destruct (String.prefix BUG (String c s)) eqn:E.
  - destruct (replace_at_bug c s E) as [Es ->]. rewrite Es in Hs.
    set (t := Str.drop (String.length BUG - 1) s) in *.
    assert (Ht : String.length t <= n)
      by (pose proof (drop_length (String.length BUG - 1) s); unfold t; lia).
    change (no_cr (BUG ++ t) = true) with (no_cr t = true) in Hs.
    change (no_cr (Str.replace_from BUG FIX 0 t) = true). now apply IH.
  - cbn [Str.replace_from]. rewrite E. cbn [no_cr] in *.
    apply Bool.andb_true_iff in Hs as [-> Hs]. apply IH; [lia | assumption].
Qed.

(** Reading with universal newlines and replacing keep a text
    well-formed: only bytes below 128 come and go, where a character
    starts. *)
Lemma universal_newlines_valid n : forall s st,
  String.length s <= n ->
  Str.utf8_from st (Str.universal_newlines s) = Str.utf8_from st s.
Proof.
  induction n as [| n IH]; intros [| c s] st Hn; try reflexivity;
    cbn [String.length] in Hn; [lia |].
  cbn [Str.universal_newlines].
  destruct (Nat.eqb (nat_of_ascii c) 13) eqn:Ec.
  - apply Nat.eqb_eq in Ec.
    assert (Hc : forall r, Str.utf8_from st (String c r) =
                           match st with Str.U_start => Str.utf8_from Str.U_start r
                                    | _ => false end).
    { intros r. cbn [Str.utf8_from]. unfold Str.utf8_step. rewrite Ec. now destruct st. }
    destruct s as [| d s]; [rewrite Hc; now destruct st |].
    destruct (Nat.eqb (nat_of_ascii d) 10) eqn:Ed.
    + apply Nat.eqb_eq in Ed. rewrite Hc.
      cbn [Str.utf8_from]. unfold Str.utf8_step. rewrite Ed.
      destruct st; try reflexivity. cbn [Nat.leb]. apply IH.
      cbn [String.length] in Hn. lia.
    + rewrite Hc. cbn [Str.utf8_from]. unfold Str.utf8_step at 1.
      change (nat_of_ascii (ascii_of_nat 10)) with 10.
      destruct st; try reflexivity. cbn [Nat.leb].
      change (Str.utf8_from Str.U_start (Str.universal_newlines (String d s)) =
              Str.utf8_from Str.U_start (String d s)).
      apply IH. lia.
  - cbn [Str.utf8_from]. destruct (Str.utf8_step st c); [| reflexivity]. apply IH. lia.
Qed.

Lemma replace_valid n : forall s st,
  String.length s <= n ->
  Str.utf8_from st (Str.replace_from BUG FIX 0 s) = Str.utf8_from st s.
Proof.
  induction n as [| n IH]; intros [| c s] st Hn; try reflexivity;
    cbn [String.length] in Hn; [lia |].
  destruct (String.prefix BUG (String c s)) eqn:E.
  - destruct (replace_at_bug c s E) as [-> ->].
    set (t := Str.drop (String.length BUG - 1) s).
    assert (Ht : String.length t <= n)
      by (pose proof (drop_length (String.length BUG - 1) s); unfold t; lia).
    specialize (IH t Str.U_start Ht).
    set (r := Str.replace_from BUG FIX 0 t) in *.
    destruct st; try reflexivity. exact IH.
  - cbn [Str.replace_from]. rewrite E. cbn [Str.utf8_from].
    destruct (Str.utf8_step st c); [| reflexivity]. apply IH. lia.
Qed.

(** What the script writes can be read again as it is, and the fix
    finds nothing more to replace in it. *)
Lemma fixed_text c :
  Str.utf8_valid c = true ->
  Str.utf8_valid (Str.replace BUG FIX (Str.universal_newlines c)) = true /\
  Str.universal_newlines (Str.replace BUG FIX (Str.universal_newlines c)) =
  Str.replace BUG FIX (Str.universal_newlines c) /\
  Str.replace BUG FIX (Str.replace BUG FIX (Str.universal_newlines c)) =
  Str.replace BUG FIX (Str.universal_newlines c).
Proof.
  intros Hc. change (Str.replace BUG FIX) with (Str.replace_from BUG FIX 0).
  split; [| split].
  - unfold Str.utf8_valid in *.
    rewrite (replace_valid _ _ _ (le_n _)), (universal_newlines_valid _ _ _ (le_n _)).
    exact Hc.
  - apply universal_newlines_plain, (replace_no_cr _ _ (le_n _)).
    apply (universal_newlines_no_cr _ _ (le_n _)).
  - apply replace_from_again.
Qed.

Section Patch.

Variable X : Type.

(** X16: The bug fix reads the build script as text, which has to be
    well-formed UTF-8, every line end becoming a line feed, and
    rewrites it with every occurrence of [BUG] replaced; it touches no
    other file.  Applied to a script that is already fixed it changes
    nothing: the fix can be installed on every run, also when the
    checkout that precedes it did not restore the file. *)
Theorem patch_build_script_twice (s : state X) es c :
  get (fs s) (GNU_ELPA_SUBDIR // "admin") = Some (Dir es) ->
  assoc "archive-contents.el" es = Some (File c) ->
  Str.utf8_valid c = true ->
  outcome patch_build_script s = Ok tt /\
  get (fs (final patch_build_script s)) BUILD_SCRIPT
  = Some (File (Str.replace BUG FIX (Str.universal_newlines c))) /\
  (forall q, apart BUILD_SCRIPT q = true ->
             get (fs (final patch_build_script s)) q = get (fs s) q) /\
  patch_build_script (final patch_build_script s) = (Ok tt, final patch_build_script s).
Proof.
  intros Hd Hk Hc.
  assert (Hrun : forall (t : state X) es' c',
             get (fs t) (GNU_ELPA_SUBDIR // "admin") = Some (Dir es') ->
             assoc "archive-contents.el" es' = Some (File c') ->
             Str.utf8_valid c' = true ->
             patch_build_script t =
             (Ok tt, set_fs t (put (fs t) BUILD_SCRIPT
                                   (Some (File (Str.replace BUG FIX
                                                  (Str.universal_newlines c'))))))).
  { intros t es' c' Hd' Hk' Hc'.
    assert (Hs : stat (fs t) BUILD_SCRIPT = Some (BUILD_SCRIPT, Some (File c'))).
    { unfold BUILD_SCRIPT. rewrite (stat_child _ _ _ "archive-contents.el" Hd').
      - now rewrite Hk'.
      - rewrite Hk'. discriminate. }
    unfold patch_build_script, bind, read_file, write_file.
    fold BUILD_SCRIPT. rewrite Hs, Hc'. cbn [fs]. now rewrite Hs. }
  destruct (fixed_text c Hc) as (Hvalid & Hplain & Hagain).
  set (c1 := Str.replace BUG FIX (Str.universal_newlines c)) in *.
  unfold outcome, final. rewrite (Hrun s es c Hd Hk Hc). cbn [fst snd fs set_fs].
  fold c1.
  assert (Hd1 : get (put (fs s) BUILD_SCRIPT (Some (File c1)))
                    (GNU_ELPA_SUBDIR // "admin") =
                Some (Dir (set_entry "archive-contents.el" (Some (File c1)) es)))
    by (apply get_put_child; exact Hd).
  split; [reflexivity |]. split; [| split].
  - unfold BUILD_SCRIPT at 2. rewrite (get_child _ _ _ "archive-contents.el" Hd1).
    apply assoc_set_eq.
  - intros q Hq. now apply get_put_apart.
  - rewrite (Hrun (set_fs s (put (fs s) BUILD_SCRIPT (Some (File c1))))
                  _ c1 Hd1 (assoc_set_eq _ _ _) Hvalid).
    unfold set_fs. cbn [fs world stderr trace]. rewrite Hplain, Hagain, put_twice.
    reflexivity.
Qed.

End Patch.

(** The build script of the sample after the first run. *)
Definition sample_admin : entries_t :=
  Eval vm_compute in
    match get (fs Sample.state1) (GNU_ELPA_SUBDIR // "admin") with
    | Some (Dir es) => es
    | _ => []
    end.

Definition sample_script : string :=
  Eval vm_compute in
    match assoc "archive-contents.el" sample_admin with
    | Some (File c) => c
    | _ => ""
    end.

Lemma patch_build_script_twice_witness :
  get (fs Sample.state1) (GNU_ELPA_SUBDIR // "admin") = Some (Dir sample_admin) /\
  assoc "archive-contents.el" sample_admin = Some (File sample_script) /\
  Str.utf8_valid sample_script = true /\
  outcome patch_build_script Sample.state1 = Ok tt /\
  get (fs (final patch_build_script Sample.state1)) BUILD_SCRIPT
  = Some (File (Str.replace BUG FIX (Str.universal_newlines sample_script))) /\
  (forall q, apart BUILD_SCRIPT q = true ->
             get (fs (final patch_build_script Sample.state1)) q = get (fs Sample.state1) q) /\
  patch_build_script (final patch_build_script Sample.state1)
  = (Ok tt, final patch_build_script Sample.state1).
Proof.
  assert (H1 : get (fs Sample.state1) (GNU_ELPA_SUBDIR // "admin") = Some (Dir sample_admin))
    by (vm_compute; reflexivity).
  assert (H2 : assoc "archive-contents.el" sample_admin = Some (File sample_script))
    by (vm_compute; reflexivity).
  exact (conj H1 (conj H2 (conj eq_refl
           (patch_build_script_twice Git.world Sample.state1
              sample_admin sample_script H1 H2 eq_refl)))).
Defined.

(** ** What a run publishes *)

Lemma assoc_copied src_es names : forall t k,
  assoc k (copied src_es names t) =
  if (Str.mem k names && negb (k =? ".git"))%bool
  then match assoc k src_es with Some n => Some n | None => assoc k t end
  else assoc k t.
Proof.
  induction names as [| a names IH]; intros t k; [reflexivity |].
  cbn [copied]. rewrite IH. unfold Str.mem. cbn [existsb]. fold (Str.mem k names).
  destruct (String.eqb_spec k a) as [-> | Hka]; cbn [orb].
  - destruct (a =? ".git")%string eqn:Eg; cbn [negb].
    + now rewrite !Bool.andb_false_r.
    + rewrite !Bool.andb_true_r.
      destruct (assoc a src_es) as [n |] eqn:Ea;
        [rewrite assoc_cons, String.eqb_refl | ]; now destruct (Str.mem a names).
  - destruct (Str.mem k names && negb (k =? ".git"))%bool;
      destruct (a =? ".git")%string; try reflexivity;
      destruct (assoc a src_es) as [n |]; try reflexivity;
      rewrite assoc_cons, (proj2 (String.eqb_neq k a) Hka); reflexivity.
Qed.

(** What a mirror tracks of a package: under every name but [.git] what
    the package directory holds under it. *)
Lemma assoc_package_tree src src_es k :
  assoc k (package_tree src src_es) =
  if (k =? ".git")%string then None else assoc k src_es.
Proof.
  unfold package_tree. rewrite assoc_copied. cbn [assoc].
  destruct (k =? ".git")%string; cbn [negb]; [now rewrite Bool.andb_false_r |].
  rewrite Bool.andb_true_r.
  destruct (Str.mem k (listing src src_es)) eqn:Em; [now destruct (assoc k src_es) |].
  symmetry. apply assoc_None. intros Hin. apply mem_false in Em. apply Em.
  exact (Permutation_in _ (listing_perm src src_es) Hin).
Qed.


